(** * Flash-hazard analyzer: a shallow embedding and its properties

    The development follows the source files of the analyzer:

    - [flashdetection/region_shape.py]     ([Module RegionShape]),
    - [flashdetection/red_transition_fsm.py] ([Module RedFSM]),
    - [flashdetection/danger_detection.py] ([Module Danger]),
    - [flashdetector.py]                   ([Module Detector]).

    Conventions of the embedding.

    - Python [int]s are [Z]; [//] is [Z.div] (both round towards minus
      infinity) and raises on a zero divisor.
    - Python and numpy floats are exact rationals ([Q]); rounding error is
      not modelled.  [nan] (the mean of an empty slice) is [None].  The
      viewport calculator uses [tan], [pi] and square roots and is modelled
      over the real numbers.
    - A Python [set] of [State] objects, whose hash and equality only look
      at [(name, idx)], is a finite map from [(name, idx)] to the
      coordinate list of the state's checker.  The iteration order of the
      set is the order of [map_to_list].
    - Exceptions are values of [exn]; fallible code returns [Result]. *)

From Stdlib Require Import ZArith QArith Qround Reals Lqa Lra Lia.
From stdpp Require Import gmap list.

(** ** Exceptions and the error monad *)

Inductive exn : Type :=
| InvalidSpeed        (* ValueError("speed must not exceed 5x and must be positive") *)
| NegativeDimensions  (* ValueError raised by numpy for a negative shape *)
| ZeroDivisionError
| IndexError.

Inductive Result (A : Type) : Type :=
| Ok (a : A)
| Err (e : exn).
Arguments Ok {A} a.
Arguments Err {A} e.

Definition bind {A B : Type} (m : Result A) (k : A → Result B) : Result B :=
  match m with
  | Ok a => k a
  | Err e => Err e
  end.

Notation "x ←? m ; k" := (bind m (λ x, k))
  (at level 20, m at level 100, k at level 200, only parsing).
Notation "' p ←? m ; k" := (bind m (λ x, match x with p => k end))
  (at level 20, p pattern, m at level 100, k at level 200, only parsing).

(** [for x in xs: s = body(x, s)], stopping at the first exception. *)
Fixpoint for_each {S X : Type} (xs : list X) (body : X → S → Result S)
    (s : S) : Result S :=
  match xs with
  | [] => Ok s
  | x :: xs' => s' ←? body x s; for_each xs' body s'
  end.

(** [range(n)] *)
Definition range (n : nat) : list nat := seq 0 n.

(** ** Numbers *)

Definition Qltb (a b : Q) : bool := negb (Qle_bool b a).
Definition Qabs' (a : Q) : Q := if Qle_bool 0 a then a else Qopp a.

(** [a / b] on Python ints: true division, raising on [b == 0]. *)
Definition py_truediv (a b : Z) : Result Q :=
  if (b =? 0)%Z then Err ZeroDivisionError
  else Ok (inject_Z a / inject_Z b)%Q.

(** [a // b] on Python ints. *)
Definition py_floordiv (a b : Z) : Result Z :=
  if (b =? 0)%Z then Err ZeroDivisionError else Ok (a / b)%Z.

(** [int(x)] on a float: truncation towards zero. *)
Definition py_int (x : Q) : Z := Z.quot (Qnum x) (Zpos (Qden x)).

(** Python's [round(x)]: to the nearest integer, ties to the even one. *)
Definition py_round (x : Q) : Z :=
  let f := Qfloor x in
  let r := (x - inject_Z f)%Q in
  if Qltb r (1 # 2) then f
  else if Qltb (1 # 2) r then (f + 1)%Z
  else if Z.even f then f else (f + 1)%Z.

(** * flashdetection/region_shape.py *)

Module RegionShape.

(** [calc_viewport]: the fraction of the screen covered by the circular
    viewport, the fraction covered by the square viewport, and the side of
    the square viewport in pixels.  [screen_resolution // gcd] is numpy's
    integer floor division, which yields 0 on a zero divisor, as [Z.div]
    does. *)
Definition calc_viewport (screen_resolution : Z * Z)
    (screen_size view_distance viewport_angle : R) : R * R * Z :=
  let radius := (view_distance * tan (viewport_angle * PI / 180))%R in
  let circle_area := (PI * radius ^ 2)%R in
  let g := Z.gcd screen_resolution.1 screen_resolution.2 in
  let aspect_ratio := (screen_resolution.1 / g, screen_resolution.2 / g)%Z in
  let hypotenuse := sqrt (IZR (aspect_ratio.1 ^ 2 + aspect_ratio.2 ^ 2)) in
  let screen_dimensions :=
    (IZR aspect_ratio.1 / hypotenuse * screen_size,
     IZR aspect_ratio.2 / hypotenuse * screen_size)%R in
  let screen_area := (screen_dimensions.1 * screen_dimensions.2)%R in
  let ppcm := (IZR screen_resolution.1 / screen_dimensions.1)%R in
  let square_side_length := (sqrt 2 * radius)%R in
  let square_size_pixels := Zceil (square_side_length * ppcm) in
  ((circle_area / screen_area)%R,
   (square_side_length ^ 2 / screen_area)%R,
   square_size_pixels).

(** The third component, [square_side(H, W, D, V, theta)] of the
    specification. *)
Definition square_side (H W : Z) (D V theta : R) : Z :=
  (calc_viewport (H, W) D V theta).2.

End RegionShape.

(** * flashdetection/red_transition_fsm.py *)

Module RedFSM.

(** A chromaticity coordinate [(u', v')]. *)
Abbreviation coord := (Q * Q)%type.

Definition MAX_CHROMATICITY_DIFF : Q := 2 # 10.
Definition MAX_RED_PERCENTAGE : Q := 8 # 10.

(** *** ChromaticityChecker *)

(** The checker is its list [coordinates]. *)
Abbreviation ChromaticityChecker := (list coord).

Definition push (ck : ChromaticityChecker) (c : coord) : ChromaticityChecker :=
  ck ++ [c].

(** [np.linalg.norm(c - other) >= MAX_CHROMATICITY_DIFF], compared on the
    squares: both sides are non-negative. *)
Definition norm_ge_threshold (c other : coord) : bool :=
  let du := (c.1 - other.1)%Q in
  let dv := (c.2 - other.2)%Q in
  Qle_bool (MAX_CHROMATICITY_DIFF * MAX_CHROMATICITY_DIFF)
           (du * du + dv * dv).

(** [np.any(differences >= MAX_CHROMATICITY_DIFF)] *)
Definition is_above_threshold (ck : ChromaticityChecker) (other : coord) : bool :=
  existsb (λ c, norm_ge_threshold c other) ck.

(** *** State *)

Inductive state_name : Type := A | B | C | D | E.

Global Instance state_name_eq_dec : EqDecision state_name.
Proof. solve_decision. Defined.

Definition state_name_code (x : state_name) : nat :=
  match x with A => 0 | B => 1 | C => 2 | D => 3 | E => 4 end.

Definition state_name_of_code (k : nat) : state_name :=
  match k with 0 => A | 1 => B | 2 => C | 3 => D | _ => E end.

Global Instance state_name_countable : Countable state_name.
Proof.
  apply (inj_countable' state_name_code state_name_of_code).
  by intros [].
Defined.

(** What [__hash__] and [__eq__] look at: [(name, idx)]. *)
Abbreviation state_id := (state_name * Z)%type.

Record State : Type := mkState {
  name : state_name;
  idx : Z;
  chromaticity_checker : ChromaticityChecker
}.

(** [State(name, chromaticity, idx)]: a fresh checker holding the one
    coordinate. *)
Definition State_init (nm : state_name) (chromaticity : coord) (i : Z) : State :=
  mkState nm i (push [] chromaticity).

Definition id_of (s : State) : state_id := (name s, idx s).

(** A [set] of states. *)
Abbreviation state_set := (gmap state_id ChromaticityChecker).

(** [state_set.add(state)]: no effect when an equal state is present. *)
Definition set_add (s : State) (ss : state_set) : state_set :=
  match ss !! id_of s with
  | Some _ => ss
  | None => <[id_of s := chromaticity_checker s]> ss
  end.

(** *** Region *)

Definition should_transition (ck : ChromaticityChecker) (chromaticity : coord)
    (red_percentage : Q) (should_check_red_percentage : bool) : bool :=
  if should_check_red_percentage && Qltb red_percentage MAX_RED_PERCENTAGE
  then false
  else if is_above_threshold ck chromaticity then true
  else false.

Definition update_or_add_state (s : State) (ss : state_set)
    (chromaticity : coord) : state_set :=
  match ss !! id_of s with
  | Some ck => <[id_of s := push ck chromaticity]> ss
  | None => <[id_of s := chromaticity_checker s]> ss
  end.

Definition add_start_state (chromaticity : coord) (red_percentage : Q)
    (i : Z) (ss : state_set) : state_set :=
  if Qle_bool MAX_RED_PERCENTAGE red_percentage
  then set_add (State_init B chromaticity i) ss
  else set_add (State_init A chromaticity i) ss.

(** The body of [for state in self.states] in [state_machine].  The push
    goes to the checker of the old state object; [changed] only receives
    freshly built successor states. *)
Definition propagate (chromaticity : coord) (red_percentage : Q)
    (changed : state_set) (st : state_id * ChromaticityChecker) : state_set :=
  let '((nm, i), ck0) := st in
  let ck := push ck0 chromaticity in
  match nm with
  | A =>
      let changed1 :=
        if should_transition ck chromaticity red_percentage true
        then update_or_add_state (State_init C chromaticity i) changed chromaticity
        else changed in
      if should_transition ck chromaticity red_percentage false
      then update_or_add_state (State_init D chromaticity i) changed1 chromaticity
      else changed1
  | B =>
      if should_transition ck chromaticity red_percentage false
      then update_or_add_state (State_init C chromaticity i) changed chromaticity
      else changed
  | C =>
      if should_transition ck chromaticity red_percentage false
      then update_or_add_state (State_init E chromaticity i) changed chromaticity
      else changed
  | D =>
      if should_transition ck chromaticity red_percentage true
      then update_or_add_state (State_init E chromaticity i) changed chromaticity
      else changed
  | E => changed
  end.

(** [Region.state_machine]; [buffer_idx] is [self.buffer.idx].  The result
    is the new value of [self.states]. *)
Definition state_machine (buffer_idx : Z) (states : state_set)
    (chromaticity : coord) (red_percentage : Q) : state_set :=
  let changed_state_set :=
    foldl (propagate chromaticity red_percentage) ∅ (map_to_list states) in
  add_start_state chromaticity red_percentage buffer_idx changed_state_set.

(** [Region.flash_idx] *)
Definition flash_idx (states : state_set) : Z :=
  match List.find (λ st : state_id * ChromaticityChecker,
                     bool_decide (st.1.1 = E)) (map_to_list states) with
  | Some st => st.1.2
  | None => -1
  end.

(** *** Buffer *)

(** One entry of a frame handed to [add_frame]: [[u, v, red_percentage]]. *)
Abbreviation sample := (Q * Q * Q)%type.
Abbreviation chroma_frame := (list (list sample)).

Record Buffer : Type := mkBuffer {
  buf_idx : Z;
  regions : gmap (nat * nat) state_set;
  num_frames : Z;
  n : nat;
  frame_rate : Z;
  red_flash_timestamps : list (Q * Q)
}.

(** [Buffer(num_frames, n, frame_rate)] *)
Definition Buffer_init (nf : Z) (size : nat) (fr : Z) : Buffer :=
  let cells := i ← range size; j ← range size; [((i, j), (∅ : state_set))] in
  mkBuffer 0 (list_to_map cells) nf size fr [].

(** [a[i][j]] on a two-dimensional array. *)
Definition index2 {X : Type} (a : list (list X)) (i j : nat) : Result X :=
  match a !! i with
  | None => Err IndexError
  | Some row =>
      match row !! j with
      | None => Err IndexError
      | Some x => Ok x
      end
  end.

Definition region_at (rs : gmap (nat * nat) state_set) (i j : nat)
  : Result state_set :=
  match rs !! (i, j) with
  | None => Err IndexError
  | Some ss => Ok ss
  end.

(** [Buffer.remove_frame] *)
Definition remove_states (out : Z) (ss : state_set) : state_set :=
  filter (λ st : state_id * ChromaticityChecker, st.1.2 ≠ out) ss.

Definition remove_frame (b : Buffer) (out : Z) : Result Buffer :=
  rs ←? for_each (range (n b)) (λ i rs,
          for_each (range (n b)) (λ j rs,
            ss ←? region_at rs i j;
            Ok (<[(i, j) := remove_states out ss]> rs)) rs) (regions b);
  Ok (mkBuffer (buf_idx b) rs (num_frames b) (n b) (frame_rate b)
               (red_flash_timestamps b)).

(** The body of the two loops of [add_frame], on the pair of the region
    array and the timestamp list. *)
Definition region_body (b : Buffer) (frame : chroma_frame) (i j : nat)
    (acc : gmap (nat * nat) state_set * list (Q * Q))
  : Result (gmap (nat * nat) state_set * list (Q * Q)) :=
  let '(rs, stamps) := acc in
  '(u, v, red_percentage) ←? index2 frame i j;
  ss ←? region_at rs i j;
  let ss' := state_machine (buf_idx b) ss (u, v) red_percentage in
  let rs' := <[(i, j) := ss']> rs in
  if bool_decide (flash_idx ss' ≠ (-1)%Z)
  then ti ←? py_truediv (Z.of_nat i) (frame_rate b);
       tj ←? py_truediv (Z.of_nat j) (frame_rate b);
       Ok (rs', stamps ++ [(ti, tj)])
  else Ok (rs', stamps).

(** [Buffer.add_frame] *)
Definition add_frame (b : Buffer) (frame : chroma_frame) : Result Buffer :=
  '(rs, stamps) ←? for_each (range (n b)) (λ i acc,
                     for_each (range (n b)) (λ j acc,
                       region_body b frame i j acc) acc)
                   (regions b, red_flash_timestamps b);
  let b1 := mkBuffer (buf_idx b + 1) rs (num_frames b) (n b) (frame_rate b)
                     stamps in
  let out_idx := (buf_idx b1 - num_frames b1)%Z in
  if (0 <=? out_idx)%Z then remove_frame b1 out_idx else Ok b1.

Definition get_red_flash_timestamps (b : Buffer) : list (Q * Q) :=
  red_flash_timestamps b.

End RedFSM.

(** * flashdetection/danger_detection.py *)

Module Danger.

(** A pixel of an HLS frame: [(H, L, S)]. *)
Abbreviation pixel := (Z * Z * Z)%type.
Abbreviation hls_frame := (list (list pixel)).

(** The array [dangerous], of shape [(len(frames), height, width, 3)]. *)
Record Array : Type := mkArray {
  height : Z;
  width : Z;
  frames : list hls_frame
}.

(** [a[lo:hi]] for [0 <= lo]; numpy clips the slice to the array. *)
Definition slice {X : Type} (a : list X) (lo hi : Z) : list X :=
  take (Z.to_nat (hi - lo)) (drop (Z.to_nat lo) a).

Definition zsum (xs : list Z) : Z := foldr Z.add 0%Z xs.

(** [np.mean(segment[:, :, 1])]; [None] is the [nan] of an empty slice. *)
Definition calculate_average_luminance (segment : list (list pixel)) : option Q :=
  let lightness := concat (map (map (λ p : pixel, p.1.2)) segment) in
  match lightness with
  | [] => None
  | _ => Some (inject_Z (zsum lightness) / inject_Z (Z.of_nat (length lightness)))%Q
  end.

Definition luminance_threshold : Q := (1 # 2) * 255.
Definition dark_threshold : Q := (8 # 10) * 255.

(** The test of pass 2 on two luminances; a comparison with [nan] is
    false. *)
Definition opposing (a b : option Q) : bool :=
  match a, b with
  | Some x, Some y =>
      Qltb luminance_threshold (Qabs' (x - y))
      && (Qltb x dark_threshold || Qltb y dark_threshold)
  | _, _ => false
  end.

(** [luminances[f, r, c]]; the indices of pass 2 are always in range. *)
Definition lum_at (luminances : list (list (list (option Q))))
    (f r c : nat) : option Q :=
  match luminances !! f with
  | Some tiles =>
      match tiles !! r with
      | Some line => default None (line !! c)
      | None => None
      end
  | None => None
  end.

(** Pass 1: [luminances[frame_idx, row, col]]. *)
Definition precalculate (dangerous : Array) (sections segment_height
    segment_width : Z) : list (list (list (option Q))) :=
  map (λ frame : hls_frame,
    map (λ row : nat,
      map (λ col : nat,
        let y1 := (Z.of_nat row * segment_height)%Z in
        let y2 := ((Z.of_nat row + 1) * segment_height)%Z in
        let x1 := (Z.of_nat col * segment_width)%Z in
        let x2 := ((Z.of_nat col + 1) * segment_width)%Z in
        let segment := map (λ line, slice line x1 x2) (slice frame y1 y2) in
        calculate_average_luminance segment)
      (range (Z.to_nat sections)))
    (range (Z.to_nat sections)))
  (frames dangerous).

(** [num_flashes[row, col] += 1] *)
Definition increment (num_flashes : list (list Z)) (row col : nat) : list (list Z) :=
  match num_flashes !! row with
  | Some line =>
      match line !! col with
      | Some k => <[row := <[col := (k + 1)%Z]> line]> num_flashes
      | None => num_flashes
      end
  | None => num_flashes
  end.

(** [np.max(num_flashes)], on a non-empty array of counters. *)
Definition np_max (num_flashes : list (list Z)) : Z :=
  foldr Z.max 0%Z (concat num_flashes).

(** The local variables of pass 2.  The loop variables are ordinary
    locals: each [for] assigns the next element of its iterator at the top
    of an iteration, and the body is free to overwrite them. *)
Record scan : Type := mkScan {
  frame_idx : nat;
  future_frame : nat;
  row : nat;
  col : nat;
  num_flashes : list (list Z)
}.

(** A [for] loop whose body may [return]. *)
Fixpoint for_return {S X V : Type} (xs : list X) (body : X → S → V + S)
    (s : S) : V + S :=
  match xs with
  | [] => inr s
  | x :: xs' =>
      match body x s with
      | inl v => inl v
      | inr s' => for_return xs' body s'
      end
  end.

(** The body of the innermost loop. *)
Definition check_tile (luminances : list (list (list (option Q))))
    (num_frames : nat) (c : nat) (s : scan) : Z + scan :=
  let s := mkScan (frame_idx s) (future_frame s) (row s) c (num_flashes s) in
  if opposing (lum_at luminances (frame_idx s) (row s) (col s))
              (lum_at luminances (future_frame s) (row s) (col s))
  then
    let counted := increment (num_flashes s) (row s) (col s) in
    if (Z.of_nat (future_frame s) <? Z.of_nat num_frames - 1)%Z
    then inr (mkScan (future_frame s) (future_frame s + 1) 0 0 counted)
    else inl (np_max counted)
  else inr s.

(** Pass 2, "Detect luminance changes". *)
Definition detect_changes (luminances : list (list (list (option Q))))
    (num_frames sections : nat) : Z :=
  let start := mkScan 0 0 0 0 (replicate sections (replicate sections 0%Z)) in
  let final :=
    for_return (range num_frames) (λ i s,
      let s := mkScan i (future_frame s) (row s) (col s) (num_flashes s) in
      for_return (seq (frame_idx s + 1) (num_frames - (frame_idx s + 1))) (λ j s,
        let s := mkScan (frame_idx s) j (row s) (col s) (num_flashes s) in
        for_return (range sections) (λ r s,
          let s := mkScan (frame_idx s) (future_frame s) r (col s) (num_flashes s) in
          for_return (range sections) (check_tile luminances num_frames) s) s) s)
      start in
  match final with
  | inl v => v
  | inr s => np_max (num_flashes s)
  end.

(** [process_dangerous] after the call of [calc_viewport]. *)
Definition process_dangerous_from (square_length : Z) (dangerous : Array)
  : Result Z :=
  let num_frames := length (frames dangerous) in
  a ←? py_floordiv (height dangerous) square_length;
  b ←? py_floordiv (width dangerous) square_length;
  let sections := Z.max a b in
  segment_height ←? py_floordiv (height dangerous) sections;
  segment_width ←? py_floordiv (width dangerous) sections;
  if (sections <? 0)%Z then Err NegativeDimensions
  else
    let luminances := precalculate dangerous sections segment_height segment_width in
    Ok (detect_changes luminances num_frames (Z.to_nat sections)).

Definition screen_size : R := (15 * 2.54)%R.
Definition view_distance : R := (26 * 2.54)%R.
Definition viewport_angle : R := 10%R.

(** [process_dangerous(dangerous, frame_rate)]; the frame rate is not
    used. *)
Definition process_dangerous (dangerous : Array) (frame_rate : Z) : Result Z :=
  let square_length :=
    (RegionShape.calc_viewport (height dangerous, width dangerous)
       screen_size view_distance viewport_angle).2 in
  process_dangerous_from square_length dangerous.

(** *** Pass 2 as the specification words it

    "For each ordered pair of frame indices (i, j) with i < j, and each
    tile (r, c): if the test holds, count[r, c] += 1; advance i to j,
    reset j to i+1, and restart the tile scan."  One step of that scan,
    on the position [(i, j, r, c)]. *)
Record spec_scan : Type := mkSpecScan {
  sp_i : nat; sp_j : nat; sp_r : nat; sp_c : nat;
  sp_count : list (list Z)
}.

Definition spec_step (luminances : list (list (list (option Q))))
    (num_frames sections : nat) (s : spec_scan) : option spec_scan :=
  if bool_decide (num_frames ≤ sp_i s) then None
  else if bool_decide (num_frames ≤ sp_j s)
  then Some (mkSpecScan (sp_i s + 1) (sp_i s + 2) 0 0 (sp_count s))
  else if bool_decide (sections ≤ sp_r s)
  then Some (mkSpecScan (sp_i s) (sp_j s + 1) 0 0 (sp_count s))
  else if bool_decide (sections ≤ sp_c s)
  then Some (mkSpecScan (sp_i s) (sp_j s) (sp_r s + 1) 0 (sp_count s))
  else if opposing (lum_at luminances (sp_i s) (sp_r s) (sp_c s))
                   (lum_at luminances (sp_j s) (sp_r s) (sp_c s))
  then Some (mkSpecScan (sp_j s) (sp_j s + 1) 0 0
               (increment (sp_count s) (sp_r s) (sp_c s)))
  else Some (mkSpecScan (sp_i s) (sp_j s) (sp_r s) (sp_c s + 1) (sp_count s)).

(** The scan run to its end; [None] when the fuel does not suffice. *)
Fixpoint spec_run (fuel : nat) (luminances : list (list (list (option Q))))
    (num_frames sections : nat) (s : spec_scan) : option Z :=
  match fuel with
  | O => None
  | S fuel' =>
      match spec_step luminances num_frames sections s with
      | None => Some (np_max (sp_count s))
      | Some s' => spec_run fuel' luminances num_frames sections s'
      end
  end.

Definition detect_changes_spec (fuel : nat)
    (luminances : list (list (list (option Q))))
    (num_frames sections : nat) : option Z :=
  spec_run fuel luminances num_frames sections
    (mkSpecScan 0 1 0 0 (replicate sections (replicate sections 0%Z))).

End Danger.

(** * flashdetector.py *)

Module Detector.

(** A frame delivered by [cap.read()], in BGR order, together with the
    value [cv2.cvtColor(frame, cv2.COLOR_BGR2HLS)] takes on it (OpenCV is
    not part of the repository).  Both arrays have the shape announced by
    the capture. *)
Record Frame : Type := mkFrame {
  bgr : list (list (Z * Z * Z));
  hls : Danger.hls_frame
}.

(** An opened [cv2.VideoCapture]: [isOpened()], the four properties read
    by [detect_flashes] after [int(...)], and the frames [read()] will
    deliver. *)
Record VideoCapture : Type := mkCapture {
  is_opened : bool;
  CAP_PROP_FRAME_HEIGHT : Z;
  CAP_PROP_FRAME_WIDTH : Z;
  CAP_PROP_FRAME_COUNT : Z;
  CAP_PROP_FPS : Z;
  video : list Frame
}.

Definition skip_enabled : Z := 1.
Definition hertz : Z := 3.

(** [u, v, rperc] of one pixel. *)
Definition chromaticity_of (p : Z * Z * Z) : RedFSM.sample :=
  let '(blue, green, red) := p in
  let r := inject_Z red in
  let g := inject_Z green in
  let b := inject_Z blue in
  let X := ((4124564 # 10000000) * r + (3575761 # 10000000) * g
            + (1804375 # 10000000) * b)%Q in
  let Y := ((2126729 # 10000000) * r + (7151522 # 10000000) * g
            + (721750 # 10000000) * b)%Q in
  let Z' := ((193339 # 10000000) * r + (1191920 # 10000000) * g
            + (9503041 # 10000000) * b)%Q in
  let d := (X + 15 * Y + 3 * Z')%Q in
  let d := if Qeq_bool d 0 then 134217728%Q else d in
  let cTotal := (red + green + blue)%Z in
  let cTotal := if (cTotal =? 0)%Z then 134217728%Z else cTotal in
  ((4 * X / d)%Q, (9 * Y / d)%Q, (r / inject_Z cTotal)%Q).

Definition chromacityRerc (f : Frame) : RedFSM.chroma_frame :=
  map (map chromaticity_of) (bgr f).

(** [deque(maxlen=m).append(x)] *)
Definition deque_append {X : Type} (m : Z) (d : list X) (x : X) : list X :=
  if (m =? 0)%Z then d
  else if (Z.of_nat (length d) =? m)%Z then drop 1 d ++ [x]
  else d ++ [x].

(** [deque.popleft()] *)
Definition popleft {X : Type} (d : list X) : Result (list X) :=
  match d with
  | [] => Err IndexError
  | _ :: d' => Ok d'
  end.

(** The variables the main loop updates. *)
Record loop_state : Type := mkLoop {
  frame_buffer : list Danger.hls_frame;
  frame_buffer_red : RedFSM.Buffer;
  frame_counter : Z;
  start_danger : Z;
  timestamps : list (Q * Q)
}.

(** The result of a run, with the number of calls of [cap.read()] made
    before it ended. *)
Record Outcome (X : Type) : Type := mkOutcome {
  reads : nat;
  result : Result X
}.
Arguments mkOutcome {X} reads result.
Arguments reads {X} o.
Arguments result {X} o.

Section Loop.

(** The luminance analyzer the loop calls; [detect_flashes] calls
    [Danger.process_dangerous]. *)
Variable analyze : Danger.Array → Z → Result Z.

Variable cap : VideoCapture.
Variable frames_per_second : Z.

Let frame_rate := CAP_PROP_FPS cap.

(** [print(f"progress: ...")], every 60 frames. *)
Definition progress (st : loop_state) : Result unit :=
  if (frame_counter st mod 60 =? 0)%Z
  then _ ←? py_truediv (100 * frame_counter st) (CAP_PROP_FRAME_COUNT cap); Ok ()
  else Ok ().

(** The loop body after [if not ret: ... break]. *)
Definition process_frame (f : Frame) (st : loop_state) : Result loop_state :=
  red ←? RedFSM.add_frame (frame_buffer_red st) (chromacityRerc f);
  let fb := deque_append frames_per_second (frame_buffer st) (hls f) in
  if (Z.of_nat (length fb) =? frames_per_second)%Z
  then
    let dangerous :=
      Danger.mkArray (CAP_PROP_FRAME_HEIGHT cap) (CAP_PROP_FRAME_WIDTH cap) fb in
    flashes ←? analyze dangerous frame_rate;
    let start1 :=
      if (hertz <=? flashes)%Z && (start_danger st =? -1)%Z
      then frame_counter st else start_danger st in
    '(stamps, start2) ←?
      (if (flashes <? hertz)%Z
       then if (0 <=? start1)%Z
            then a ←? py_truediv start1 frame_rate;
                 b ←? py_truediv (frame_counter st) frame_rate;
                 Ok (timestamps st ++ [(inject_Z (skip_enabled * 2) + a, b)%Q],
                     (-1)%Z)
            else Ok (timestamps st, start1)
       else Ok (timestamps st, start1));
    fb' ←? (if negb (skip_enabled =? 0)%Z && (flashes =? 0)%Z
            then Ok [] else popleft fb);
    Ok (mkLoop fb' red (frame_counter st + 1) start2 stamps)
  else
    Ok (mkLoop fb red (frame_counter st + 1) (start_danger st) (timestamps st)).

(** [while cap.isOpened(): ret, frame = cap.read() ...] on the frames still
    to be delivered. *)
Fixpoint run (stream : list Frame) (st : loop_state) (nreads : nat)
  : Outcome loop_state :=
  match stream with
  | [] =>
      mkOutcome (S nreads)
        (_ ←? progress st;
         _ ←? py_truediv (frame_counter st) frames_per_second;
         Ok st)
  | f :: rest =>
      match (_ ←? progress st; process_frame f st) with
      | Ok st' => run rest st' (S nreads)
      | Err e => mkOutcome (S nreads) (Err e)
      end
  end.

End Loop.

(** [timestamps.remove(x)]: drops the first interval equal to [x]. *)
Definition interval_eqb (a b : Q * Q) : bool :=
  Qeq_bool a.1 b.1 && Qeq_bool a.2 b.2.

Fixpoint list_remove (x : Q * Q) (l : list (Q * Q)) : list (Q * Q) :=
  match l with
  | [] => []
  | y :: l' => if interval_eqb y x then l' else y :: list_remove x l'
  end.

(** The merging loop; every iteration either removes an interval or moves
    [idx] forward, so [length stamps] iterations suffice. *)
Fixpoint merge_loop (fuel : nat) (i : nat) (stamps : list (Q * Q))
  : list (Q * Q) :=
  match fuel with
  | O => stamps
  | S fuel' =>
      match stamps !! i, stamps !! (i + 1) with
      | Some stamp, Some next =>
          if Qltb (Qabs' (stamp.2 - next.1)) 3
          then merge_loop fuel' i
                 (list_remove next (<[i := (stamp.1, next.2)]> stamps))
          else merge_loop fuel' (i + 1) stamps
      | _, _ => stamps
      end
  end.

Definition merge (stamps : list (Q * Q)) : list (Q * Q) :=
  merge_loop (length stamps) 0 stamps.

(** [frames_per_second = int(frame_rate * speed)], the window size. *)
Definition window_size (frame_rate : Z) (speed : Q) : Z :=
  py_int (inject_Z frame_rate * speed).

(** The loop with an arbitrary analyzer, from the speed test to the merge. *)
Definition detect_flashes_with (analyze : Danger.Array → Z → Result Z)
    (cap : VideoCapture) (speed : Q) : Outcome (list (Q * Q)) :=
  if Qltb 5 speed || Qltb speed (2 # 10)
  then mkOutcome 0 (Err InvalidSpeed)
  else
    let frame_height := CAP_PROP_FRAME_HEIGHT cap in
    let frame_width := CAP_PROP_FRAME_WIDTH cap in
    let frame_rate := CAP_PROP_FPS cap in
    let frames_per_second := window_size frame_rate speed in
    if (frames_per_second <? 0)%Z || (frame_height <? 0)%Z || (frame_width <? 0)%Z
    then mkOutcome 0 (Err NegativeDimensions)
    else
      let start :=
        mkLoop [] (RedFSM.Buffer_init 4 4 frame_rate) 0 (-1) [] in
      let out :=
        if is_opened cap
        then run analyze cap frames_per_second (video cap) start 0
        else mkOutcome 0 (Ok start) in
      mkOutcome (reads out) (st ←? result out; Ok (merge (timestamps st))).

(** [detect_flashes(video_path, speed)], on the capture opened from
    [video_path]. *)
Definition detect_flashes (cap : VideoCapture) (speed : Q)
  : Outcome (list (Q * Q)) :=
  detect_flashes_with Danger.process_dangerous cap speed.

End Detector.

(** * Vocabulary of the properties

    ** The red-flash buffer *)

Module BufferSpec.
Import RedFSM.

(** The regions of an [size] x [size] grid, in the order the two loops of
    [add_frame] and [remove_frame] visit them. *)
Definition grid (size : nat) : list (nat * nat) :=
  i ← range size; j ← range size; [(i, j)].

(** The name of the start state seeded for a sample. *)
Definition start_name (red_percentage : Q) : state_name :=
  if Qle_bool MAX_RED_PERCENTAGE red_percentage then B else A.

(** Every state of the set has an origin satisfying [P]. *)
Definition origins_in (P : Z → Prop) (ss : state_set) : Prop :=
  ∀ (nm : state_name) (i : Z), is_Some (ss !! (nm, i)) → P i.

(** The state set of the region at [p] right after its FSM step. *)
Definition step_region (i : Z) (frame : chroma_frame)
    (rs : gmap (nat * nat) state_set) (p : nat * nat) : option state_set :=
  match rs !! p, index2 frame p.1 p.2 with
  | Some ss, Ok (u, v, r) => Some (state_machine i ss (u, v) r)
  | _, _ => None
  end.

Definition stepped (b : Buffer) (frame : chroma_frame) (p : nat * nat)
  : option state_set :=
  step_region (buf_idx b) frame (regions b) p.

(** The pair [add_frame] appends for the region at [p]. *)
Definition flash_stamp (fr : Z) (p : nat * nat) : Q * Q :=
  ((inject_Z (Z.of_nat p.1) / inject_Z fr)%Q,
   (inject_Z (Z.of_nat p.2) / inject_Z fr)%Q).

(** The test [flash_idx != -1] of [add_frame]. *)
Definition flashed (ss : option state_set) : bool :=
  match ss with
  | Some ss => bool_decide (flash_idx ss ≠ (-1)%Z)
  | None => false
  end.

Definition new_stamps (b : Buffer) (frame : chroma_frame)
    (ps : list (nat * nat)) : list (Q * Q) :=
  map (flash_stamp (frame_rate b))
      (List.filter (λ p, flashed (stepped b frame p)) ps).

(** The body of the two loops of [remove_frame]. *)
Definition evict_body (out : Z) (i j : nat)
    (rs : gmap (nat * nat) state_set) : Result (gmap (nat * nat) state_set) :=
  ss ←? region_at rs i j; Ok (<[(i, j) := remove_states out ss]> rs).

(** What the end of [add_frame] leaves of a state set once the buffer index
    is [i]. *)
Definition evict (i nf : Z) (ss : state_set) : state_set :=
  if (0 <=? i - nf)%Z then remove_states (i - nf) ss else ss.

(** The state set holds a state named [E]. *)
Definition has_E (ss : state_set) : Prop :=
  Exists (λ st : state_id * ChromaticityChecker, st.1.1 = E) (map_to_list ss).

(** The region at [p] holds a state named [E] after its FSM step. *)
Definition region_reached_E (b : Buffer) (frame : chroma_frame)
    (p : nat * nat) : Prop :=
  match stepped b frame p with
  | Some ss => has_E ss
  | None => False
  end.

Global Instance region_reached_E_dec b frame p :
  Decision (region_reached_E b frame p).
Proof. unfold region_reached_E, has_E. destruct (stepped b frame p); apply _. Defined.

(** Well-formed buffers: the index counts the frames added, every region
    of the grid exists, and every state originates at a frame added before. *)
Definition wf_buffer (b : Buffer) : Prop :=
  (0 ≤ buf_idx b)%Z
  ∧ ∀ p, p ∈ grid (n b) →
      ∃ ss, regions b !! p = Some ss
            ∧ origins_in (λ k, (0 ≤ k < buf_idx b)%Z) ss.

(** The frame has a sample for every region of a [size] x [size] grid. *)
Definition frame_covers (size : nat) (frame : chroma_frame) : Prop :=
  ∀ i j, i < size → j < size → ∃ smp, index2 frame i j = Ok smp.

(** After the admission of [frame], every region of the grid holds its
    stepped states without those of origin [origin], and no other state is
    missing. *)
Definition evicted_exactly (b : Buffer) (frame : chroma_frame) (b' : Buffer)
    (origin : Z) : Prop :=
  ∀ p ss, p ∈ grid (n b) → stepped b frame p = Some ss →
    ∃ ss', regions b' !! p = Some ss'
           ∧ ∀ (nm : state_name) (k : Z),
               ss' !! (nm, k) = if decide (k = origin) then None else ss !! (nm, k).

(** [for frame in frames: b.add_frame(frame)] *)
Definition add_frames (frames : list chroma_frame) (b : Buffer) : Result Buffer :=
  for_each frames (λ frame b, add_frame b frame) b.

Definition get_buffer (r : Result Buffer) : Buffer :=
  match r with
  | Ok b => b
  | Err _ => Buffer_init 0 0 0
  end.

(** *** Sample inputs *)

(** A frame of one region. *)
Definition frame1 (u v r : Q) : chroma_frame := [[(u, v, r)]].

(** A frame whose sixteen regions see the same sample. *)
Definition uniform_frame (u v r : Q) : chroma_frame :=
  replicate 4 (replicate 4 (u, v, r)).

(** A window of two frames over one region, after three frames that
    alternate between two distant colours; and the fourth frame. *)
Definition ex_b3 : Buffer :=
  get_buffer (add_frames [frame1 0 0 0; frame1 1 0 0; frame1 0 0 0]
                        (Buffer_init 2 1 30)).
Definition ex_f3 : chroma_frame := frame1 1 0 0.
Definition ex_b4 : Buffer := get_buffer (add_frame ex_b3 ex_f3).

(** The buffer of [detect_flashes] after one dark frame. *)
Definition ex_idle : Buffer :=
  get_buffer (add_frame (Buffer_init 4 4 30) (uniform_frame 0 0 0)).

(** The buffer of [detect_flashes] after a dark and a saturated red frame. *)
Definition ex_red : Buffer :=
  get_buffer (add_frames [uniform_frame 0 0 0; uniform_frame 1 0 1]
                        (Buffer_init 4 4 30)).

End BufferSpec.

(** ** The luminance analyzer *)

Module DangerSpec.
Import Danger.

(** The tile side [process_dangerous] obtains from [calc_viewport]. *)
Definition default_side (H W : Z) : Z :=
  RegionShape.square_side H W screen_size view_distance viewport_angle.

(** *** Sample inputs *)

(** A frame of 4 x 4 pixels of lightness [l]. *)
Definition gray_frame (l : Z) : hls_frame := replicate 4 (replicate 4 (0, l, 0)%Z).

(** A window of four frames: light, dark, light, light. *)
Definition ex_window : Array := mkArray 4 4 (map gray_frame [255; 0; 255; 255]%Z).

End DangerSpec.

(** ** The orchestrator *)

Module DetectorSpec.
Import Detector.

(** The merging loop as a recursion on the intervals that follow the
    current one. *)
Fixpoint fuse (stamp : Q * Q) (rest : list (Q * Q)) : list (Q * Q) :=
  match rest with
  | [] => [stamp]
  | next :: rest' =>
      if Qltb (Qabs' (stamp.2 - next.1)) 3
      then fuse (stamp.1, next.2) rest'
      else stamp :: fuse next rest'
  end.

(** Intervals as the main loop emits them: every start is less than two
    seconds after its end, and the next start more than two seconds after
    the end. *)
Inductive spaced : list (Q * Q) → Prop :=
| spaced_nil : spaced []
| spaced_one a : (a.1 < a.2 + 2)%Q → spaced [a]
| spaced_cons a b l :
    (a.1 < a.2 + 2)%Q → (a.2 + 2 < b.1)%Q → spaced (b :: l) →
    spaced (a :: b :: l).

(** Consecutive intervals are at least [gap] seconds apart:
    [intervals[k].end + gap <= intervals[k+1].start]. *)
Definition separated (gap : Q) (l : list (Q * Q)) : Prop :=
  ∀ (k : nat) (a b : Q * Q),
    l !! k = Some a → l !! (k + 1) = Some b → (a.2 + gap <= b.1)%Q.

Inductive apart (gap : Q) : list (Q * Q) → Prop :=
| apart_nil : apart gap []
| apart_one a : apart gap [a]
| apart_cons a b l :
    (a.2 + gap <= b.1)%Q → apart gap (b :: l) → apart gap (a :: b :: l).

(** The frame before which every emitted interval ends. *)
Definition limit (st : loop_state) : Z :=
  if (start_danger st =? -1)%Z then frame_counter st else start_danger st.

(** The invariant of the main loop. *)
Definition loop_inv (fps : Z) (st : loop_state) : Prop :=
  (0 ≤ frame_counter st)%Z
  ∧ (start_danger st = (-1)%Z ∨ (0 ≤ start_danger st < frame_counter st)%Z)
  ∧ spaced (timestamps st)
  ∧ Forall (λ a, (a.2 < inject_Z (limit st) / inject_Z fps)%Q) (timestamps st).

(** The result is not the exception of the speed test. *)
Definition speed_free {X : Type} (r : Result X) : Prop := r ≠ Err InvalidSpeed.

(** An analyzer that refuses every window whose length is not [W]. *)
Definition guarded (W : Z) (an : Danger.Array → Z → Result Z)
    (a : Danger.Array) (fr : Z) : Result Z :=
  if (Z.of_nat (length (Danger.frames a)) =? W)%Z then an a fr else Err IndexError.

(** *** Sample inputs *)

(** A white and a black frame of 4 x 4 pixels, with their HLS values. *)
Definition white : Frame :=
  mkFrame (replicate 4 (replicate 4 (255, 255, 255)%Z))
          (replicate 4 (replicate 4 (0, 255, 0)%Z)).
Definition black : Frame :=
  mkFrame (replicate 4 (replicate 4 (0, 0, 0)%Z))
          (replicate 4 (replicate 4 (0, 0, 0)%Z)).

(** Six frames at 4 frames per second: two flashes, then white. *)
Definition ex_cap : VideoCapture :=
  mkCapture true 4 4 6 4 [black; white; black; white; white; white].

End DetectorSpec.

(** ** Vocabulary of the further properties *)

Module FSMExtra.
Import RedFSM BufferSpec.

(** The keys [propagate] updates or adds for one state, in the order of
    the source. *)
Definition successors (c : coord) (r : Q)
    (st : state_id * ChromaticityChecker) : list state_id :=
  let '((nm, i), ck0) := st in
  let ck := push ck0 c in
  match nm with
  | A => (if should_transition ck c r true then [(C, i)] else [])
         ++ (if should_transition ck c r false then [(D, i)] else [])
  | B => if should_transition ck c r false then [(C, i)] else []
  | C => if should_transition ck c r false then [(E, i)] else []
  | D => if should_transition ck c r true then [(E, i)] else []
  | E => []
  end.

(** [update_or_add_state(State(name, c, idx), changed, c)] on the key
    [(name, idx)]. *)
Definition bump (c : coord) (m : state_set) (k : state_id) : state_set :=
  update_or_add_state (State_init k.1 c k.2) m c.

(** The number of occurrences of a key. *)
Definition occurrences (k : state_id) (ks : list state_id) : nat :=
  length (filter (λ k', k' = k) ks).

(** One step of the machine on the transition graph of the FSM. *)
Definition next_name (a b : state_name) : Prop :=
  match a, b with
  | A, C | A, D | B, C | C, E | D, E => True
  | _, _ => False
  end.

(** Frames between the origin of a state and the buffer index. *)
Definition age (nm : state_name) : Z :=
  match nm with
  | A | B => 1
  | C | D => 2
  | E => 3
  end.

(** The red percentage is that of a saturated red. *)
Definition saturated (r : Q) : bool := Qle_bool MAX_RED_PERCENTAGE r.

(** The buffers a program can build: [Buffer(nf, size, fr)] and what
    [add_frame] makes of them. *)
Inductive reachable (nf : Z) (size : nat) (fr : Z) : Buffer → Prop :=
| reachable_init : reachable nf size fr (Buffer_init nf size fr)
| reachable_add b frame b' :
    reachable nf size fr b → add_frame b frame = Ok b' →
    reachable nf size fr b'.

End FSMExtra.

Module DangerExtra.
Import Danger.

(** No tile has an opposing pair of frames [i < j] among the first
    [num_frames] frames. *)
Definition quiet (luminances : list (list (list (option Q))))
    (num_frames sections : nat) : Prop :=
  ∀ i j r c, i < j → j < num_frames → r < sections → c < sections →
    opposing (lum_at luminances i r c) (lum_at luminances j r c) = false.

(** The outcome of a loop of pass 2 has counted a flash. *)
Definition counted (o : Z + scan) : Prop :=
  match o with
  | inl v => (1 ≤ v)%Z
  | inr s => (1 ≤ np_max (num_flashes s))%Z
  end.

(** Every pixel of the frame has a lightness between [lo] and [hi]. *)
Definition lightness_in (lo hi : Z) (frame : hls_frame) : Prop :=
  Forall (Forall (λ p : pixel, (lo ≤ p.1.2 ≤ hi)%Z)) frame.

End DangerExtra.

Module DetectorExtra.
Import Detector.

(** The state [detect_flashes] enters its loop with. *)
Definition start_state (cap : VideoCapture) : loop_state :=
  mkLoop [] (RedFSM.Buffer_init 4 4 (CAP_PROP_FPS cap)) 0 (-1) [].

(** The lightness channel of an HLS frame. *)
Definition lightness (frame : Danger.hls_frame) : list (list Z) :=
  map (map (λ p : Danger.pixel, p.1.2)) frame.

(** Two captures with the same properties whose frames agree on the
    lightness channel; hue, saturation and the BGR data may differ. *)
Definition same_lightness (cap cap' : VideoCapture) : Prop :=
  is_opened cap = is_opened cap'
  ∧ CAP_PROP_FRAME_HEIGHT cap = CAP_PROP_FRAME_HEIGHT cap'
  ∧ CAP_PROP_FRAME_WIDTH cap = CAP_PROP_FRAME_WIDTH cap'
  ∧ CAP_PROP_FRAME_COUNT cap = CAP_PROP_FRAME_COUNT cap'
  ∧ CAP_PROP_FPS cap = CAP_PROP_FPS cap'
  ∧ map (λ f, lightness (hls f)) (video cap)
    = map (λ f, lightness (hls f)) (video cap').

(** *** Sample inputs *)

(** A gray frame of 4 x 4 pixels, and a frame of saturated red, with
    their HLS values. *)
Definition gray (l : Z) : Frame :=
  mkFrame (replicate 4 (replicate 4 (l, l, l)))
          (replicate 4 (replicate 4 (0, l, 0)%Z)).
Definition red : Frame :=
  mkFrame (replicate 4 (replicate 4 (0, 0, 255)%Z))
          (replicate 4 (replicate 4 (0, 128, 255)%Z)).

(** Five frames that alternate between two grays. *)
Definition ex_dim : VideoCapture :=
  mkCapture true 4 4 5 4 (map gray [100; 200; 100; 200; 100]%Z).

(** Two flashes and a rest, in gray and in saturated red. *)
Definition ex_gray_flash : VideoCapture :=
  mkCapture true 4 4 6 4
    [DetectorSpec.black; gray 128; DetectorSpec.black; gray 128; gray 128; gray 128].
Definition ex_red_flash : VideoCapture :=
  mkCapture true 4 4 6 4
    [DetectorSpec.black; red; DetectorSpec.black; red; red; red].

End DetectorExtra.


(** * Properties of the red-flash buffer *)

Section RedFSM_facts.
Import RedFSM BufferSpec.

(** ** The keys of the state set after a step *)

Lemma lookup_update_or_add (s : State) (ss : state_set) c k :
  is_Some (update_or_add_state s ss c !! k) ↔ k = id_of s ∨ is_Some (ss !! k).
Proof.
  unfold update_or_add_state.
  destruct (ss !! id_of s) as [ck|] eqn:Hs.
  - rewrite lookup_insert_is_Some. split.
    + intros [->|[_ ?]]; auto.
    + intros [->|?]; [by left|].
      destruct (decide (id_of s = k)); [by left|by right].
  - rewrite lookup_insert_is_Some. split.
    + intros [->|[_ ?]]; auto.
    + intros [->|?]; [by left|].
      destruct (decide (id_of s = k)); [by left|by right].
Qed.

Lemma propagate_keys c r changed nm i ck k :
  is_Some (propagate c r changed ((nm, i), ck) !! k) →
  is_Some (changed !! k) ∨ (k.2 = i ∧ k.1 ≠ A ∧ k.1 ≠ B).
Proof.
  unfold propagate.
  destruct nm;
    repeat match goal with
    | |- context [if ?b then _ else _] => destruct b
    end;
    rewrite ?lookup_update_or_add; unfold id_of; simpl;
    intros H; repeat (destruct H as [H|H]); subst; simpl; auto.
Qed.

Lemma foldl_propagate_keys c r (l : list (state_id * ChromaticityChecker)) changed k :
  is_Some (foldl (propagate c r) changed l !! k) →
  is_Some (changed !! k)
  ∨ (k.1 ≠ A ∧ k.1 ≠ B ∧ ∃ nm ck, ((nm, k.2), ck) ∈ l).
Proof.
  revert changed. induction l as [|[[nm i] ck] l IH]; intros changed; simpl.
  - auto.
  - intros H. apply IH in H as [H|(? & ? & nm' & ck' & Hin)].
    + apply propagate_keys in H as [H|(<- & ? & ?)]; [by left|].
      right. split_and!; [done..|]. exists nm, ck. left.
    + right. split_and!; [done..|]. exists nm', ck'. by right.
Qed.

Lemma changed_keys states c r k :
  is_Some (foldl (propagate c r) ∅ (map_to_list states) !! k) →
  k.1 ≠ A ∧ k.1 ≠ B ∧ ∃ nm, is_Some (states !! (nm, k.2)).
Proof.
  intros H. apply foldl_propagate_keys in H as [H|(? & ? & nm & ck & Hin)].
  - rewrite lookup_empty in H. by destruct H.
  - split_and!; [done..|]. exists nm. apply elem_of_map_to_list in Hin. eauto.
Qed.

Lemma add_start_state_lookup (c : coord) (r : Q) (i : Z) (ss : state_set)
    (k : state_id) :
  ss !! (start_name r, i) = None →
  add_start_state c r i ss !! k =
    if decide (k = (start_name r, i)) then Some [c] else ss !! k.
Proof.
  intros Hfresh. unfold add_start_state, start_name in *.
  destruct (Qle_bool MAX_RED_PERCENTAGE r); unfold set_add, State_init, id_of;
    cbn [name idx chromaticity_checker]. all: rewrite Hfresh; case_decide; subst;
    by rewrite ?lookup_insert_eq, ?lookup_insert_ne.
Qed.

Lemma start_name_cases r : start_name r = A ∨ start_name r = B.
Proof. unfold start_name. destruct (Qle_bool _ _); auto. Qed.

Lemma changed_fresh (states : state_set) (c : coord) (r : Q) (i : Z) :
  foldl (propagate c r) ∅ (map_to_list states) !! (start_name r, i) = None.
Proof.
  apply eq_None_not_Some. intros H.
  apply changed_keys in H as (HA & HB & _). simpl in *.
  destruct (start_name_cases r); congruence.
Qed.

Lemma state_machine_lookup (i : Z) (states : state_set) (c : coord) (r : Q)
    (k : state_id) :
  state_machine i states c r !! k =
    if decide (k = (start_name r, i)) then Some [c]
    else foldl (propagate c r) ∅ (map_to_list states) !! k.
Proof.
  unfold state_machine. apply add_start_state_lookup, changed_fresh.
Qed.

Lemma state_machine_keys (i : Z) (states : state_set) (c : coord) (r : Q)
    (k : state_id) :
  is_Some (state_machine i states c r !! k) →
  k = (start_name r, i)
  ∨ (k.1 ≠ A ∧ k.1 ≠ B ∧ ∃ nm, is_Some (states !! (nm, k.2))).
Proof.
  rewrite state_machine_lookup. case_decide; [by left|].
  intros Hk. right. by apply changed_keys in Hk.
Qed.

Lemma state_machine_origins (P : Z → Prop) (i : Z) (states : state_set)
    (c : coord) (r : Q) :
  P i → origins_in P states → origins_in P (state_machine i states c r).
Proof.
  intros Hi Hst nm k H.
  apply state_machine_keys in H as [[= -> ->]|(_ & _ & nm' & H)]; [done|].
  by apply (Hst nm').
Qed.

(** ** The loops over the grid *)

Lemma bind_Ok {X Y : Type} (m : Result X) (k : X → Result Y) (y : Y) :
  bind m k = Ok y ↔ ∃ x, m = Ok x ∧ k x = Ok y.
Proof.
  destruct m as [x|e]; simpl; split.
  - eauto.
  - by intros (? & [= ->] & ?).
  - done.
  - by intros (? & ? & ?).
Qed.

Lemma for_each_app {S X : Type} (xs ys : list X) (body : X → S → Result S) s :
  for_each (xs ++ ys) body s = bind (for_each xs body s) (for_each ys body).
Proof.
  revert s. induction xs as [|x xs IH]; intros s; simpl; [done|].
  destruct (body x s); simpl; auto.
Qed.

Lemma for_each_nested {S X Y : Type} (xs : list X) (ys : list Y)
    (body : X → Y → S → Result S) s :
  for_each xs (λ i acc, for_each ys (λ j acc, body i j acc) acc) s =
  for_each (i ← xs; j ← ys; [(i, j)]) (λ p acc, body p.1 p.2 acc) s.
Proof.
  revert s. induction xs as [|x xs IH]; intros s; simpl; [done|].
  rewrite for_each_app.
  assert (for_each (ys ≫= λ j, [(x, j)]) (λ p acc, body p.1 p.2 acc) s
          = for_each ys (λ j acc, body x j acc) s) as ->.
  { clear. revert s. induction ys as [|y ys IH]; intros s; simpl; [done|].
    destruct (body x y s); simpl; auto. }
  destruct (for_each ys _ s); simpl; auto.
Qed.

Lemma elem_of_grid size i j : (i, j) ∈ grid size ↔ i < size ∧ j < size.
Proof.
  unfold grid, range. rewrite list_elem_of_bind. split.
  - intros (i' & Hj & Hi). apply list_elem_of_bind in Hj as (j' & Hp & Hj).
    apply list_elem_of_singleton in Hp as [= -> ->].
    apply elem_of_seq in Hi, Hj. lia.
  - intros [Hi Hj]. exists i. split; [|apply elem_of_seq; lia].
    apply list_elem_of_bind. exists j. split; [by left|apply elem_of_seq; lia].
Qed.

Lemma NoDup_grid size : NoDup (grid size).
Proof.
  unfold grid, range. apply NoDup_bind.
  - intros i i' p _ _ Hp Hp'.
    apply list_elem_of_bind in Hp as (j & Hp & _).
    apply list_elem_of_bind in Hp' as (j' & Hp' & _).
    apply list_elem_of_singleton in Hp, Hp'. congruence.
  - intros i _. apply NoDup_bind.
    + intros j j' p _ _ Hp Hp'. apply list_elem_of_singleton in Hp, Hp'. congruence.
    + intros j _. apply NoDup_singleton.
    + apply NoDup_seq.
  - apply NoDup_seq.
Qed.

Lemma py_truediv_Ok a b q :
  py_truediv a b = Ok q ↔ b ≠ 0%Z ∧ q = (inject_Z a / inject_Z b)%Q.
Proof.
  unfold py_truediv. destruct (Z.eqb_spec b 0); split.
  - done.
  - by intros [? _].
  - by intros [= <-].
  - by intros [_ ->].
Qed.

Lemma region_body_Ok b frame i j rs st rs1 st1 :
  region_body b frame i j (rs, st) = Ok (rs1, st1) →
  ∃ ss, step_region (buf_idx b) frame rs (i, j) = Some ss
        ∧ rs1 = <[(i, j) := ss]> rs
        ∧ st1 = st ++ (if bool_decide (flash_idx ss ≠ (-1)%Z)
                       then [flash_stamp (frame_rate b) (i, j)] else [])
        ∧ (flash_idx ss ≠ (-1)%Z → frame_rate b ≠ 0%Z).
Proof.
  unfold region_body, step_region, region_at. simpl.
  destruct (index2 frame i j) as [[[u v] r]|]; simpl; [|done].
  destruct (rs !! (i, j)) as [ss|]; simpl; [|done].
  case_bool_decide as Hf.
  - intros (ti & Hti & (tj & Htj & [= <- <-])%bind_Ok)%bind_Ok.
    apply py_truediv_Ok in Hti as [Hfr ->], Htj as [_ ->].
    eexists. split; [reflexivity|].
    rewrite bool_decide_eq_true_2 by done. done.
  - intros [= <- <-]. eexists. split; [reflexivity|].
    rewrite bool_decide_eq_false_2 by (intros Hne; by apply Hne).
    rewrite app_nil_r. split_and!; [done..|]. intros Hne. by destruct Hne.
Qed.

Lemma add_frame_loop b frame ps rs st rs' st' :
  NoDup ps →
  for_each ps (λ p acc, region_body b frame p.1 p.2 acc) (rs, st)
    = Ok (rs', st') →
  (∀ p, p ∈ ps → ∃ ss, step_region (buf_idx b) frame rs p = Some ss
                       ∧ rs' !! p = Some ss)
  ∧ (∀ p, p ∉ ps → rs' !! p = rs !! p)
  ∧ st' = st ++ map (flash_stamp (frame_rate b))
                  (List.filter (λ p, flashed (step_region (buf_idx b) frame rs p)) ps)
  ∧ ((∃ p, p ∈ ps ∧ flashed (step_region (buf_idx b) frame rs p))
     → frame_rate b ≠ 0%Z).
Proof.
  intros Hnd. revert rs st. induction Hnd as [|[i j] ps Hnotin Hnd IH]; intros rs st; simpl.
  - intros [= <- <-]. split_and!.
    + intros p Hp. by apply elem_of_nil in Hp.
    + done.
    + by rewrite app_nil_r.
    + intros (p & Hp & _). by apply elem_of_nil in Hp.
  - intros ([rs1 st1] & Hstep & Hrest)%bind_Ok.
    apply region_body_Ok in Hstep as (ss & Hss & -> & -> & Hfr).
    apply IH in Hrest as (Hin & Hout & -> & Hfr').
    assert (Hsame : ∀ p, p ∈ ps →
              step_region (buf_idx b) frame (<[(i, j):=ss]> rs) p
              = step_region (buf_idx b) frame rs p).
    { intros p Hp. unfold step_region. rewrite lookup_insert_ne; [done|].
      intros <-. done. }
    assert (Hfilter :
      List.filter (λ p, flashed (step_region (buf_idx b) frame (<[(i, j):=ss]> rs) p)) ps
      = List.filter (λ p, flashed (step_region (buf_idx b) frame rs p)) ps).
    { clear -Hsame. induction ps as [|p ps IHps]; simpl; [done|].
      rewrite Hsame by left. rewrite IHps; [done|].
      intros q Hq. apply Hsame. by right. }
    split_and!.
    + intros p [->|Hp]%elem_of_cons.
      * exists ss. split; [done|]. rewrite Hout by done. apply lookup_insert_eq.
      * destruct (Hin p Hp) as (ss' & Hs & Hl). exists ss'. by rewrite <- Hsame.
    + intros p Hp. apply not_elem_of_cons in Hp as [Hne Hp].
      rewrite Hout by done. by apply lookup_insert_ne.
    + rewrite Hfilter, Hss. simpl. case_bool_decide; simpl.
      * by rewrite <- app_assoc.
      * by rewrite app_nil_r.
    + intros (p & [->|Hp]%elem_of_cons & Hflash).
      * rewrite Hss in Hflash. simpl in Hflash.
        apply Hfr. by apply bool_decide_unpack in Hflash.
      * apply Hfr'. exists p. split; [done|]. by rewrite Hsame.
Qed.

Lemma region_body_total b frame i j rs st :
  is_Some (step_region (buf_idx b) frame rs (i, j)) →
  frame_rate b ≠ 0%Z →
  ∃ ss st1, region_body b frame i j (rs, st) = Ok (<[(i, j) := ss]> rs, st1).
Proof.
  intros [ss Hss] Hfr. unfold region_body, region_at.
  unfold step_region in Hss. simpl in *.
  destruct (rs !! (i, j)) as [ss0|] eqn:Hrs; [|done].
  destruct (index2 frame i j) as [[[u v] r]|]; [|done]. simpl.
  unfold py_truediv. destruct (Z.eqb_spec (frame_rate b) 0); [done|].
  case_bool_decide; simpl; eauto.
Qed.

Lemma add_frame_loop_total b frame ps rs st :
  NoDup ps →
  (∀ p, p ∈ ps → is_Some (step_region (buf_idx b) frame rs p)) →
  frame_rate b ≠ 0%Z →
  ∃ acc, for_each ps (λ p acc, region_body b frame p.1 p.2 acc) (rs, st) = Ok acc.
Proof.
  intros Hnd Hall Hfr. revert rs st Hall.
  induction Hnd as [|[i j] ps Hnotin Hnd IH]; intros rs st Hall;
    cbn [for_each]; [eauto|].
  destruct (region_body_total b frame i j rs st) as (ss & st1 & Hstep);
    [apply Hall; left|done|].
  cbn [fst snd]. rewrite Hstep. cbn [bind]. apply IH.
  intros p Hp. destruct (Hall p) as [ss' Hss']; [by right|].
  unfold step_region in *. rewrite lookup_insert_ne; [by eauto|].
  by intros <-.
Qed.

Lemma remove_loop (out : Z) (ps : list (nat * nat))
    (rs rs' : gmap (nat * nat) state_set) :
  NoDup ps →
  for_each ps (λ p acc, evict_body out p.1 p.2 acc) rs = Ok rs' →
  (∀ p, p ∈ ps → ∃ ss, rs !! p = Some ss ∧ rs' !! p = Some (remove_states out ss))
  ∧ (∀ p, p ∉ ps → rs' !! p = rs !! p).
Proof.
  intros Hnd. revert rs. induction Hnd as [|[i j] ps Hnotin Hnd IH]; intros rs; simpl.
  - intros [= <-]. split; [|done]. intros p Hp. by apply elem_of_nil in Hp.
  - intros (rs1 & Hstep & Hrest)%bind_Ok.
    unfold evict_body, region_at in Hstep. simpl in Hstep.
    destruct (rs !! (i, j)) as [ss|] eqn:Hrs; [|done]. simpl in Hstep.
    injection Hstep as <-.
    apply IH in Hrest as [Hin Hout]. split.
    + intros p [->|Hp]%elem_of_cons.
      * exists ss. split; [done|]. rewrite Hout by done. apply lookup_insert_eq.
      * destruct (Hin p Hp) as (ss' & Hs & Hl). exists ss'. split; [|done].
        rewrite lookup_insert_ne in Hs; [done|]. by intros <-.
    + intros p [Hne Hp]%not_elem_of_cons. rewrite Hout by done.
      by apply lookup_insert_ne.
Qed.

Lemma remove_loop_total (out : Z) (ps : list (nat * nat))
    (rs : gmap (nat * nat) state_set) :
  NoDup ps →
  (∀ p, p ∈ ps → is_Some (rs !! p)) →
  ∃ rs', for_each ps (λ p acc, evict_body out p.1 p.2 acc) rs = Ok rs'.
Proof.
  intros Hnd. revert rs. induction Hnd as [|[i j] ps Hnotin Hnd IH]; intros rs Hall;
    [simpl; eauto|].
  destruct (Hall (i, j)) as [ss Hss]; [left|].
  cbn [for_each fst snd]. unfold evict_body at 1, region_at. rewrite Hss. cbn [bind].
  apply IH. intros p Hp. rewrite lookup_insert_ne; [apply Hall; by right|].
  by intros <-.
Qed.

Lemma remove_frame_Ok b out b' :
  remove_frame b out = Ok b' →
  buf_idx b' = buf_idx b ∧ num_frames b' = num_frames b ∧ n b' = n b
  ∧ frame_rate b' = frame_rate b
  ∧ red_flash_timestamps b' = red_flash_timestamps b
  ∧ (∀ p, p ∈ grid (n b) →
       ∃ ss, regions b !! p = Some ss
             ∧ regions b' !! p = Some (remove_states out ss))
  ∧ (∀ p, p ∉ grid (n b) → regions b' !! p = regions b !! p).
Proof.
  unfold remove_frame. intros (rs & Hloop & [= <-])%bind_Ok. simpl.
  rewrite (for_each_nested _ _ (evict_body out)) in Hloop.
  apply remove_loop in Hloop as [Hin Hout]; [|apply NoDup_grid].
  split_and!; done.
Qed.

Lemma add_frame_Ok b frame b' :
  add_frame b frame = Ok b' →
  buf_idx b' = (buf_idx b + 1)%Z ∧ num_frames b' = num_frames b ∧ n b' = n b
  ∧ frame_rate b' = frame_rate b
  ∧ red_flash_timestamps b' =
      red_flash_timestamps b ++ new_stamps b frame (grid (n b))
  ∧ (∀ p, p ∈ grid (n b) →
       ∃ ss, stepped b frame p = Some ss
             ∧ regions b' !! p = Some (evict (buf_idx b + 1) (num_frames b) ss))
  ∧ (∀ p, p ∉ grid (n b) → regions b' !! p = regions b !! p)
  ∧ ((∃ p, p ∈ grid (n b) ∧ flashed (stepped b frame p)) → frame_rate b ≠ 0%Z).
Proof.
  unfold add_frame. intros ([rs st] & Hloop & Hrest)%bind_Ok.
  rewrite (for_each_nested _ _ (region_body b frame)) in Hloop.
  apply add_frame_loop in Hloop as (Hin & Hout & -> & Hfr); [|apply NoDup_grid].
  simpl in Hrest. unfold evict.
  destruct (0 <=? buf_idx b + 1 - num_frames b)%Z.
  - apply remove_frame_Ok in Hrest
      as (-> & -> & -> & -> & -> & Hin' & Hout'). simpl in *.
    split_and!; try done.
    + intros p Hp. destruct (Hin p Hp) as (ss & Hs & Hl).
      destruct (Hin' p Hp) as (ss' & Hs' & Hl'). exists ss. split; [done|].
      rewrite Hl'. congruence.
    + intros p Hp. rewrite Hout' by done. by apply Hout.
  - injection Hrest as <-. simpl. split_and!; try done.
Qed.

Lemma add_frame_total b frame :
  (∀ p, p ∈ grid (n b) → is_Some (stepped b frame p)) →
  frame_rate b ≠ 0%Z →
  ∃ b', add_frame b frame = Ok b'.
Proof.
  intros Hall Hfr. unfold add_frame.
  rewrite (for_each_nested _ _ (region_body b frame)). fold (grid (n b)).
  destruct (add_frame_loop_total b frame (grid (n b)) (regions b)
              (red_flash_timestamps b) (NoDup_grid _) Hall Hfr) as [[rs st] Hloop].
  rewrite Hloop. simpl.
  destruct (0 <=? buf_idx b + 1 - num_frames b)%Z; [|eauto].
  unfold remove_frame. cbn [buf_idx regions n num_frames].
  rewrite (for_each_nested _ _ (evict_body (buf_idx b + 1 - num_frames b))).
  fold (grid (n b)).
  apply add_frame_loop in Hloop as (Hin & _); [|apply NoDup_grid].
  destruct (remove_loop_total (buf_idx b + 1 - num_frames b) (grid (n b)) rs
              (NoDup_grid _)) as [rs' ->]; [|simpl; eauto].
  intros p Hp. destruct (Hin p Hp) as (ss & _ & ->). eauto.
Qed.

(** ** Reaching [E], and well-formed buffers *)

Lemma has_E_lookup (ss : state_set) :
  has_E ss ↔ ∃ i : Z, is_Some (ss !! (E, i)).
Proof.
  unfold has_E. rewrite Exists_exists. split.
  - intros ([[nm i] ck] & Hin & Hnm). simpl in Hnm. subst nm.
    exists i, ck. by apply elem_of_map_to_list in Hin.
  - intros (i & ck & Hck). exists ((E, i), ck). split; [|done].
    by apply elem_of_map_to_list.
Qed.

Lemma flash_idx_has_E (ss : state_set) :
  origins_in (λ k, (0 ≤ k)%Z) ss → flash_idx ss ≠ (-1)%Z ↔ has_E ss.
Proof.
  intros Hpos. rewrite has_E_lookup. unfold flash_idx.
  destruct (List.find _ (map_to_list ss)) as [[[nm i] ck]|] eqn:Hfind; simpl.
  - apply find_some in Hfind as [Hin Hnm]. simpl in Hnm.
    apply bool_decide_eq_true in Hnm as ->.
    apply list_elem_of_In, elem_of_map_to_list in Hin.
    split.
    + intros _. exists i. eauto.
    + intros _. assert (0 ≤ i)%Z by (apply (Hpos E); eauto). lia.
  - split; [done|]. intros (i & ck & Hck).
    apply elem_of_map_to_list, list_elem_of_In in Hck.
    eapply find_none in Hfind; [|exact Hck]. by simpl in Hfind.
Qed.

Lemma stepped_wf b frame p :
  wf_buffer b → frame_covers (n b) frame → p ∈ grid (n b) →
  ∃ ss, stepped b frame p = Some ss
        ∧ origins_in (λ k, (0 ≤ k < buf_idx b + 1)%Z) ss.
Proof.
  intros [Hidx Hreg] Hcov Hp. destruct p as [i j].
  destruct (Hreg _ Hp) as (ss & Hss & Hor).
  apply elem_of_grid in Hp as [Hi Hj].
  destruct (Hcov i j Hi Hj) as [[[u v] r] Hsmp].
  unfold stepped, step_region. simpl. rewrite Hss, Hsmp.
  eexists. split; [done|]. apply state_machine_origins; [lia|].
  intros nm k Hk. apply Hor in Hk. lia.
Qed.

Lemma remove_states_lookup (out : Z) (ss : state_set) (nm : state_name) (k : Z) :
  remove_states out ss !! (nm, k) = if decide (k = out) then None else ss !! (nm, k).
Proof.
  unfold remove_states. case_decide as Hk.
  - apply map_lookup_filter_None. right. intros ck _. simpl. intros Hne. by apply Hne.
  - destruct (ss !! (nm, k)) as [ck|] eqn:Hl.
    + by apply map_lookup_filter_Some.
    + apply map_lookup_filter_None. by left.
Qed.

Lemma evict_origins (P : Z → Prop) (i nf : Z) (ss : state_set) :
  origins_in P ss → origins_in P (evict i nf ss).
Proof.
  unfold evict. destruct (0 <=? i - nf)%Z; [|done].
  intros Hor nm k. rewrite remove_states_lookup. case_decide; [by intros []|].
  apply Hor.
Qed.

Lemma add_frame_wf b frame b' :
  wf_buffer b → add_frame b frame = Ok b' → wf_buffer b'.
Proof.
  intros Hwf Hadd. pose proof Hwf as [Hidx Hreg].
  apply add_frame_Ok in Hadd as (Hi & _ & Hn & _ & _ & Hin & _).
  split; [lia|]. rewrite Hn, Hi. intros [i j] Hp.
  destruct (Hin _ Hp) as (ss & Hss & ->). eexists. split; [done|].
  apply evict_origins.
  destruct (Hreg _ Hp) as (ss0 & Hss0 & Hor).
  unfold stepped, step_region in Hss. rewrite Hss0 in Hss. simpl in Hss.
  destruct (index2 frame i j) as [[[u v] r]|]; [|done].
  injection Hss as <-. apply state_machine_origins; [lia|].
  intros nm k Hk. apply Hor in Hk. lia.
Qed.

Lemma cells_keys {X : Type} (l1 l2 : list nat) (x : X) :
  (l1 ≫= λ i, l2 ≫= λ j, [((i, j), x)]).*1 = l1 ≫= λ i, l2 ≫= λ j, [(i, j)].
Proof.
  induction l1 as [|i l1 IH]; [reflexivity|]. csimpl. rewrite fmap_app, IH.
  f_equal. clear. induction l2 as [|j l2 IH]; [reflexivity|]. csimpl.
  by rewrite IH.
Qed.

Lemma Buffer_init_wf nf size fr : wf_buffer (Buffer_init nf size fr).
Proof.
  split; [simpl; lia|]. simpl. intros p Hp. exists ∅. split.
  - apply elem_of_list_to_map.
    + rewrite cells_keys. apply NoDup_grid.
    + destruct p as [i j]. apply elem_of_grid in Hp as [Hi Hj].
      apply list_elem_of_bind. exists i. split; [|apply elem_of_seq; lia].
      apply list_elem_of_bind. exists j. split; [by left|apply elem_of_seq; lia].
  - intros nm k [ck Hck]. by rewrite lookup_empty in Hck.
Qed.

Lemma filter_bool_Prop {X : Type} (f : X → bool) (P : X → Prop)
    `{∀ x, Decision (P x)} (l : list X) :
  (∀ x, x ∈ l → f x = true ↔ P x) → List.filter f l = filter P l.
Proof.
  induction l as [|x l IH]; intros Hfp; [done|]. simpl.
  rewrite filter_cons. rewrite IH by (intros y Hy; apply Hfp; by right).
  destruct (f x) eqn:Hfx.
  - rewrite decide_True; [done|]. apply Hfp; [left|done].
  - rewrite decide_False; [done|]. intros HP. apply Hfp in HP; [|left]. congruence.
Qed.

Lemma add_frames_wf frames b b' :
  wf_buffer b → add_frames frames b = Ok b' → wf_buffer b'.
Proof.
  unfold add_frames. revert b. induction frames as [|f frames IH]; intros b Hwf; simpl.
  - by intros [= <-].
  - intros (b1 & Hadd & Hrest)%bind_Ok. eapply IH; [|done].
    by eapply add_frame_wf.
Qed.

(** ** The claims on the FSM and the buffer *)

(** Claim C10.  After every call of [state_machine] with the sample
    [((u, v), r)] at buffer index [i], the state set holds a start state
    of origin [i] whose checker is exactly [[(u, v)]]: it is named [B]
    when [r >= 0.8] and [A] otherwise, and the other start name is absent
    at that index.  In particular the state set is not empty. *)
Theorem C10_start_state_seeded (i : Z) (states : state_set) (u v r : Q) :
  let ss' := state_machine i states (u, v) r in
  (if Qle_bool MAX_RED_PERCENTAGE r
   then ss' !! (B, i) = Some [(u, v)] ∧ ss' !! (A, i) = None
   else ss' !! (A, i) = Some [(u, v)] ∧ ss' !! (B, i) = None)
  ∧ ss' ≠ ∅.
Proof.
  intros ss'. subst ss'. split.
  - pose proof (changed_fresh states (u, v) r i) as Hfresh.
    rewrite !state_machine_lookup. unfold start_name in *.
    destruct (Qle_bool MAX_RED_PERCENTAGE r).
    + rewrite decide_True by done. rewrite decide_False by done. split; [done|].
      apply eq_None_not_Some. intros H. by apply changed_keys in H as (? & _).
    + rewrite decide_True by done. rewrite decide_False by done. split; [done|].
      apply eq_None_not_Some. intros H. by apply changed_keys in H as (_ & ? & _).
  - intros Hempty.
    pose proof (state_machine_lookup i states (u, v) r (start_name r, i)) as H.
    rewrite decide_True in H by done. by rewrite Hempty, lookup_empty in H.
Qed.

(** Start states of earlier frames never survive a step. *)
Lemma start_states_dropped (i k : Z) (states : state_set) (c : coord) (r : Q) :
  k ≠ i →
  state_machine i states c r !! (A, k) = None
  ∧ state_machine i states c r !! (B, k) = None.
Proof.
  intros Hk. split; apply eq_None_not_Some; intros H;
    apply state_machine_keys in H as [[= _ ?]|(HA & HB & _)]; done.
Qed.

(** Claim C1, evaluated on the code.  The buffer of [detect_flashes]
    holds, after one dark frame, the single state [A] of origin 0 in its
    region (0, 0).  On the same sample again neither transition test of
    that state fires, and yet the state is not in the set after the step:
    the step leaves only the start state of origin 1. *)
Theorem C1_idle_state_dropped :
  regions ex_idle !! (0, 0) = Some {[ (A, 0%Z) := [(0, 0)%Q] ]}
  ∧ buf_idx ex_idle = 1%Z
  ∧ should_transition (push [(0, 0)%Q] (0, 0)%Q) (0, 0)%Q 0%Q true = false
  ∧ should_transition (push [(0, 0)%Q] (0, 0)%Q) (0, 0)%Q 0%Q false = false
  ∧ state_machine 1 {[ (A, 0%Z) := [(0, 0)%Q] ]} (0, 0)%Q 0%Q !! (A, 0%Z) = None
  ∧ state_machine 1 {[ (A, 0%Z) := [(0, 0)%Q] ]} (0, 0)%Q 0%Q
    = {[ (A, 1%Z) := [(0, 0)%Q] ]}.
Proof. vm_compute. split_and!; reflexivity. Qed.

(** Claim C5, amended.  Let [i] be the buffer index after the increment
    of [add_frame] and [W] the capacity.  Whenever [W <= i], adding a
    frame removes from the state set every region has after its FSM step
    exactly the states whose origin is [i - W]; no state of another origin
    is removed. *)
Theorem C5_eviction_exact (b : Buffer) (frame : chroma_frame) (b' : Buffer) :
  add_frame b frame = Ok b' →
  (num_frames b ≤ buf_idx b')%Z →
  evicted_exactly b frame b' (buf_idx b' - num_frames b).
Proof.
  intros Hadd Hle p ss Hp Hss.
  apply add_frame_Ok in Hadd as (Hi & _ & _ & _ & _ & Hin & _).
  destruct (Hin p Hp) as (ss0 & Hss0 & Hl). rewrite Hss in Hss0.
  injection Hss0 as <-. eexists. split; [done|].
  intros nm k. unfold evict. rewrite Hi in *.
  destruct (Z.leb_spec 0 (buf_idx b + 1 - num_frames b)); [|lia].
  apply remove_states_lookup.
Qed.

Lemma C5_eviction_exact_witness :
  add_frame ex_b3 ex_f3 = Ok ex_b4
  ∧ (num_frames ex_b3 ≤ buf_idx ex_b4)%Z
  ∧ evicted_exactly ex_b3 ex_f3 ex_b4 (buf_idx ex_b4 - num_frames ex_b3).
Proof.
  assert (Hadd : add_frame ex_b3 ex_f3 = Ok ex_b4) by (vm_compute; reflexivity).
  assert (Hle : (num_frames ex_b3 ≤ buf_idx ex_b4)%Z) by (vm_compute; discriminate).
  split; [exact Hadd|]. split; [exact Hle|].
  exact (C5_eviction_exact ex_b3 ex_f3 ex_b4 Hadd Hle).
Defined.

Lemma C5_counterexample :
  add_frame ex_b3 ex_f3 = Ok ex_b4
  ∧ (num_frames ex_b3 < buf_idx ex_b3)%Z
  ∧ ¬ evicted_exactly ex_b3 ex_f3 ex_b4 (buf_idx ex_b3 - num_frames ex_b3 - 1)
  ∧ ¬ evicted_exactly ex_b3 ex_f3 ex_b4 (buf_idx ex_b4 - num_frames ex_b3 - 1).
Proof.
  split; [vm_compute; reflexivity|]. split; [vm_compute; reflexivity|].
  assert (Hgrid : (0, 0) ∈ grid (n ex_b3)) by (apply elem_of_grid; vm_compute; lia).
  assert (Hstep : stepped ex_b3 ex_f3 (0, 0)
                  = Some {[ (D, 2%Z) := [(1, 0)%Q]; (A, 3%Z) := [(1, 0)%Q] ]})
    by (vm_compute; reflexivity).
  assert (Hafter : regions ex_b4 !! (0, 0) = Some {[ (A, 3%Z) := [(1, 0)%Q] ]})
    by (vm_compute; reflexivity).
  split; intros Hclaim;
    destruct (Hclaim (0, 0) _ Hgrid Hstep) as (ss' & Hss' & Hlook);
    rewrite Hafter in Hss'; injection Hss' as <-;
    specialize (Hlook D 2%Z); vm_compute in Hlook; discriminate.
Qed.

(** Claim C8.  Adding a frame to a well-formed buffer with a
    non-zero frame rate appends to the red-flash timestamp list the pair
    [(i / frame_rate, j / frame_rate)] for exactly the regions [(i, j)]
    whose state set holds a state named [E] after the FSM step, in the
    order of the grid, and nothing else. *)
Theorem C8_red_flash_timestamps (b : Buffer) (frame : chroma_frame) :
  wf_buffer b → frame_covers (n b) frame → frame_rate b ≠ 0%Z →
  ∃ b', add_frame b frame = Ok b'
        ∧ red_flash_timestamps b' =
            red_flash_timestamps b
            ++ (flash_stamp (frame_rate b)
                  <$> filter (region_reached_E b frame) (grid (n b))).
Proof.
  intros Hwf Hcov Hfr.
  destruct (add_frame_total b frame) as [b' Hadd]; [|done|].
  { intros p Hp. destruct (stepped_wf b frame p) as (ss & -> & _); eauto. }
  exists b'. split; [done|].
  apply add_frame_Ok in Hadd as (_ & _ & _ & _ & -> & _). f_equal.
  unfold new_stamps. f_equal. apply filter_bool_Prop.
  intros p Hp. destruct (stepped_wf b frame p) as (ss & Hss & Hor); [done..|].
  unfold region_reached_E. rewrite Hss. simpl. rewrite bool_decide_eq_true.
  apply flash_idx_has_E. intros nm k Hk. apply Hor in Hk. lia.
Qed.

Lemma C8_red_flash_timestamps_witness :
  wf_buffer ex_red ∧ frame_covers (n ex_red) (uniform_frame 0 0 0)
  ∧ frame_rate ex_red ≠ 0%Z
  ∧ ∃ b', add_frame ex_red (uniform_frame 0 0 0) = Ok b'
          ∧ red_flash_timestamps b' =
              red_flash_timestamps ex_red
              ++ (flash_stamp (frame_rate ex_red)
                    <$> filter (region_reached_E ex_red (uniform_frame 0 0 0))
                               (grid (n ex_red))).
Proof.
  assert (Hwf : wf_buffer ex_red).
  { apply (add_frames_wf [uniform_frame 0 0 0; uniform_frame 1 0 1]
                        (Buffer_init 4 4 30)); [apply Buffer_init_wf|].
    vm_compute. reflexivity. }
  assert (Hcov : frame_covers (n ex_red) (uniform_frame 0 0 0)).
  { intros i j Hi Hj. change (n ex_red) with 4 in Hi, Hj.
    do 4 (destruct i as [|i]; [do 4 (destruct j as [|j]; [vm_compute; eauto|]); lia|]).
    lia. }
  assert (Hfr : frame_rate ex_red ≠ 0%Z) by (vm_compute; discriminate).
  split; [exact Hwf|]. split; [exact Hcov|]. split; [exact Hfr|].
  exact (C8_red_flash_timestamps ex_red (uniform_frame 0 0 0) Hwf Hcov Hfr).
Defined.

End RedFSM_facts.

(** * Properties of the viewport calculator *)

Section Viewport_facts.
Import RegionShape DangerSpec.

Lemma sqrt2_sqr : (sqrt 2 * sqrt 2 = 2)%R.
Proof. apply sqrt_def. lra. Qed.

Lemma sqrt2_pos : (0 < sqrt 2)%R.
Proof. apply sqrt_lt_R0. lra. Qed.

Lemma gcd_double (H W : Z) : Z.gcd (2 * H) (2 * W) = (2 * Z.gcd H W)%Z.
Proof. apply Z.gcd_mul_mono_l_nonneg. lia. Qed.

Lemma aspect_double (H W X : Z) :
  (X = H ∨ X = W) →
  ((2 * X) / Z.gcd (2 * H) (2 * W) = X / Z.gcd H W)%Z.
Proof.
  intros HX. rewrite gcd_double. destruct (Z.eq_dec (Z.gcd H W) 0%Z) as [Hg|Hg].
  - rewrite Hg. apply Z.gcd_eq_0 in Hg as [-> ->]. by destruct HX as [-> | ->].
  - apply Z.div_mul_cancel_l; lia.
Qed.

(** The pixel density does not change when the resolution and the diagonal
    are scaled together. *)
Lemma square_side_double (H W : Z) (D V theta : R) :
  square_side (2 * H) (2 * W) (2 * D) V theta = square_side H W D V theta.
Proof.
  unfold square_side, calc_viewport. cbn [fst snd].
  rewrite !(aspect_double H W H), !(aspect_double H W W) by auto.
  f_equal. f_equal. rewrite mult_IZR. unfold Rdiv. rewrite !Rinv_mult.
  generalize (/ IZR (H / Z.gcd H W))%R
             (/ / sqrt (IZR ((H / Z.gcd H W) ^ 2 + (W / Z.gcd H W) ^ 2)))%R
             (/ D)%R (IZR H).
  intros p q r h. field.
Qed.

(** ** The default viewport: bounds on [tan (pi / 18)] *)

Lemma PI18_bounds : (1 / 6 < PI / 18 <= 2 / 9)%R.
Proof.
  pose proof PI2_3_2. pose proof PI_4. lra.
Qed.

Lemma sin_PI18_bounds : (15 / 104 < sin (PI / 18) <= 2 / 9)%R.
Proof.
  pose proof PI18_bounds as [Hlo Hhi]. pose proof PI_RGT_0 as Hpi.
  destruct (sin_bound (PI / 18) 0) as [Hlb _]; [lra|lra|].
  split.
  - eapply Rlt_le_trans; [|exact Hlb].
    unfold sin_approx, sin_term. simpl. nra.
  - apply Rlt_le. eapply Rlt_le_trans; [apply sin_lt_x; lra|lra].
Qed.

Lemma cos_PI18_bounds : (79 / 81 <= cos (PI / 18) <= 1)%R.
Proof.
  pose proof PI18_bounds as [Hlo Hhi]. pose proof PI_RGT_0 as Hpi.
  destruct (cos_bound (PI / 18) 0) as [Hlb _]; [lra|lra|].
  split.
  - eapply Rle_trans; [|exact Hlb].
    unfold cos_approx, cos_term. simpl. nra.
  - apply COS_bound.
Qed.

Lemma tan_PI18_bounds : (15 / 104 < tan (PI / 18) <= 15 / 52)%R.
Proof.
  pose proof sin_PI18_bounds as [Hs1 Hs2].
  pose proof cos_PI18_bounds as [Hc1 Hc2].
  unfold tan. split.
  - apply Rlt_le_trans with (sin (PI / 18)); [done|].
    apply Rle_trans with (sin (PI / 18) / 1)%R; [lra|].
    unfold Rdiv. apply Rmult_le_compat_l; [lra|].
    apply Rinv_le_contravar; lra.
  - apply Rle_trans with ((2 / 9) / (79 / 81))%R; [|lra].
    unfold Rdiv at 1 2. apply Rmult_le_compat; try lra.
    + apply Rlt_le, Rinv_0_lt_compat. lra.
    + apply Rinv_le_contravar; lra.
Qed.

(** The side before the ceiling, on the diagonal of the screen in pixels. *)
Lemma square_side_diagonal (H W : Z) (D V theta : R) :
  (0 < H)%Z → (0 < W)%Z → (0 < D)%R →
  square_side H W D V theta =
    Zceil (sqrt 2 * (V * tan (theta * PI / 180))
           * (sqrt (IZR (H ^ 2 + W ^ 2)) / D))%R.
Proof.
  intros HH HW HD. unfold square_side, calc_viewport. cbn [fst snd].
  set (g := Z.gcd H W).
  assert (Hg : (0 < g)%Z).
  { pose proof (Z.gcd_nonneg H W). assert (g ≠ 0%Z); [|lia].
    intros Hg0. apply Z.gcd_eq_0 in Hg0. lia. }
  destruct (Z.gcd_divide_l H W) as [a Ha]. destruct (Z.gcd_divide_r H W) as [c Hc].
  fold g in Ha, Hc.
  assert (Ha' : (H / g = a)%Z) by (rewrite Ha; apply Z.div_mul; lia).
  assert (Hc' : (W / g = c)%Z) by (rewrite Hc; apply Z.div_mul; lia).
  rewrite Ha', Hc'.
  assert (Hapos : (0 < a)%Z) by nia.
  assert (Hcpos : (0 < c)%Z) by nia.
  set (hyp := sqrt (IZR (a ^ 2 + c ^ 2))).
  assert (Hhyp : (0 < hyp)%R).
  { apply sqrt_lt_R0. apply IZR_lt. nia. }
  assert (Hdiag : sqrt (IZR (H ^ 2 + W ^ 2)) = (IZR g * hyp)%R).
  { replace (H ^ 2 + W ^ 2)%Z with ((g * g) * (a ^ 2 + c ^ 2))%Z by (rewrite Ha, Hc; ring).
    rewrite mult_IZR, sqrt_mult.
    - rewrite mult_IZR, sqrt_square; [done|]. apply IZR_le. lia.
    - apply IZR_le. nia.
    - apply IZR_le. nia. }
  rewrite Hdiag. f_equal. rewrite Ha at 1. rewrite mult_IZR.
  assert (IZR a ≠ 0)%R by (apply not_0_IZR; lia).
  field. split_and!; lra.
Qed.

Lemma default_side_bounds (H W : Z) :
  (0 < H)%Z → (0 < W)%Z → (0 < default_side H W ≤ Z.max H W)%Z.
Proof.
  intros HH HW. unfold default_side.
  rewrite square_side_diagonal by (unfold Danger.screen_size; lra || done).
  unfold Danger.screen_size, Danger.view_distance, Danger.viewport_angle.
  replace (10 * PI / 180)%R with (PI / 18)%R by lra.
  pose proof tan_PI18_bounds as [Ht1 Ht2].
  pose proof sqrt2_sqr as Hs2. pose proof sqrt2_pos as Hs2pos.
  set (t := tan (PI / 18)) in *.
  set (d := sqrt (IZR (H ^ 2 + W ^ 2))).
  assert (Hd0 : (0 < d)%R) by (apply sqrt_lt_R0, IZR_lt; nia).
  assert (Hd : (d <= sqrt 2 * IZR (Z.max H W))%R).
  { assert (Hm : (0 <= IZR (Z.max H W))%R) by (apply IZR_le; lia).
    rewrite <- (sqrt_square (IZR (Z.max H W))) by done.
    rewrite <- sqrt_mult; [|lra|nra]. apply sqrt_le_1_alt.
    rewrite <- mult_IZR, <- (mult_IZR 2). apply IZR_le.
    destruct (Z.max_spec H W) as [[? ->]|[? ->]]; nia. }
  set (x := (sqrt 2 * (26 * 2.54 * t) * (d / (15 * 2.54)))%R).
  assert (Hx : (x = 26 / 15 * t * (sqrt 2 * d))%R).
  { unfold x. field. lra. }
  assert (Hx0 : (0 < x)%R).
  { rewrite Hx. apply Rmult_lt_0_compat; [|nra]. lra. }
  assert (Hx1 : (x <= IZR (Z.max H W))%R).
  { rewrite Hx. assert (sqrt 2 * d <= 2 * IZR (Z.max H W))%R by nra.
    assert (0 <= IZR (Z.max H W))%R by (apply IZR_le; lia). nra. }
  pose proof (Zceil_bound x) as [Hc1 Hc2]. split.
  - apply lt_IZR. lra.
  - assert (Zceil x < Z.max H W + 1)%Z; [|lia].
    apply lt_IZR. rewrite plus_IZR. lra.
Qed.

Lemma default_side_square (m : Z) :
  (0 < m)%Z → (m < 2 * default_side m m ∧ default_side m m ≤ m)%Z.
Proof.
  intros Hm. split.
  2:{ pose proof (default_side_bounds m m Hm Hm). lia. }
  unfold default_side.
  rewrite square_side_diagonal by (unfold Danger.screen_size; lra || done).
  unfold Danger.screen_size, Danger.view_distance, Danger.viewport_angle.
  replace (10 * PI / 180)%R with (PI / 18)%R by lra.
  pose proof tan_PI18_bounds as [Ht1 Ht2].
  pose proof sqrt2_sqr as Hs2. pose proof sqrt2_pos as Hs2pos.
  set (t := tan (PI / 18)) in *.
  assert (Hd : sqrt (IZR (m ^ 2 + m ^ 2)) = (sqrt 2 * IZR m)%R).
  { replace (m ^ 2 + m ^ 2)%Z with (2 * (m * m))%Z by ring.
    assert (0 <= IZR m)%R by (apply IZR_le; lia).
    rewrite mult_IZR, sqrt_mult; [|lra|apply IZR_le; nia].
    by rewrite mult_IZR, sqrt_square. }
  rewrite Hd.
  set (x := (sqrt 2 * (26 * 2.54 * t) * (sqrt 2 * IZR m / (15 * 2.54)))%R).
  assert (Hx : (x = 52 / 15 * t * IZR m)%R).
  { unfold x. transitivity (26 / 15 * t * IZR m * (sqrt 2 * sqrt 2))%R; [|rewrite Hs2; lra].
    field. lra. }
  assert (Hmr : (0 < IZR m)%R) by (apply IZR_lt; lia).
  assert (Hx1 : (IZR m / 2 < x)%R) by (rewrite Hx; nra).
  pose proof (Zceil_bound x) as [_ Hc].
  apply lt_IZR. rewrite mult_IZR. lra.
Qed.

End Viewport_facts.

(** * Properties of the luminance analyzer *)

Section Danger_facts.
Import Danger DangerSpec.

Lemma Qabs'_self (x : Q) : Qabs' (x - x) == 0.
Proof.
  unfold Qabs'. destruct (Qle_bool 0 (x - x)); ring.
Qed.

Lemma opposing_same (a : option Q) : opposing a a = false.
Proof.
  destruct a as [x|]; [|done]. unfold opposing.
  assert (Qltb luminance_threshold (Qabs' (x - x)) = false) as ->; [|done].
  unfold Qltb. apply negb_false_iff, Qle_bool_iff.
  rewrite Qabs'_self. by vm_compute.
Qed.

Lemma opposing_None_r (a : option Q) : opposing a None = false.
Proof. by destruct a. Qed.

Lemma opposing_replicate (tiles : list (list (option Q))) (k f f' r c : nat) :
  opposing (lum_at (replicate k tiles) f r c) (lum_at (replicate k tiles) f' r c)
  = false.
Proof.
  unfold lum_at.
  destruct (replicate k tiles !! f) as [t|] eqn:Hf; [|done].
  destruct (replicate k tiles !! f') as [t'|] eqn:Hf'; [|apply opposing_None_r].
  apply lookup_replicate in Hf as [-> _], Hf' as [-> _]. apply opposing_same.
Qed.

Lemma for_return_invariant {S X V : Type} (P : S → Prop) (xs : list X)
    (body : X → S → V + S) (s : S) :
  P s →
  (∀ x s, P s → ∃ s', body x s = inr s' ∧ P s') →
  ∃ s', for_return xs body s = inr s' ∧ P s'.
Proof.
  intros Hs Hbody. revert s Hs. induction xs as [|x xs IH]; intros s Hs; simpl.
  - eauto.
  - destruct (Hbody x s Hs) as (s1 & -> & Hs1). by apply IH.
Qed.

Lemma np_max_zeros (k m : nat) : np_max (replicate k (replicate m 0%Z)) = 0%Z.
Proof.
  unfold np_max. induction k as [|k IH]; [done|]. simpl.
  rewrite foldr_app, IH. clear. induction m as [|m IH]; [done|]. simpl.
  rewrite IH. done.
Qed.

Lemma map_replicate {X Y : Type} (f : X → Y) (k : nat) (x : X) :
  map f (replicate k x) = replicate k (f x).
Proof. induction k as [|k IH]; [done|]. simpl. by rewrite IH. Qed.

(** Pass 2 counts nothing when every frame has the same tile luminances. *)
Lemma detect_changes_identical (tiles : list (list (option Q)))
    (k num_frames sections : nat) :
  detect_changes (replicate k tiles) num_frames sections = 0%Z.
Proof.
  unfold detect_changes.
  set (zeros := replicate sections (replicate sections 0%Z)).
  set (P := λ s : scan, num_flashes s = zeros).
  match goal with
  | |- match ?loop with _ => _ end = _ =>
      assert (∃ s', loop = inr s' ∧ P s') as (s' & -> & Hs')
  end.
  2:{ rewrite Hs'. apply np_max_zeros. }
  apply for_return_invariant; [done|]. intros i s Hs.
  apply for_return_invariant; [done|]. intros j s1 Hs1.
  apply for_return_invariant; [done|]. intros r s2 Hs2.
  apply for_return_invariant; [done|]. intros c s3 Hs3.
  unfold check_tile. cbn [frame_idx future_frame row col num_flashes].
  rewrite opposing_replicate. eauto.
Qed.

Lemma process_dangerous_from_identical (sq h w : Z) (frame : hls_frame) (k : nat) :
  (0 < sq)%Z → (0 < Z.max (h / sq) (w / sq))%Z →
  process_dangerous_from sq (mkArray h w (replicate k frame)) = Ok 0%Z.
Proof.
  intros Hsq Hsec. unfold process_dangerous_from, py_floordiv.
  cbn [height width frames].
  destruct (Z.eqb_spec sq 0); [lia|]. cbn [bind].
  destruct (Z.eqb_spec (Z.max (h / sq) (w / sq)) 0); [lia|]. cbn [bind].
  destruct (Z.ltb_spec (Z.max (h / sq) (w / sq)) 0); [lia|].
  unfold precalculate. cbn [frames]. rewrite map_replicate.
  by rewrite detect_changes_identical.
Qed.

Lemma sections_positive (h w : Z) :
  (0 < h)%Z → (0 < w)%Z →
  (0 < Z.max (h / default_side h w) (w / default_side h w))%Z.
Proof.
  intros Hh Hw. pose proof (default_side_bounds h w Hh Hw) as [Hs1 Hs2].
  destruct (Z.max_spec h w) as [[? Hm]|[? Hm]]; rewrite Hm in Hs2.
  - assert (1 ≤ w / default_side h w)%Z; [|lia].
    apply Z.div_le_lower_bound; lia.
  - assert (1 ≤ h / default_side h w)%Z; [|lia].
    apply Z.div_le_lower_bound; lia.
Qed.

(** Claim C7.  On a window that consists of [k] copies of one frame, of
    any positive height and width, the luminance analyzer returns 0. *)
Theorem C7_identical_frames (frame : hls_frame) (k : nat) (h w fr : Z) :
  (0 < h)%Z → (0 < w)%Z →
  process_dangerous (mkArray h w (replicate k frame)) fr = Ok 0%Z.
Proof.
  intros Hh Hw. unfold process_dangerous. cbn [height width].
  apply process_dangerous_from_identical.
  - apply (default_side_bounds h w Hh Hw).
  - by apply sections_positive.
Qed.

Lemma process_dangerous_square (m fr : Z) (fs : list hls_frame) :
  (0 < m)%Z →
  process_dangerous (mkArray m m fs) fr = process_dangerous_from m (mkArray m m fs).
Proof.
  intros Hm. unfold process_dangerous. cbn [height width].
  change (RegionShape.calc_viewport (m, m) screen_size view_distance
            viewport_angle).2 with (default_side m m).
  pose proof (default_side_square m Hm) as [Hlo Hhi].
  unfold process_dangerous_from, py_floordiv. cbn [height width frames].
  destruct (Z.eqb_spec (default_side m m) 0); [lia|].
  destruct (Z.eqb_spec m 0); [lia|]. cbn [bind].
  assert (m / default_side m m = 1)%Z as ->.
  { symmetry. apply (Z.div_unique m _ 1 (m - default_side m m)); lia. }
  by rewrite Z.div_same.
Qed.

End Danger_facts.

(** * Properties of the orchestrator *)

Section Merge_facts.
Import Detector DetectorSpec.

(** ** The merging loop *)

Lemma Qltb_lt (a b : Q) : Qltb a b = true ↔ (a < b)%Q.
Proof.
  unfold Qltb. rewrite negb_true_iff. rewrite <- not_true_iff_false.
  rewrite Qle_bool_iff. split; [apply Qnot_le_lt | apply Qlt_not_le].
Qed.

Lemma Qltb_ge (a b : Q) : Qltb a b = false ↔ (b <= a)%Q.
Proof. unfold Qltb. rewrite negb_false_iff. apply Qle_bool_iff. Qed.

Lemma interval_eqb_false (x y : Q * Q) : (x.1 < y.1)%Q → interval_eqb x y = false.
Proof.
  intros Hlt. unfold interval_eqb.
  destruct (Qeq_bool x.1 y.1) eqn:Heq; [|done].
  apply Qeq_bool_iff in Heq. rewrite Heq in Hlt. by apply Qlt_irrefl in Hlt.
Qed.

Lemma interval_eqb_refl (x : Q * Q) : interval_eqb x x = true.
Proof.
  unfold interval_eqb. rewrite !(proj2 (Qeq_bool_iff _ _)); [done|reflexivity..].
Qed.

Lemma list_remove_skip (x : Q * Q) (pre post : list (Q * Q)) :
  Forall (λ y, (y.1 < x.1)%Q) pre →
  list_remove x (pre ++ x :: post) = pre ++ post.
Proof.
  induction 1 as [|y pre Hy _ IH]; simpl.
  - by rewrite interval_eqb_refl.
  - by rewrite interval_eqb_false, IH.
Qed.

Lemma Qabs'_gap (a b : Q) :
  Qltb (Qabs' (a - b)) 3 = false → (a < b)%Q → (a + 3 <= b)%Q.
Proof.
  intros Hge Hlt. apply Qltb_ge in Hge. unfold Qabs' in Hge.
  destruct (Qle_bool 0 (a - b)) eqn:Hs.
  - apply Qle_bool_iff in Hs. Lqa.lra.
  - Lqa.lra.
Qed.

Lemma spaced_inv (a b : Q * Q) (l : list (Q * Q)) :
  spaced (a :: b :: l) →
  (a.1 < a.2 + 2)%Q ∧ (a.2 + 2 < b.1)%Q ∧ spaced (b :: l).
Proof. by inversion 1. Qed.

Lemma spaced_head (a : Q * Q) (l : list (Q * Q)) :
  spaced (a :: l) → (a.1 < a.2 + 2)%Q.
Proof. by inversion 1. Qed.

Lemma spaced_fused (a b : Q * Q) (l : list (Q * Q)) :
  spaced (a :: b :: l) → spaced ((a.1, b.2) :: l).
Proof.
  intros (Ha & Hab & Hb)%spaced_inv. destruct l as [|c l].
  - apply spaced_head in Hb. constructor. simpl. Lqa.lra.
  - apply spaced_inv in Hb as (Hb & Hbc & Hc). constructor; simpl; [Lqa.lra|Lqa.lra|done].
Qed.

Lemma merge_loop_fuse (fuel : nat) (pre : list (Q * Q)) (stamp : Q * Q)
    (rest : list (Q * Q)) :
  length rest ≤ fuel →
  Forall (λ y, (y.1 < stamp.1)%Q) pre →
  spaced (stamp :: rest) →
  merge_loop fuel (length pre) (pre ++ stamp :: rest) = pre ++ fuse stamp rest.
Proof.
  revert fuel pre stamp. induction rest as [|next rest IH]; intros fuel pre stamp Hfuel Hpre Hsp.
  - destruct fuel as [|fuel]; simpl; [done|].
    rewrite lookup_app_r by lia. rewrite Nat.sub_diag. simpl.
    rewrite lookup_app_r by lia.
    replace (length pre + 1 - length pre) with 1 by lia. done.
  - destruct fuel as [|fuel]; simpl in Hfuel; [lia|]. cbn [merge_loop fuse].
    rewrite lookup_app_r by lia. rewrite Nat.sub_diag. cbn [lookup list_lookup].
    rewrite lookup_app_r by lia.
    replace (length pre + 1 - length pre) with 1 by lia. cbn [lookup list_lookup].
    pose proof Hsp as (Hs & Hsn & Hn)%spaced_inv.
    destruct (Qltb (Qabs' (stamp.2 - next.1)) 3) eqn:Hnear.
    + rewrite insert_app_r_alt by lia. rewrite Nat.sub_diag. cbn [insert list_insert].
      assert (Hrm : list_remove next (pre ++ (stamp.1, next.2) :: next :: rest)
                    = pre ++ (stamp.1, next.2) :: rest).
      { rewrite (cons_middle (stamp.1, next.2) pre), app_assoc.
        rewrite list_remove_skip; [by rewrite <- app_assoc|].
        apply Forall_app. split.
        - eapply Forall_impl; [exact Hpre|]. simpl. intros. Lqa.lra.
        - constructor; [simpl; Lqa.lra|constructor]. }
      rewrite Hrm. apply IH; [lia|done|by apply spaced_fused].
    + assert (Happ : pre ++ stamp :: next :: rest = (pre ++ [stamp]) ++ next :: rest)
        by (by rewrite <- app_assoc).
      rewrite Happ.
      replace (length pre + 1) with (length (pre ++ [stamp]))
        by (rewrite length_app; simpl; lia).
      rewrite IH; [by rewrite <- app_assoc|lia| |done].
      apply Forall_app. split.
      * eapply Forall_impl; [exact Hpre|]. simpl. intros. Lqa.lra.
      * constructor; [Lqa.lra|constructor].
Qed.

Lemma apart_separated (gap : Q) (l : list (Q * Q)) :
  apart gap l → separated gap l.
Proof.
  induction 1 as [|a|a b l Hab Hl IH]; intros k x y Hx Hy.
  - by rewrite lookup_nil in Hx.
  - destruct k as [|k]; simpl in *; [done|]. by destruct k.
  - destruct k as [|k]; simpl in *.
    + by injection Hx as <-; injection Hy as <-.
    + by apply (IH k).
Qed.

Lemma fuse_head (stamp : Q * Q) (rest : list (Q * Q)) :
  ∃ e l, fuse stamp rest = (stamp.1, e) :: l.
Proof.
  revert stamp. induction rest as [|next rest IH]; intros [s e]; simpl; [eauto|].
  destruct (Qltb _ _); [|eauto]. apply (IH (s, next.2)).
Qed.

Lemma fuse_apart (stamp : Q * Q) (rest : list (Q * Q)) :
  spaced (stamp :: rest) →
  apart 3 (fuse stamp rest)
  ∧ Forall (λ a, (a.1 < a.2 + 2)%Q) (fuse stamp rest).
Proof.
  revert stamp. induction rest as [|next rest IH]; intros stamp Hsp; simpl.
  - apply spaced_head in Hsp. split; repeat constructor; done.
  - pose proof Hsp as (Hs & Hsn & Hn)%spaced_inv.
    destruct (Qltb (Qabs' (stamp.2 - next.1)) 3) eqn:Hnear.
    + apply IH. by apply spaced_fused.
    + destruct (IH next Hn) as [Hap Hall].
      destruct (fuse_head next rest) as (e & l & Heq). rewrite Heq in *.
      split; [|by constructor]. constructor; [|done]. simpl.
      apply Qabs'_gap; [done|Lqa.lra].
Qed.

Lemma merge_fuse (stamp : Q * Q) (rest : list (Q * Q)) :
  spaced (stamp :: rest) → merge (stamp :: rest) = fuse stamp rest.
Proof.
  intros Hsp. unfold merge.
  apply (merge_loop_fuse (length (stamp :: rest)) [] stamp rest); simpl; [lia|done..].
Qed.

(** More fuel does not change the result of the merging loop. *)
Lemma merge_fuel_enough (extra : nat) (l : list (Q * Q)) :
  spaced l → merge_loop (length l + extra) 0 l = merge l.
Proof.
  destruct l as [|stamp rest]; intros Hsp.
  - by destruct extra.
  - rewrite merge_fuse by done.
    apply (merge_loop_fuse _ [] stamp rest); simpl; [lia|done..].
Qed.

Lemma merge_spaced (l : list (Q * Q)) :
  spaced l →
  separated 3 (merge l) ∧ Forall (λ a, (a.1 < a.2 + 2)%Q) (merge l).
Proof.
  destruct l as [|stamp rest]; intros Hsp.
  - split; [|constructor]. intros k a b Ha. by destruct k.
  - rewrite merge_fuse by done. destruct (fuse_apart stamp rest Hsp) as [Hap Hall].
    split; [by apply apart_separated|done].
Qed.

End Merge_facts.

Section Run_facts.
Import Detector DetectorSpec.

(** ** The invariant of the main loop *)

Lemma Qdiv_lt_mono (a b fps : Z) :
  (0 < fps)%Z → (a < b)%Z → (inject_Z a / inject_Z fps < inject_Z b / inject_Z fps)%Q.
Proof.
  intros Hfps Hab. unfold Qdiv. apply Qmult_lt_compat_r.
  - apply Qinv_lt_0_compat. change 0%Q with (inject_Z 0). by rewrite <- Zlt_Qlt.
  - by rewrite <- Zlt_Qlt.
Qed.

Lemma spaced_snoc (l : list (Q * Q)) (x : Q * Q) :
  spaced l → Forall (λ a, (a.2 + 2 < x.1)%Q) l → (x.1 < x.2 + 2)%Q →
  spaced (l ++ [x]).
Proof.
  induction 1 as [|a Ha|a b l Ha Hab Hl IH]; intros Hall Hx; simpl.
  - by constructor.
  - apply Forall_inv in Hall. by repeat constructor.
  - constructor; [done..|]. apply IH; [|done]. by apply Forall_inv_tail in Hall.
Qed.

Lemma Qdiv_le_mono (a b fps : Z) :
  (0 < fps)%Z → (a ≤ b)%Z → (inject_Z a / inject_Z fps <= inject_Z b / inject_Z fps)%Q.
Proof.
  intros Hfps Hab. destruct (Z.eq_dec a b) as [->|Hne]; [apply Qle_refl|].
  apply Qlt_le_weak, Qdiv_lt_mono; lia.
Qed.

Lemma bound_weaken (fps x y : Z) (l : list (Q * Q)) :
  (0 < fps)%Z → (x ≤ y)%Z →
  Forall (λ a, (a.2 < inject_Z x / inject_Z fps)%Q) l →
  Forall (λ a, (a.2 < inject_Z y / inject_Z fps)%Q) l.
Proof.
  intros Hfps Hxy Hall. eapply Forall_impl; [exact Hall|]. intros a Ha.
  eapply Qlt_le_trans; [exact Ha|]. by apply Qdiv_le_mono.
Qed.

Lemma process_frame_inv (an : Danger.Array → Z → Result Z) (cap : VideoCapture)
    (W : Z) (f : Frame) (st st' : loop_state) :
  (0 < CAP_PROP_FPS cap)%Z →
  loop_inv (CAP_PROP_FPS cap) st →
  process_frame an cap W f st = Ok st' →
  loop_inv (CAP_PROP_FPS cap) st'.
Proof.
  intros Hfps (Hfc & Hstart & Hsp & Hbound). unfold process_frame, limit in *.
  set (fps := CAP_PROP_FPS cap) in *.
  intros (red & _ & Hrest)%bind_Ok.
  destruct (Z.of_nat (length (deque_append W (frame_buffer st) (hls f))) =? W)%Z.
  2:{ injection Hrest as <-. unfold loop_inv, limit. cbn [frame_counter start_danger timestamps].
      split_and!; [lia|lia|done|].
      destruct (Z.eqb_spec (start_danger st) (-1)); [|done].
      eapply bound_weaken; [done| |exact Hbound]. lia. }
  apply bind_Ok in Hrest as (flashes & _ & Hrest).
  apply bind_Ok in Hrest as ([stamps start2] & Hemit & Hrest).
  apply bind_Ok in Hrest as (fb' & _ & Hrest). injection Hrest as <-.
  unfold loop_inv, limit. cbn [frame_counter start_danger timestamps].
  destruct (Z.ltb_spec flashes hertz) as [Hlow|Hhigh].
  - assert ((hertz <=? flashes)%Z = false) as Hno by (apply Z.leb_gt; lia).
    rewrite Hno in Hemit. cbn [andb] in Hemit.
    destruct (Z.leb_spec 0 (start_danger st)) as [Hopen|Hclosed].
    + apply bind_Ok in Hemit as (a & Ha & Hemit).
      apply bind_Ok in Hemit as (b & Hb & Hemit).
      injection Hemit as <- <-.
      apply py_truediv_Ok in Ha as [_ ->], Hb as [_ ->].
      change (inject_Z (skip_enabled * 2)) with 2%Q.
      destruct Hstart as [Hs|Hs]; [lia|].
      destruct (Z.eqb_spec (start_danger st) (-1)); [lia|].
      pose proof (Qdiv_lt_mono (start_danger st) (frame_counter st) fps Hfps
                    ltac:(lia)) as Hlt.
      pose proof (Qdiv_lt_mono (frame_counter st) (frame_counter st + 1) fps Hfps
                    ltac:(lia)) as Hlt'.
      split_and!; [lia|by left| |].
      * apply spaced_snoc; [done| |simpl; Lqa.lra].
        eapply Forall_impl; [exact Hbound|]. simpl. intros x Hx. Lqa.lra.
      * cbn [Z.eqb]. apply Forall_app. split.
        -- eapply Forall_impl; [exact Hbound|]. simpl. intros x Hx.
           eapply Qlt_trans; [exact Hx|]. eapply Qlt_trans; [exact Hlt|exact Hlt'].
        -- constructor; [exact Hlt'|constructor].
    + injection Hemit as <- <-.
      destruct Hstart as [Hs|Hs]; [|lia].
      destruct (Z.eqb_spec (start_danger st) (-1)); [|done].
      split_and!; [lia|by left|done|].
      eapply bound_weaken; [done| |exact Hbound]. lia.
  - injection Hemit as <- <-.
    assert ((hertz <=? flashes)%Z = true) as -> by (apply Z.leb_le; lia).
    cbn [andb].
    destruct (Z.eqb_spec (start_danger st) (-1)) as [Hs|Hs].
    + destruct (Z.eqb_spec (frame_counter st) (-1)); [lia|].
      split_and!; [lia|right; lia|done|done].
    + destruct Hstart as [?|Hs']; [done|].
      destruct (Z.eqb_spec (start_danger st) (-1)); [done|].
      split_and!; [lia|right; lia|done|done].
Qed.

Lemma run_inv (an : Danger.Array → Z → Result Z) (cap : VideoCapture) (W : Z)
    (stream : list Frame) (st st' : loop_state) (k : nat) :
  (0 < CAP_PROP_FPS cap)%Z →
  loop_inv (CAP_PROP_FPS cap) st →
  result (run an cap W stream st k) = Ok st' →
  loop_inv (CAP_PROP_FPS cap) st'.
Proof.
  intros Hfps. revert st k. induction stream as [|f stream IH]; intros st k Hinv; simpl.
  - intros (_ & _ & (_ & _ & [= <-])%bind_Ok)%bind_Ok. done.
  - destruct (bind (progress cap st) _) as [st1|e] eqn:Hstep; [|done].
    apply bind_Ok in Hstep as (_ & _ & Hstep).
    apply IH. by eapply process_frame_inv.
Qed.

End Run_facts.

Section Detector_facts.
Import Detector DetectorSpec DangerSpec.

(** ** The speed test *)

Lemma bind_speed_free {X Y : Type} (m : Result X) (k : X → Result Y) :
  speed_free m → (∀ x, speed_free (k x)) → speed_free (bind m k).
Proof.
  unfold speed_free. destruct m as [x|e]; simpl; intros Hm Hk; [apply Hk|].
  intros [= ->]. by apply Hm.
Qed.

Lemma for_each_speed_free {S X : Type} (xs : list X) (body : X → S → Result S)
    (s : S) :
  (∀ x s, speed_free (body x s)) → speed_free (for_each xs body s).
Proof.
  intros Hbody. revert s. induction xs as [|x xs IH]; intros s; simpl; [done|].
  by apply bind_speed_free.
Qed.

Lemma py_truediv_speed_free (a b : Z) : speed_free (py_truediv a b).
Proof. unfold py_truediv. by destruct (b =? 0)%Z. Qed.

Lemma py_floordiv_speed_free (a b : Z) : speed_free (py_floordiv a b).
Proof. unfold py_floordiv. by destruct (b =? 0)%Z. Qed.

Lemma add_frame_speed_free (b : RedFSM.Buffer) (frame : RedFSM.chroma_frame) :
  speed_free (RedFSM.add_frame b frame).
Proof.
  unfold RedFSM.add_frame. apply bind_speed_free.
  - apply for_each_speed_free. intros i acc. apply for_each_speed_free.
    intros j [rs stamps]. unfold RedFSM.region_body, RedFSM.index2, RedFSM.region_at.
    destruct (frame !! i) as [line|]; [|done].
    destruct (line !! j) as [[[u v] r]|]; [|done]. cbn [bind].
    destruct (rs !! (i, j)); [|done]. cbn [bind].
    case_bool_decide; [|done].
    apply bind_speed_free; [apply py_truediv_speed_free|]. intros ti.
    apply bind_speed_free; [apply py_truediv_speed_free|]. done.
  - intros [rs stamps]. destruct (0 <=? _)%Z; [|done].
    unfold RedFSM.remove_frame. apply bind_speed_free; [|done].
    apply for_each_speed_free. intros i acc. apply for_each_speed_free.
    intros j rs'. unfold RedFSM.region_at. cbn [RedFSM.regions].
    by destruct (rs' !! (i, j)).
Qed.

Lemma process_dangerous_speed_free (a : Danger.Array) (fr : Z) :
  speed_free (Danger.process_dangerous a fr).
Proof.
  unfold Danger.process_dangerous, Danger.process_dangerous_from.
  repeat (apply bind_speed_free; [apply py_floordiv_speed_free|]; intros ?).
  by destruct (_ <? 0)%Z.
Qed.

Lemma process_frame_speed_free (an : Danger.Array → Z → Result Z)
    (cap : VideoCapture) (W : Z) (f : Frame) (st : loop_state) :
  (∀ a fr, speed_free (an a fr)) →
  speed_free (process_frame an cap W f st).
Proof.
  intros Han. unfold process_frame.
  apply bind_speed_free; [apply add_frame_speed_free|]. intros red.
  destruct (_ =? W)%Z; [|done].
  apply bind_speed_free; [apply Han|]. intros flashes.
  apply bind_speed_free.
  - destruct (flashes <? hertz)%Z; [|done]. destruct (0 <=? _)%Z; [|done].
    apply bind_speed_free; [apply py_truediv_speed_free|]. intros a.
    apply bind_speed_free; [apply py_truediv_speed_free|]. done.
  - intros [stamps start2]. apply bind_speed_free; [|done].
    destruct (_ && _); [done|]. unfold popleft. by destruct (deque_append _ _ _).
Qed.

Lemma run_speed_free (an : Danger.Array → Z → Result Z) (cap : VideoCapture)
    (W : Z) (stream : list Frame) (st : loop_state) (k : nat) :
  (∀ a fr, speed_free (an a fr)) →
  speed_free (result (run an cap W stream st k)).
Proof.
  intros Han. revert st k. induction stream as [|f stream IH]; intros st k; simpl.
  - unfold progress. apply bind_speed_free.
    + destruct (_ =? 0)%Z; [|done].
      apply bind_speed_free; [apply py_truediv_speed_free|done].
    + intros _. apply bind_speed_free; [apply py_truediv_speed_free|done].
  - destruct (bind (progress cap st) _) as [st1|e] eqn:Hstep; [apply IH|].
    simpl. rewrite <- Hstep. apply bind_speed_free.
    + unfold progress. destruct (_ =? 0)%Z; [|done].
      apply bind_speed_free; [apply py_truediv_speed_free|done].
    + intros _. by apply process_frame_speed_free.
Qed.

(** Claim C6.  When [speed > 5] or [speed < 0.2], [detect_flashes] ends
    with the invalid-speed error without a single call of [cap.read()];
    for every speed of the closed interval [0.2, 5] its result is not that
    error; and speed 6 fails before any frame is read. *)
Theorem C6_speed_check (cap : VideoCapture) (speed : Q) :
  ((5 < speed)%Q ∨ (speed < 2 # 10)%Q →
     detect_flashes cap speed = mkOutcome 0 (Err InvalidSpeed))
  ∧ ((2 # 10 <= speed)%Q ∧ (speed <= 5)%Q →
       result (detect_flashes cap speed) ≠ Err InvalidSpeed)
  ∧ detect_flashes cap 6 = mkOutcome 0 (Err InvalidSpeed).
Proof.
  split_and!.
  - intros Hout. unfold detect_flashes, detect_flashes_with.
    assert (Qltb 5 speed || Qltb speed (2 # 10) = true) as ->; [|done].
    apply orb_true_iff. rewrite !Qltb_lt. done.
  - intros [Hlo Hhi]. unfold detect_flashes, detect_flashes_with.
    assert (Qltb 5 speed || Qltb speed (2 # 10) = false) as ->.
    { apply orb_false_iff. rewrite !Qltb_ge. done. }
    destruct (_ || _); [done|]. cbn [result reads].
    apply bind_speed_free; [|done].
    destruct (is_opened cap); [|done].
    apply run_speed_free. apply process_dangerous_speed_free.
  - reflexivity.
Qed.

Lemma C6_speed_check_witness :
  detect_flashes ex_cap 6 = mkOutcome 0 (Err InvalidSpeed)
  ∧ detect_flashes ex_cap (1 # 10) = mkOutcome 0 (Err InvalidSpeed)
  ∧ result (detect_flashes ex_cap (2 # 10)) ≠ Err InvalidSpeed
  ∧ result (detect_flashes ex_cap 5) ≠ Err InvalidSpeed.
Proof.
  split; [|split; [|split]].
  - apply (proj1 (C6_speed_check ex_cap 6)). left. vm_compute. reflexivity.
  - apply (proj1 (C6_speed_check ex_cap (1 # 10))). right. vm_compute. reflexivity.
  - apply (proj1 (proj2 (C6_speed_check ex_cap (2 # 10)))).
    split; vm_compute; discriminate.
  - apply (proj1 (proj2 (C6_speed_check ex_cap 5))).
    split; vm_compute; discriminate.
Defined.

(** ** The window size *)

(** The loop only looks at the analyzer on windows of [W] frames that have
    the dimensions of the capture. *)
Lemma process_frame_ext (an1 an2 : Danger.Array → Z → Result Z)
    (cap : VideoCapture) (W : Z) (f : Frame) (st : loop_state) :
  (∀ fs fr, Z.of_nat (length fs) = W →
     an1 (Danger.mkArray (CAP_PROP_FRAME_HEIGHT cap) (CAP_PROP_FRAME_WIDTH cap) fs) fr
     = an2 (Danger.mkArray (CAP_PROP_FRAME_HEIGHT cap) (CAP_PROP_FRAME_WIDTH cap) fs) fr) →
  process_frame an1 cap W f st = process_frame an2 cap W f st.
Proof.
  intros Hext. unfold process_frame.
  destruct (RedFSM.add_frame _ _) as [red|e]; [|done]. cbn [bind].
  destruct (Z.eqb_spec (Z.of_nat (length (deque_append W (frame_buffer st) (hls f)))) W)
    as [Hlen|Hlen]; [|done].
  by rewrite Hext.
Qed.

Lemma run_ext (an1 an2 : Danger.Array → Z → Result Z)
    (cap : VideoCapture) (W : Z) (stream : list Frame) (st : loop_state) (k : nat) :
  (∀ fs fr, Z.of_nat (length fs) = W →
     an1 (Danger.mkArray (CAP_PROP_FRAME_HEIGHT cap) (CAP_PROP_FRAME_WIDTH cap) fs) fr
     = an2 (Danger.mkArray (CAP_PROP_FRAME_HEIGHT cap) (CAP_PROP_FRAME_WIDTH cap) fs) fr) →
  run an1 cap W stream st k = run an2 cap W stream st k.
Proof.
  intros Hext. revert st k. induction stream as [|f stream IH]; intros st k; simpl; [done|].
  rewrite (process_frame_ext an1 an2) by done.
  destruct (bind (progress cap st) _); [apply IH|done].
Qed.

Lemma detect_flashes_with_ext (an1 an2 : Danger.Array → Z → Result Z)
    (cap : VideoCapture) (speed : Q) :
  (∀ fs fr,
     Z.of_nat (length fs) = window_size (CAP_PROP_FPS cap) speed →
     an1 (Danger.mkArray (CAP_PROP_FRAME_HEIGHT cap) (CAP_PROP_FRAME_WIDTH cap) fs) fr
     = an2 (Danger.mkArray (CAP_PROP_FRAME_HEIGHT cap) (CAP_PROP_FRAME_WIDTH cap) fs) fr) →
  detect_flashes_with an1 cap speed = detect_flashes_with an2 cap speed.
Proof.
  intros Hext. unfold detect_flashes_with.
  destruct (_ || _); [done|]. destruct (_ || _); [done|].
  destruct (is_opened cap); [|done]. by rewrite (run_ext an1 an2).
Qed.

Lemma py_int_floor (x : Q) : (0 <= x)%Q → py_int x = Qfloor x.
Proof.
  intros Hx. unfold py_int, Qfloor. destruct x as [num den]. simpl.
  apply Z.quot_div_nonneg; [|lia].
  unfold Qle in Hx. simpl in Hx. lia.
Qed.

Lemma deque_append_length {X : Type} (m : Z) (d : list X) (x : X) :
  (Z.of_nat (length d) ≤ m)%Z → (Z.of_nat (length (deque_append m d x)) ≤ m)%Z.
Proof.
  intros Hd. unfold deque_append.
  destruct (Z.eqb_spec m 0); [done|].
  destruct (Z.eqb_spec (Z.of_nat (length d)) m).
  - rewrite length_app, length_drop. simpl. lia.
  - rewrite length_app. simpl. lia.
Qed.




(** ** The returned intervals *)

Lemma window_nonpos (fps : Z) (speed : Q) :
  (fps ≤ 0)%Z → (0 < speed)%Q → (window_size fps speed ≤ 0)%Z.
Proof.
  intros Hfps Hspeed. unfold window_size, py_int.
  destruct speed as [num den]. unfold Qlt in Hspeed. simpl in *.
  rewrite <- (Z.quot_0_l (Z.pos den)) by lia.
  apply Z.quot_le_mono; [lia|]. nia.
Qed.

Lemma run_no_window (an : Danger.Array → Z → Result Z) (cap : VideoCapture)
    (stream : list Frame) (st st' : loop_state) (k : nat) :
  result (run an cap 0 stream st k) ≠ Ok st'.
Proof.
  revert st k. induction stream as [|f stream IH]; intros st k; simpl.
  - by intros (_ & _ & ?)%bind_Ok.
  - destruct (bind (progress cap st) _); [apply IH|done].
Qed.

Lemma loop_inv_start (fps : Z) (red : RedFSM.Buffer) :
  loop_inv fps (mkLoop [] red 0 (-1) []).
Proof. split_and!; [done|by left|constructor|constructor]. Qed.

Lemma detect_flashes_with_apart (an : Danger.Array → Z → Result Z)
    (cap : VideoCapture) (speed : Q) (ts : list (Q * Q)) :
  result (detect_flashes_with an cap speed) = Ok ts →
  separated 3 ts ∧ Forall (λ a, (a.1 < a.2 + 2)%Q) ts.
Proof.
  unfold detect_flashes_with.
  destruct (Qltb 5 speed || Qltb speed (2 # 10)) eqn:Hspeed; [done|].
  apply orb_false_iff in Hspeed as [_ Hlo%Qltb_ge].
  destruct (_ || _) eqn:Hdims; [done|].
  apply orb_false_iff in Hdims as [[HW%Z.ltb_ge _]%orb_false_iff _].
  cbn [result reads]. intros (st & Hrun & [= <-])%bind_Ok.
  apply merge_spaced.
  destruct (is_opened cap).
  2:{ injection Hrun as <-. constructor. }
  destruct (Z.lt_ge_cases 0 (CAP_PROP_FPS cap)) as [Hfps|Hfps].
  - apply run_inv in Hrun as (_ & _ & Hsp & _); [done..|]. apply loop_inv_start.
  - assert (window_size (CAP_PROP_FPS cap) speed = 0%Z) as HW0.
    { pose proof (window_nonpos (CAP_PROP_FPS cap) speed Hfps ltac:(Lqa.lra)). lia. }
    rewrite HW0 in Hrun. by apply run_no_window in Hrun.
Qed.


Lemma ex_cap_run :
  detect_flashes ex_cap 1 = mkOutcome 7 (Ok [(11 # 4, 5 # 4)%Q]).
Proof.
  unfold detect_flashes.
  rewrite (detect_flashes_with_ext _ (λ a _, Danger.process_dangerous_from 4 a)).
  - vm_compute. reflexivity.
  - intros fs fr _. by apply process_dangerous_square.
Qed.



End Detector_facts.

(** * The skip-ahead of pass 2, and the scaling of the viewport *)

Section Examples_facts.
Import Danger RegionShape DangerSpec.

(** Claim C2, evaluated on the code.  On the window of four frames of
    lightness 255, 0, 255, 255 (one tile), [process_dangerous] returns 3:
    the frame pair (1, 2) is counted once after the skip from the pair
    (0, 1) and once more when the outer loop reaches frame 1.  The scan
    that advances [i] to [j] and restarts, as the claim words it, counts
    2. *)
Theorem C2_pair_counted_twice :
  precalculate ex_window 1 4 4
    = [[[Some (4080 # 16)]]; [[Some (0 # 16)]]; [[Some (4080 # 16)]];
       [[Some (4080 # 16)]]]
  ∧ process_dangerous ex_window 4 = Ok 3%Z
  ∧ detect_changes_spec 16 (precalculate ex_window 1 4 4) 4 1 = Some 2%Z.
Proof.
  split_and!.
  - vm_compute. reflexivity.
  - unfold ex_window. rewrite process_dangerous_square by lia.
    vm_compute. reflexivity.
  - vm_compute. reflexivity.
Qed.

Lemma C7_identical_frames_witness :
  (0 < 4)%Z ∧ (0 < 4)%Z
  ∧ process_dangerous (mkArray 4 4 (replicate 5 (gray_frame 255))) 30 = Ok 0%Z.
Proof.
  assert (H4 : (0 < 4)%Z) by lia.
  split; [exact H4|]. split; [exact H4|].
  exact (C7_identical_frames (gray_frame 255) 5 4 4 30 H4 H4).
Defined.

Lemma square_side_unit : square_side 1 1 1 100 45 = 200%Z.
Proof.
  rewrite square_side_diagonal by (lia || lra).
  replace (45 * PI / 180)%R with (PI / 4)%R by lra. rewrite tan_PI4.
  change (1 ^ 2 + 1 ^ 2)%Z with 2%Z.
  apply Zceil_eq. pose proof sqrt2_sqr. simpl. nra.
Qed.

(** Claim C9, amended.  For a positive resolution and diagonal,
    doubling the resolution and the physical diagonal of the screen leaves
    the side of the square viewport in pixels unchanged. *)
Theorem C9_square_side_scaling (H W : Z) (D V theta : R) :
  (0 < H)%Z → (0 < W)%Z → (0 < D)%R →
  square_side (2 * H) (2 * W) (2 * D) V theta = square_side H W D V theta.
Proof. intros _ _ _. apply square_side_double. Qed.

Lemma C9_square_side_scaling_witness :
  (0 < 1)%Z ∧ (0 < 1)%Z ∧ (0 < 1)%R
  ∧ square_side (2 * 1) (2 * 1) (2 * 1) 100 45 = square_side 1 1 1 100 45.
Proof.
  assert (HZ : (0 < 1)%Z) by lia.
  assert (HR : (0 < 1)%R) by lra.
  split; [exact HZ|]. split; [exact HZ|]. split; [exact HR|].
  exact (C9_square_side_scaling 1 1 1 100 45 HZ HZ HR).
Defined.

Lemma C9_counterexample :
  square_side (2 * 1) (2 * 1) (2 * 1) 100 45 = 200%Z
  ∧ (2 * square_side 1 1 1 100 45 = 400)%Z
  ∧ ¬ (Z.abs (square_side (2 * 1) (2 * 1) (2 * 1) 100 45
              - 2 * square_side 1 1 1 100 45) ≤ 2)%Z.
Proof.
  rewrite square_side_double, square_side_unit. split_and!; [done|done|lia].
Qed.

End Examples_facts.

(** * Further properties of the red-flash buffer *)

Section FSMExtra_facts.
Import RedFSM BufferSpec FSMExtra.

Lemma propagate_bump (c : coord) (r : Q) (changed : state_set)
    (st : state_id * ChromaticityChecker) :
  propagate c r changed st = foldl (bump c) changed (successors c r st).
Proof.
  destruct st as [[nm i] ck]. unfold propagate, successors.
  destruct nm; repeat (destruct (should_transition _ _ _ _)); reflexivity.
Qed.

Lemma foldl_propagate_bump (c : coord) (r : Q)
    (l : list (state_id * ChromaticityChecker)) (changed : state_set) :
  foldl (propagate c r) changed l
  = foldl (bump c) changed (l ≫= successors c r).
Proof.
  revert changed. induction l as [|st l IH]; intros changed; [done|].
  csimpl. rewrite foldl_app, <- propagate_bump. apply IH.
Qed.

Lemma bump_lookup (c : coord) (m : state_set) (k k' : state_id) :
  bump c m k !! k' =
    if decide (k' = k)
    then Some (default [] (m !! k) ++ [c])
    else m !! k'.
Proof.
  unfold bump, update_or_add_state, State_init, id_of, push.
  cbn [name idx chromaticity_checker]. destruct k as [nm i]. cbn [fst snd].
  destruct (m !! (nm, i)) as [ck|] eqn:Hm; case_decide; subst;
    by rewrite ?lookup_insert_eq, ?lookup_insert_ne.
Qed.

Lemma foldl_bump_lookup (c : coord) (ks : list state_id) (m : state_set)
    (k : state_id) :
  foldl (bump c) m ks !! k =
    match occurrences k ks with
    | O => m !! k
    | S _ => Some (default [] (m !! k) ++ replicate (occurrences k ks) c)
    end.
Proof.
  revert m. induction ks as [|k0 ks IH]; intros m; [done|].
  cbn [foldl]. rewrite IH, bump_lookup. unfold occurrences.
  rewrite filter_cons. case_decide as Hk.
  - subst k0. rewrite decide_True by done. cbn [length default].
    destruct (length (filter _ ks)) as [|n'] eqn:Hn.
    + done.
    + unfold Datatypes.id. by rewrite <- app_assoc.
  - rewrite decide_False by done. done.
Qed.


Lemma occurrences_perm (k : state_id) (ks ks' : list state_id) :
  ks ≡ₚ ks' → occurrences k ks = occurrences k ks'.
Proof. intros Hp. unfold occurrences. by rewrite Hp. Qed.

Lemma occurrences_pos (k : state_id) (ks : list state_id) :
  occurrences k ks ≠ 0 ↔ k ∈ ks.
Proof.
  unfold occurrences. rewrite length_zero_iff_nil. split.
  - intros Hne. destruct (filter _ ks) as [|k' l] eqn:Hf; [done|].
    assert (Hin : k' ∈ filter (λ k', k' = k) ks) by (rewrite Hf; left).
    by apply list_elem_of_filter in Hin as [-> ?].
  - intros Hin Hnil.
    assert (Hk : k ∈ filter (λ k', k' = k) ks) by by apply list_elem_of_filter.
    rewrite Hnil in Hk. by apply elem_of_nil in Hk.
Qed.

Lemma successors_spec (c : coord) (r : Q) (nm : state_name) (i : Z)
    (ck : ChromaticityChecker) (k : state_id) :
  k ∈ successors c r ((nm, i), ck) → k.2 = i ∧ next_name nm k.1.
Proof.
  unfold successors.
  destruct nm; repeat (destruct (should_transition _ _ _ _)); cbn [app];
    rewrite ?elem_of_cons, ?elem_of_nil; intros H;
    repeat (destruct H as [H|H]); subst; done.
Qed.

(** The state set after a step, key by key. *)
Lemma state_machine_lookup_full (i : Z) (states : state_set) (c : coord)
    (r : Q) (k : state_id) :
  state_machine i states c r !! k =
    if decide (k = (start_name r, i)) then Some [c]
    else match occurrences k (map_to_list states ≫= successors c r) with
         | O => None
         | S n => Some (replicate (S n) c)
         end.
Proof.
  rewrite state_machine_lookup. case_decide; [done|].
  rewrite foldl_propagate_bump, foldl_bump_lookup, lookup_empty.
  by destruct (occurrences _ _).
Qed.

(** Property X1. Region.state_machine gives the same new state set whatever
    the order in which the loop over self.states (a Python set) visits the
    states: running the loop body over any permutation of the elements of
    the set and then adding the start state yields the same states with the
    same checker contents. *)
Theorem state_machine_order_irrelevant (i : Z) (states : state_set)
    (c : coord) (r : Q) (l : list (state_id * ChromaticityChecker)) :
  l ≡ₚ map_to_list states →
  add_start_state c r i (foldl (propagate c r) ∅ l) = state_machine i states c r.
Proof.
  intros Hperm. apply map_eq. intros k.
  assert (Hocc : ∀ k', occurrences k' (l ≫= successors c r)
                       = occurrences k' (map_to_list states ≫= successors c r)).
  { intros k'. apply occurrences_perm. by rewrite Hperm. }
  assert (Hlook : ∀ k', foldl (propagate c r) ∅ l !! k'
                        = foldl (propagate c r) ∅ (map_to_list states) !! k').
  { intros k'. rewrite !foldl_propagate_bump, !foldl_bump_lookup, Hocc. done. }
  unfold state_machine.
  rewrite !add_start_state_lookup; [by rewrite Hlook| |].
  - apply changed_fresh.
  - rewrite Hlook. apply changed_fresh.
Qed.


Lemma next_name_age (a b : state_name) : next_name a b → age b = (age a + 1)%Z.
Proof. by destruct a, b. Qed.

(** The origins of the states after a step, from those before it. *)
Lemma state_machine_ages (i : Z) (states : state_set) (c : coord) (r : Q) :
  (∀ nm k, is_Some (states !! (nm, k)) → k = (i - age nm)%Z) →
  ∀ nm k, is_Some (state_machine i states c r !! (nm, k)) →
          k = (i + 1 - age nm)%Z.
Proof.
  intros Hold nm k. rewrite state_machine_lookup_full. case_decide as Hstart.
  - injection Hstart as -> ->. intros _.
    destruct (start_name_cases r) as [-> | ->]; simpl; lia.
  - destruct (occurrences _ _) eqn:Hocc; [by intros []|]. intros _.
    assert (Hin : (nm, k) ∈ map_to_list states ≫= successors c r)
      by (apply occurrences_pos; lia).
    apply list_elem_of_bind in Hin as ([[nm0 k0] ck] & Hsucc & Hst).
    apply successors_spec in Hsucc as [Hk Hnext]. simpl in Hk, Hnext. subst k0.
    apply elem_of_map_to_list in Hst.
    rewrite (next_name_age nm0 nm Hnext).
    rewrite (Hold nm0 k) by eauto. lia.
Qed.

Lemma evict_subset (i nf : Z) (ss : state_set) (k : state_id) :
  is_Some (evict i nf ss !! k) → is_Some (ss !! k).
Proof.
  unfold evict. destruct (0 <=? i - nf)%Z; [|done]. destruct k as [nm o].
  rewrite remove_states_lookup. by case_decide; [intros []|].
Qed.

Lemma Buffer_init_regions (nf : Z) (size : nat) (fr : Z) (p : nat * nat)
    (ss : state_set) :
  regions (Buffer_init nf size fr) !! p = Some ss → ss = ∅.
Proof.
  intros Hl. apply elem_of_list_to_map_2 in Hl.
  apply list_elem_of_bind in Hl as (i & Hl & _).
  apply list_elem_of_bind in Hl as (j & Hl & _).
  by apply list_elem_of_singleton in Hl as [= _ ->].
Qed.

Lemma reachable_params (nf : Z) (size : nat) (fr : Z) (b : Buffer) :
  reachable nf size fr b →
  num_frames b = nf ∧ n b = size ∧ frame_rate b = fr ∧ wf_buffer b.
Proof.
  induction 1 as [|b frame b' Hb (Hnf & Hn & Hfr & Hwf) Hadd].
  - split_and!; [done..|]. apply Buffer_init_wf.
  - pose proof (add_frame_wf b frame b' Hwf Hadd).
    apply add_frame_Ok in Hadd as (_ & -> & -> & -> & _). done.
Qed.

(** In a buffer built by [add_frame], the name of a state fixes how many
    frames ago it originated. *)
Lemma reachable_aged (nf : Z) (size : nat) (fr : Z) (b : Buffer)
    (p : nat * nat) (ss : state_set) (nm : state_name) (k : Z) :
  reachable nf size fr b → p ∈ grid (n b) →
  regions b !! p = Some ss → is_Some (ss !! (nm, k)) →
  k = (buf_idx b - age nm)%Z.
Proof.
  intros Hreach. revert p ss nm k.
  induction Hreach as [|b frame b' Hb IH Hadd]; intros p ss nm k Hp Hss Hk.
  - apply Buffer_init_regions in Hss as ->. rewrite lookup_empty in Hk.
    by destruct Hk.
  - apply add_frame_Ok in Hadd as (-> & _ & Hn & _ & _ & Hin & _).
    rewrite Hn in Hp. destruct (Hin p Hp) as (ss0 & Hstep & Hss0).
    rewrite Hss in Hss0. injection Hss0 as ->. apply evict_subset in Hk.
    unfold stepped, step_region in Hstep.
    destruct (regions b !! p) as [ssb|] eqn:Hssb; [|done].
    destruct (index2 frame p.1 p.2) as [[[u v] r]|]; [|done].
    injection Hstep as <-.
    apply (state_machine_ages (buf_idx b) ssb (u, v) r); [|done].
    intros nm0 k0. by apply (IH p ssb).
Qed.

Lemma keys_bound (ss : state_set) (L : list state_id) :
  (∀ key, is_Some (ss !! key) → key ∈ L) → size ss ≤ length L.
Proof.
  intros Hin. rewrite <- length_map_to_list.
  rewrite <- (length_fmap fst (map_to_list ss)).
  apply submseteq_length, NoDup_submseteq; [apply NoDup_fst_map_to_list|].
  intros key ([k v] & -> & Hkv)%list_elem_of_fmap.
  apply elem_of_map_to_list in Hkv. apply Hin. simpl. eauto.
Qed.

(** The states named [A] and [B] of a region are the start state of the
    last frame. *)
Lemma reachable_start (nf : Z) (size : nat) (fr : Z) (b : Buffer)
    (p : nat * nat) (ss : state_set) :
  reachable nf size fr b → p ∈ grid (n b) → regions b !! p = Some ss →
  ∃ nm0, ∀ nm k, (nm = A ∨ nm = B) → is_Some (ss !! (nm, k)) → nm = nm0.
Proof.
  intros Hreach Hp Hss. destruct Hreach as [|b frame b' Hb Hadd].
  - apply Buffer_init_regions in Hss as ->. exists A. intros nm k _.
    rewrite lookup_empty. by intros [].
  - apply add_frame_Ok in Hadd as (_ & _ & Hn & _ & _ & Hin & _).
    rewrite Hn in Hp. destruct (Hin p Hp) as (ss0 & Hstep & Hss0).
    rewrite Hss in Hss0. injection Hss0 as ->.
    unfold stepped, step_region in Hstep.
    destruct (regions b !! p) as [ssb|]; [|done].
    destruct (index2 frame p.1 p.2) as [[[u v] r]|]; [|done].
    injection Hstep as <-. exists (start_name r). intros nm k Hnm Hk.
    apply evict_subset, state_machine_keys in Hk as [[= -> _]|(HA & HB & _)];
      [done|]. simpl in HA, HB. by destruct Hnm.
Qed.

(** Property X2. In a buffer built from Buffer(num_frames, n, frame_rate) by
    calls of add_frame, every region of the grid holds at most four states,
    and the name of a state fixes its origin: a state named A or B has idx =
    buffer.idx - 1, a state named C or D has idx = buffer.idx - 2, and a
    state named E has idx = buffer.idx - 3. *)
Theorem reachable_region_states (nf : Z) (size : nat) (fr : Z) (b : Buffer)
    (p : nat * nat) (ss : state_set) :
  reachable nf size fr b → p ∈ grid (n b) → regions b !! p = Some ss →
  (∀ nm k, is_Some (ss !! (nm, k)) → k = (buf_idx b - age nm)%Z)
  ∧ stdpp.base.size ss ≤ 4.
Proof.
  intros Hreach Hp Hss.
  assert (Hage : ∀ nm k, is_Some (ss !! (nm, k)) → k = (buf_idx b - age nm)%Z).
  { intros nm k. by apply (reachable_aged nf size fr b p ss). }
  split; [done|].
  destruct (reachable_start nf size fr b p ss Hreach Hp Hss) as [nm0 Hstart].
  apply (keys_bound ss [(nm0, (buf_idx b - 1)%Z); (C, (buf_idx b - 2)%Z);
                        (D, (buf_idx b - 2)%Z); (E, (buf_idx b - 3)%Z)]).
  intros [nm k] Hk. rewrite (Hage nm k Hk). rewrite !elem_of_cons.
  destruct nm; simpl; [left|left|right; left|right; right; left|
                       right; right; right; left]; try done.
  - f_equal. apply (Hstart A k); [by left|done].
  - f_equal. apply (Hstart B k); [by right|done].
Qed.

(** Property X3. After add_frame(frame) has returned, the checker of every
    state of region (i, j), for i, j < n, is non-empty and holds only copies
    of the chromaticity (u, v) of frame[i][j]: no coordinate of an earlier
    frame survives a step of the state machine. *)
Theorem add_frame_checkers (b : Buffer) (frame : chroma_frame) (b' : Buffer)
    (i j : nat) (u v r : Q) (ss : state_set) (key : state_id)
    (ck : ChromaticityChecker) :
  add_frame b frame = Ok b' → i < n b → j < n b →
  index2 frame i j = Ok (u, v, r) →
  regions b' !! (i, j) = Some ss → ss !! key = Some ck →
  ∃ m, ck = replicate (S m) (u, v).
Proof.
  intros Hadd Hi Hj Hsmp Hss Hck.
  apply add_frame_Ok in Hadd as (_ & _ & _ & _ & _ & Hin & _).
  destruct (Hin (i, j)) as (ss0 & Hstep & Hss0); [by apply elem_of_grid|].
  rewrite Hss in Hss0. injection Hss0 as ->.
  assert (Hsome : is_Some (ss0 !! key)) by (eapply evict_subset; eauto).
  assert (Hsame : ss0 !! key = Some ck).
  { destruct Hsome as [ck' Hck']. unfold evict in Hck.
    destruct (0 <=? _)%Z; [|done]. unfold remove_states in Hck.
    by apply map_lookup_filter_Some in Hck as [? _]. }
  unfold stepped, step_region in Hstep. cbn [fst snd] in Hstep.
  rewrite Hsmp in Hstep. destruct (regions b !! (i, j)) as [ssb|]; [|done].
  injection Hstep as <-. rewrite state_machine_lookup_full in Hsame.
  case_decide; [injection Hsame as <-; by exists 0|].
  destruct (occurrences _ _) as [|m]; [done|]. injection Hsame as <-. by exists m.
Qed.


(** Property X4. In a buffer built from Buffer(num_frames, n, frame_rate)
    with num_frames >= 1 by calls of add_frame, every state of every region
    of the grid has an origin idx with 0 <= idx and buffer.idx - num_frames
    < idx < buffer.idx: no state that originates outside the sliding window
    survives. *)
Theorem reachable_window (nf : Z) (size : nat) (fr : Z) (b : Buffer)
    (p : nat * nat) (ss : state_set) (nm : state_name) (k : Z) :
  reachable nf size fr b → (1 ≤ nf)%Z → p ∈ grid (n b) →
  regions b !! p = Some ss → is_Some (ss !! (nm, k)) →
  (0 ≤ k ∧ buf_idx b - nf < k < buf_idx b)%Z.
Proof.
  intros Hreach Hnf. revert p ss nm k.
  induction Hreach as [|b frame b' Hb IH Hadd]; intros p ss nm k Hp Hss Hk.
  - apply Buffer_init_regions in Hss as ->. rewrite lookup_empty in Hk.
    by destruct Hk.
  - pose proof (reachable_params _ _ _ _ Hb) as (Hnfb & _ & _ & Hidx & _).
    apply add_frame_Ok in Hadd as (-> & _ & Hn & _ & _ & Hin & _).
    rewrite Hn in Hp. destruct (Hin p Hp) as (ss0 & Hstep & Hss0).
    rewrite Hss in Hss0. injection Hss0 as ->.
    unfold stepped, step_region in Hstep.
    destruct (regions b !! p) as [ssb|] eqn:Hssb; [|done].
    destruct (index2 frame p.1 p.2) as [[[u v] r]|]; [|done].
    injection Hstep as <-.
    assert (Hstepped : (0 ≤ k ∧ buf_idx b - nf < k < buf_idx b + 1)%Z).
    { apply evict_subset in Hk.
      apply state_machine_keys in Hk as [[= _ ->]|(_ & _ & nm0 & Hk0)]; [lia|].
      cbn [snd] in Hk0. specialize (IH p ssb nm0 k Hp Hssb Hk0). lia. }
    unfold evict in Hk. rewrite Hnfb in Hk.
    destruct (Z.leb_spec 0 (buf_idx b + 1 - nf)).
    + rewrite remove_states_lookup in Hk. case_decide; [by destruct Hk|]. lia.
    + lia.
Qed.

Lemma flash_idx_origin (ss : state_set) :
  flash_idx ss = (-1)%Z ∨ is_Some (ss !! (E, flash_idx ss)).
Proof.
  unfold flash_idx.
  destruct (List.find _ (map_to_list ss)) as [[[nm i] ck]|] eqn:Hfind; [|by left].
  apply find_some in Hfind as [Hin Hnm]. simpl in Hnm.
  apply bool_decide_eq_true in Hnm as ->.
  apply list_elem_of_In, elem_of_map_to_list in Hin. right. simpl. eauto.
Qed.

(** Property X5. In a buffer built by calls of add_frame, the value that
    Region.flash_idx() takes right after the state-machine step of add_frame
    is -1 or buffer.idx - 2 (buffer.idx read before its increment): a red
    flash that is reported always began exactly two frames before the frame
    being added. *)
Theorem reachable_flash_idx (nf : Z) (size : nat) (fr : Z) (b : Buffer)
    (frame : chroma_frame) (p : nat * nat) (ss : state_set) :
  reachable nf size fr b → p ∈ grid (n b) → stepped b frame p = Some ss →
  flash_idx ss = (-1)%Z ∨ flash_idx ss = (buf_idx b - 2)%Z.
Proof.
  intros Hreach Hp Hstep.
  destruct (flash_idx_origin ss) as [?|HE]; [by left|]. right.
  unfold stepped, step_region in Hstep.
  destruct (regions b !! p) as [ssb|] eqn:Hssb; [|done].
  destruct (index2 frame p.1 p.2) as [[[u v] r]|]; [|done].
  injection Hstep as <-.
  apply state_machine_ages in HE; [simpl in HE; lia|].
  intros nm k. by apply (reachable_aged nf size fr b p ssb).
Qed.


(** The body of the loops of [add_frame] on a region that gets a sample. *)
Lemma region_body_cases (b : Buffer) (frame : chroma_frame) (i j : nat)
    (rs : gmap (nat * nat) state_set) (st : list (Q * Q)) (ss : state_set) :
  step_region (buf_idx b) frame rs (i, j) = Some ss →
  region_body b frame i j (rs, st) =
    if bool_decide (flash_idx ss ≠ (-1)%Z)
    then if (frame_rate b =? 0)%Z then Err ZeroDivisionError
         else Ok (<[(i, j) := ss]> rs,
                  st ++ [flash_stamp (frame_rate b) (i, j)])
    else Ok (<[(i, j) := ss]> rs, st).
Proof.
  unfold step_region, region_body, region_at. cbn [fst snd].
  destruct (rs !! (i, j)) as [ss0|]; [|done].
  destruct (index2 frame i j) as [[[u v] r]|]; [|done]. intros [= <-].
  cbn [bind]. case_bool_decide; [|done].
  unfold py_truediv. by destruct (frame_rate b =? 0)%Z.
Qed.

Lemma step_region_insert (i : Z) (frame : chroma_frame)
    (rs : gmap (nat * nat) state_set) (p q : nat * nat) (ss : state_set) :
  p ≠ q → step_region i frame (<[p := ss]> rs) q = step_region i frame rs q.
Proof. intros Hne. unfold step_region. by rewrite lookup_insert_ne. Qed.

(** The loops of [add_frame] with a frame rate of 0: they end with the
    division of the first region that flashes. *)
Lemma add_frame_loop_zero_rate (b : Buffer) (frame : chroma_frame)
    (ps : list (nat * nat)) (rs : gmap (nat * nat) state_set) (st : list (Q * Q)) :
  NoDup ps → frame_rate b = 0%Z →
  (∀ p, p ∈ ps → is_Some (step_region (buf_idx b) frame rs p)) →
  (Exists (λ p, flashed (step_region (buf_idx b) frame rs p)) ps →
     for_each ps (λ p acc, region_body b frame p.1 p.2 acc) (rs, st)
     = Err ZeroDivisionError)
  ∧ (¬ Exists (λ p, flashed (step_region (buf_idx b) frame rs p)) ps →
     ∃ rs', for_each ps (λ p acc, region_body b frame p.1 p.2 acc) (rs, st)
            = Ok (rs', st)
            ∧ ∀ p, p ∈ ps → is_Some (rs' !! p)).
Proof.
  intros Hnd Hfr. revert rs.
  induction Hnd as [|[i j] ps Hnotin Hnd IH]; intros rs Hall.
  - split; [by intros ?%Exists_nil|]. intros _. exists rs. split; [done|].
    intros p Hp. by apply elem_of_nil in Hp.
  - destruct (Hall (i, j)) as [ss Hss]; [left|].
    assert (Hsame : ∀ q, q ∈ ps →
              step_region (buf_idx b) frame (<[(i, j) := ss]> rs) q
              = step_region (buf_idx b) frame rs q).
    { intros q Hq. apply step_region_insert. by intros <-. }
    assert (Hall' : ∀ q, q ∈ ps →
              is_Some (step_region (buf_idx b) frame (<[(i, j) := ss]> rs) q)).
    { intros q Hq. rewrite Hsame by done. apply Hall. by right. }
    assert (Hex : Exists (λ p, flashed (step_region (buf_idx b) frame
                                          (<[(i, j) := ss]> rs) p)) ps
                  ↔ Exists (λ p, flashed (step_region (buf_idx b) frame rs p)) ps).
    { rewrite !Exists_exists. split; intros (q & Hq & Hf); exists q;
        (split; [done|]); [by rewrite <- Hsame|by rewrite Hsame]. }
    destruct (IH (<[(i, j) := ss]> rs) Hall') as [IHerr IHok].
    cbn [for_each fst snd]. rewrite (region_body_cases b frame i j rs st ss Hss).
    rewrite Hfr. cbn [Z.eqb]. rewrite Exists_cons, Hss. cbn [flashed].
    case_bool_decide as Hflash; cbn [bind].
    + split; [done|]. intros Hno. destruct Hno. by left.
    + split.
      * intros [Hf|Hf]; [done|].
        apply IHerr. by apply Hex.
      * intros Hno. destruct IHok as (rs' & Hrun & Hkeys).
        { intros Hf. apply Hno. right. by apply Hex. }
        exists rs'. split; [done|]. intros p [->|Hp]%elem_of_cons; [|by apply Hkeys].
        apply add_frame_loop in Hrun as (_ & Hout & _); [|done].
        rewrite Hout by done. rewrite lookup_insert_eq. eauto.
Qed.


Lemma flashed_reached_E (b : Buffer) (frame : chroma_frame) (p : nat * nat) :
  wf_buffer b → frame_covers (n b) frame → p ∈ grid (n b) →
  flashed (stepped b frame p) ↔ region_reached_E b frame p.
Proof.
  intros Hwf Hcov Hp.
  destruct (stepped_wf b frame p Hwf Hcov Hp) as (ss & Hss & Hor).
  unfold region_reached_E. rewrite Hss. cbn [flashed].
  rewrite <- flash_idx_has_E.
  - split; [apply bool_decide_unpack|apply bool_decide_pack].
  - intros nm k Hk. apply Hor in Hk. lia.
Qed.


Lemma bind_Err {X Y : Type} (m : Result X) (k : X → Result Y) (e : exn) :
  bind m k = Err e ↔ m = Err e ∨ ∃ x, m = Ok x ∧ k x = Err e.
Proof.
  destruct m as [x|e']; simpl; split.
  - eauto.
  - by intros [?|(? & [= ->] & ?)].
  - intros [= ->]. by left.
  - by intros [[= ->]|(? & ? & ?)].
Qed.

Lemma for_each_Err {S X : Type} (P : exn → Prop) (xs : list X)
    (body : X → S → Result S) (s : S) (e : exn) :
  (∀ x s e, body x s = Err e → P e) → for_each xs body s = Err e → P e.
Proof.
  intros Hbody. revert s. induction xs as [|x xs IH]; intros s; simpl; [done|].
  intros [Hx|(s' & _ & Hrest)]%bind_Err; [by eapply Hbody|by eapply IH].
Qed.

(** The exceptions of [add_frame]. *)
Lemma add_frame_errors (b : Buffer) (frame : chroma_frame) (e : exn) :
  add_frame b frame = Err e →
  e = IndexError ∨ (e = ZeroDivisionError ∧ frame_rate b = 0%Z).
Proof.
  set (P := λ e : exn, e = IndexError ∨ (e = ZeroDivisionError ∧ frame_rate b = 0%Z)).
  change (add_frame b frame = Err e → P e).
  unfold add_frame. intros [Hloop|([rs st] & _ & Hrest)]%bind_Err.
  - revert Hloop. apply (for_each_Err P). intros i acc e'. apply (for_each_Err P).
    intros j [rs st] e''. unfold region_body, index2, region_at.
    destruct (frame !! i) as [line|]; [|intros [= <-]; by left].
    destruct (line !! j) as [[[u v] r]|]; [|intros [= <-]; by left]. cbn [bind].
    destruct (rs !! (i, j)); [|intros [= <-]; by left]. cbn [bind].
    case_bool_decide; [|done]. unfold py_truediv.
    destruct (Z.eqb_spec (frame_rate b) 0); [|done]. intros [= <-]. by right.
  - cbn [buf_idx num_frames] in Hrest. destruct (0 <=? _)%Z; [|done].
    unfold remove_frame in Hrest.
    apply bind_Err in Hrest as [Hloop|(? & _ & ?)]; [|done].
    revert Hloop. apply (for_each_Err P). intros i acc e'. apply (for_each_Err P).
    intros j rs' e''. unfold region_at. cbn [regions].
    destruct (rs' !! (i, j)); [done|]. intros [= <-]. by left.
Qed.

(** Property X7. With a non-zero frame rate, add_frame raises IndexError
    whenever the frame has no entry frame[i][j] for some i, j < n, whatever
    the buffer holds. *)
Theorem add_frame_short_frame (b : Buffer) (frame : chroma_frame) :
  frame_rate b ≠ 0%Z → ¬ frame_covers (n b) frame →
  add_frame b frame = Err IndexError.
Proof.
  intros Hfr Hshort. destruct (add_frame b frame) as [b'|e] eqn:Hadd.
  - destruct Hshort. intros i j Hi Hj.
    apply add_frame_Ok in Hadd as (_ & _ & _ & _ & _ & Hin & _).
    destruct (Hin (i, j)) as (ss & Hstep & _); [by apply elem_of_grid|].
    unfold stepped, step_region in Hstep. cbn [fst snd] in Hstep.
    destruct (regions b !! (i, j)); [|done].
    destruct (index2 frame i j) as [smp|]; [eauto|done].
  - by apply add_frame_errors in Hadd as [->|[_ ?]].
Qed.

Lemma length_pairs (l1 l2 : list nat) :
  length (i ← l1; j ← l2; [(i, j)]) = length l1 * length l2.
Proof.
  induction l1 as [|i l1 IH]; [done|]. csimpl. rewrite length_app, IH. f_equal.
  clear. induction l2 as [|j l2 IH]; [done|]. csimpl. by rewrite IH.
Qed.

Lemma length_grid (size : nat) : length (grid size) = size * size.
Proof. unfold grid, range. by rewrite length_pairs, length_seq. Qed.

(** Property X8. When add_frame returns, idx has been incremented by one,
    num_frames, n and frame_rate are unchanged, and red_flash_timestamps is
    its old value followed by at most n * n new entries. *)
Theorem add_frame_bookkeeping (b : Buffer) (frame : chroma_frame) (b' : Buffer) :
  add_frame b frame = Ok b' →
  buf_idx b' = (buf_idx b + 1)%Z
  ∧ num_frames b' = num_frames b ∧ n b' = n b ∧ frame_rate b' = frame_rate b
  ∧ ∃ new, red_flash_timestamps b' = red_flash_timestamps b ++ new
           ∧ length new ≤ n b * n b.
Proof.
  intros (Hi & Hnf & Hn & Hfr & Hts & _)%add_frame_Ok.
  split_and!; [done..|]. eexists. split; [exact Hts|].
  unfold new_stamps. rewrite length_map, <- length_grid.
  apply List.filter_length_le.
Qed.

(** Property X9. When remove_frame(idx) returns, every region of the grid
    has lost exactly its states of origin idx and kept every other state
    with its checker; a second call remove_frame(idx) changes nothing. *)
Theorem remove_frame_exact (b : Buffer) (out : Z) (b' : Buffer) :
  remove_frame b out = Ok b' →
  (∀ p, p ∈ grid (n b) →
     ∃ ss ss', regions b !! p = Some ss ∧ regions b' !! p = Some ss'
               ∧ ∀ (nm : state_name) (k : Z),
                   ss' !! (nm, k) = if decide (k = out) then None else ss !! (nm, k))
  ∧ remove_frame b' out = Ok b'.
Proof.
  intros Hrem. pose proof Hrem as (Hi & Hnf & Hn & Hfr & Hts & Hin & Hout)%remove_frame_Ok.
  split.
  - intros p Hp. destruct (Hin p Hp) as (ss & Hss & Hss'). exists ss, (remove_states out ss).
    split_and!; [done..|]. intros nm k. apply remove_states_lookup.
  - unfold remove_frame. rewrite (for_each_nested _ _ (evict_body out)).
    fold (grid (n b')).
    destruct (remove_loop_total out (grid (n b')) (regions b') (NoDup_grid _))
      as [rs Hrs].
    { intros p Hp. rewrite Hn in Hp. destruct (Hin p Hp) as (ss & _ & ->). eauto. }
    rewrite Hrs. cbn [bind]. f_equal.
    assert (rs = regions b') as ->; [|by destruct b'].
    apply remove_loop in Hrs as [Hin' Hout']; [|apply NoDup_grid].
    apply map_eq. intros p. destruct (decide (p ∈ grid (n b'))) as [Hp|Hp].
    + destruct (Hin' p Hp) as (ss' & Hss' & ->). rewrite Hss'. f_equal.
      rewrite Hn in Hp. destruct (Hin p Hp) as (ss & _ & Hl).
      rewrite Hl in Hss'. injection Hss' as <-.
      apply map_eq. intros [nm k]. rewrite !remove_states_lookup.
      by case_decide.
    + by apply Hout'.
Qed.

(** ** Three consecutive frames *)

Lemma norm_ge_threshold_self (c : coord) : norm_ge_threshold c c = false.
Proof.
  unfold norm_ge_threshold. destruct (Qle_bool _ _) eqn:Hle; [|done].
  apply Qle_bool_iff in Hle.
  assert (Hz : (c.1 - c.1) * (c.1 - c.1) + (c.2 - c.2) * (c.2 - c.2) == 0) by ring.
  rewrite Hz in Hle. by vm_compute in Hle.
Qed.

Lemma is_above_threshold_push (ck : ChromaticityChecker) (c : coord) :
  is_above_threshold (push ck c) c = is_above_threshold ck c.
Proof.
  unfold is_above_threshold, push. rewrite existsb_app. cbn [existsb].
  by rewrite norm_ge_threshold_self, !orb_false_r.
Qed.

Lemma is_above_threshold_replicate (m : nat) (c c' : coord) :
  is_above_threshold (replicate (S m) c) c' = norm_ge_threshold c c'.
Proof.
  unfold is_above_threshold. induction m as [|m IH].
  - cbn. apply orb_false_r.
  - change (replicate (S (S m)) c) with (c :: replicate (S m) c).
    cbn [existsb]. rewrite IH. apply orb_diag.
Qed.

Lemma should_transition_replicate (m : nat) (c c' : coord) (r : Q) (chk : bool) :
  should_transition (push (replicate (S m) c) c') c' r chk
  = (if chk then saturated r else true) && norm_ge_threshold c c'.
Proof.
  unfold should_transition. rewrite is_above_threshold_push, is_above_threshold_replicate.
  unfold saturated, Qltb.
  by destruct chk, (Qle_bool MAX_RED_PERCENTAGE r), (norm_ge_threshold c c').
Qed.

Lemma state_machine_checker (i : Z) (ss : state_set) (c : coord) (r : Q)
    (key : state_id) (ck : ChromaticityChecker) :
  state_machine i ss c r !! key = Some ck → ∃ m, ck = replicate (S m) c.
Proof.
  rewrite state_machine_lookup_full.
  case_decide; [intros [= <-]; by exists 0|].
  destruct (occurrences _ _) as [|m]; [done|]. intros [= <-]. by exists m.
Qed.

Lemma state_machine_has (i : Z) (ss : state_set) (c : coord) (r : Q)
    (key : state_id) :
  is_Some (state_machine i ss c r !! key) ↔
    key = (start_name r, i)
    ∨ ∃ nm0 ck0, ss !! (nm0, key.2) = Some ck0
                 ∧ key ∈ successors c r ((nm0, key.2), ck0).
Proof.
  rewrite state_machine_lookup_full. case_decide as Hstart.
  - split; [by left|eauto].
  - split.
    + destruct (occurrences _ _) eqn:Hocc; [by intros []|]. intros _. right.
      assert (Hin : key ∈ map_to_list ss ≫= successors c r)
        by (apply occurrences_pos; lia).
      apply list_elem_of_bind in Hin as ([[nm0 k0] ck0] & Hsucc & Hst).
      pose proof (successors_spec _ _ _ _ _ _ Hsucc) as [<- _].
      apply elem_of_map_to_list in Hst. eauto.
    + intros [?|(nm0 & ck0 & Hl & Hsucc)]; [done|].
      assert (Hin : key ∈ map_to_list ss ≫= successors c r).
      { apply list_elem_of_bind. exists ((nm0, key.2), ck0). split; [done|].
        by apply elem_of_map_to_list. }
      apply occurrences_pos in Hin. by destruct (occurrences _ _).
Qed.

Lemma evict_lookup (i nf : Z) (ss : state_set) (nm : state_name) (k : Z) :
  evict i nf ss !! (nm, k) =
    if decide (k = (i - nf)%Z ∧ (0 ≤ i - nf)%Z) then None else ss !! (nm, k).
Proof.
  unfold evict. destruct (Z.leb_spec 0 (i - nf)).
  - rewrite remove_states_lookup. repeat case_decide; try done; tauto.
  - case_decide; [lia|done].
Qed.

Lemma flash_idx_spec (ss : state_set) :
  (flash_idx ss = (-1)%Z ∧ ∀ k, ss !! (E, k) = None)
  ∨ is_Some (ss !! (E, flash_idx ss)).
Proof.
  unfold flash_idx.
  destruct (List.find _ (map_to_list ss)) as [[[nm i] ck]|] eqn:Hfind.
  - apply find_some in Hfind as [Hin Hnm]. simpl in Hnm.
    apply bool_decide_eq_true in Hnm as ->.
    apply list_elem_of_In, elem_of_map_to_list in Hin. right. simpl. eauto.
  - left. split; [done|]. intros k.
    destruct (ss !! (E, k)) as [ck|] eqn:Hl; [|done].
    apply elem_of_map_to_list, list_elem_of_In in Hl.
    by apply (find_none _ _ Hfind) in Hl.
Qed.

(** The states of a region three frames after a frame of index [i0]:
    the set holds a state [E] exactly when both steps are opposing
    transitions and one of the three samples is a saturated red. *)
Lemma three_steps (i0 nf : Z) (ss0 : state_set) (c0 c1 c2 : coord)
    (r0 r1 r2 : Q) :
  nf ≠ 1%Z → nf ≠ 2%Z →
  let ss1 := evict (i0 + 1) nf (state_machine i0 ss0 c0 r0) in
  let ss2 := evict (i0 + 1 + 1) nf (state_machine (i0 + 1) ss1 c1 r1) in
  let ss3 := state_machine (i0 + 1 + 1) ss2 c2 r2 in
  ∀ k, is_Some (ss3 !! (E, k)) ↔
       k = i0 ∧ norm_ge_threshold c0 c1 && norm_ge_threshold c1 c2
                && (saturated r0 || saturated r1 || saturated r2) = true.
Proof.
  intros Hnf1 Hnf2 ss1 ss2 ss3.
  (* the start states of the first frame *)
  assert (H1 : ∀ nm k ck, (nm = A ∨ nm = B) → ss1 !! (nm, k) = Some ck →
                 nm = start_name r0 ∧ k = i0 ∧ ck = [c0]).
  { intros nm k ck Hnm. unfold ss1. rewrite evict_lookup.
    case_decide; [done|]. rewrite state_machine_lookup.
    case_decide as Hkey; [injection Hkey as -> ->; by intros [= <-]|].
    intros Hl. assert (Hs : is_Some (foldl (propagate c0 r0) ∅ (map_to_list ss0)
                                       !! (nm, k))) by eauto.
    apply changed_keys in Hs as (HA & HB & _). simpl in HA, HB. by destruct Hnm. }
  assert (H1' : ss1 !! (start_name r0, i0) = Some [c0]).
  { unfold ss1. rewrite evict_lookup. case_decide; [lia|].
    rewrite state_machine_lookup. by rewrite decide_True. }
  (* the states C and D after the second frame *)
  assert (H2 : ∀ nm k ck, (nm = C ∨ nm = D) → ss2 !! (nm, k) = Some ck →
                 k = i0 ∧ (∃ m, ck = replicate (S m) c1)
                 ∧ norm_ge_threshold c0 c1 = true
                 ∧ (if decide (nm = C) then saturated r0 || saturated r1
                    else negb (saturated r0)) = true).
  { intros nm k ck Hnm. unfold ss2. rewrite evict_lookup.
    case_decide; [done|]. intros Hl.
    pose proof (state_machine_checker _ _ _ _ _ _ Hl) as Hck.
    assert (Hs : is_Some (state_machine (i0 + 1) ss1 c1 r1 !! (nm, k))) by eauto.
    apply state_machine_has in Hs as [Hkey|(nm0 & ck0 & Hl0 & Hsucc)].
    { injection Hkey as -> _. destruct (start_name_cases r1) as [Hs|Hs];
        rewrite Hs in Hnm; by destruct Hnm. }
    cbn [snd] in Hl0, Hsucc.
    assert (Hnm0 : nm0 = A ∨ nm0 = B).
    { pose proof (successors_spec _ _ _ _ _ _ Hsucc) as [_ Hnext].
      cbn [fst] in Hnext. destruct Hnm as [-> | ->], nm0; simpl in Hnext; tauto. }
    destruct (H1 nm0 k ck0 Hnm0 Hl0) as (-> & -> & ->).
    split; [done|]. split; [done|].
    unfold successors in Hsucc. unfold start_name in Hsucc. fold (saturated r0) in Hsucc.
    change [c0] with (replicate 1 c0) in Hsucc.
    rewrite !should_transition_replicate in Hsucc.
    destruct (saturated r0), (saturated r1), (norm_ge_threshold c0 c1);
      cbn in Hsucc; rewrite ?elem_of_cons, ?elem_of_nil in Hsucc;
      destruct Hnm as [-> | ->]; simpl; destruct_or?; by simplify_eq. }
  assert (H2C : norm_ge_threshold c0 c1 = true →
                saturated r0 || saturated r1 = true →
                is_Some (ss2 !! (C, i0))).
  { intros HJ Hsat. unfold ss2. rewrite evict_lookup. case_decide; [lia|].
    apply state_machine_has. right. exists (start_name r0), [c0]. split; [done|].
    cbn [snd]. unfold successors, start_name. fold (saturated r0).
    change [c0] with (replicate 1 c0). rewrite !should_transition_replicate, HJ.
    destruct (saturated r0), (saturated r1); cbn; try done;
      rewrite ?elem_of_cons; eauto. }
  assert (H2D : norm_ge_threshold c0 c1 = true → saturated r0 = false →
                is_Some (ss2 !! (D, i0))).
  { intros HJ Hsat. unfold ss2. rewrite evict_lookup. case_decide; [lia|].
    apply state_machine_has. right. exists (start_name r0), [c0]. split; [done|].
    cbn [snd]. unfold successors, start_name. fold (saturated r0).
    change [c0] with (replicate 1 c0). rewrite !should_transition_replicate, HJ, Hsat.
    destruct (saturated r1); cbn; rewrite ?elem_of_cons; eauto. }
  intros k. unfold ss3. rewrite state_machine_has. split.
  - intros [Hkey|(nm0 & ck0 & Hl0 & Hsucc)].
    { injection Hkey as Hkey _. by destruct (start_name_cases r2) as [Hs|Hs];
        rewrite Hs in Hkey. }
    cbn [snd] in Hl0, Hsucc.
    assert (Hnm0 : nm0 = C ∨ nm0 = D).
    { pose proof (successors_spec _ _ _ _ _ _ Hsucc) as [_ Hnext].
      cbn [fst] in Hnext. destruct nm0; simpl in Hnext; tauto. }
    destruct (H2 nm0 k ck0 Hnm0 Hl0) as (-> & [m ->] & HJ & Hsat).
    split; [done|]. rewrite HJ. unfold successors in Hsucc.
    destruct Hnm0 as [-> | ->]; rewrite should_transition_replicate in Hsucc;
      simpl in Hsat;
      destruct (saturated r0), (saturated r1), (saturated r2),
        (norm_ge_threshold c1 c2); cbn in Hsucc; try done;
      by apply elem_of_nil in Hsucc.
  - intros [-> Hb]. right. cbn [snd].
    apply andb_true_iff in Hb as [[HJ01 HJ12]%andb_true_iff Hsat].
    destruct (saturated r0) eqn:Hs0; [|destruct (saturated r1) eqn:Hs1].
    + destruct (H2C HJ01 ltac:(by rewrite ?Hs0)) as [ck Hck].
      destruct (H2 C i0 ck (or_introl eq_refl) Hck) as (_ & [m ->] & _).
      exists C, (replicate (S m) c1). split; [done|]. unfold successors.
      rewrite should_transition_replicate, HJ12. cbn. left.
    + destruct (H2C HJ01 ltac:(by rewrite ?Hs0, ?Hs1)) as [ck Hck].
      destruct (H2 C i0 ck (or_introl eq_refl) Hck) as (_ & [m ->] & _).
      exists C, (replicate (S m) c1). split; [done|]. unfold successors.
      rewrite should_transition_replicate, HJ12. cbn. left.
    + simpl in Hsat. destruct (H2D HJ01 eq_refl) as [ck Hck].
      destruct (H2 D i0 ck (or_intror eq_refl) Hck) as (_ & [m ->] & _).
      exists D, (replicate (S m) c1). split; [done|]. unfold successors.
      rewrite should_transition_replicate, HJ12, Hsat. cbn. left.
Qed.


(** Property X11. should_transition gives the same answer on a checker
    before and after the new chromaticity has been pushed into it: the push
    that state_machine makes at the top of its loop body never changes a
    transition test, since the distance of a coordinate to itself is below
    0.2. *)
Theorem should_transition_push (ck : ChromaticityChecker) (c : coord) (r : Q)
    (chk : bool) :
  should_transition (push ck c) c r chk = should_transition ck c r chk.
Proof. unfold should_transition. by rewrite is_above_threshold_push. Qed.

(** ** The properties on sample buffers *)

Lemma ex_idle_add :
  add_frame (Buffer_init 4 4 30) (uniform_frame 0 0 0) = Ok ex_idle.
Proof. vm_compute. reflexivity. Qed.

Lemma ex_red_add : add_frame ex_idle (uniform_frame 1 0 1) = Ok ex_red.
Proof. vm_compute. reflexivity. Qed.

Lemma ex_red_reachable : reachable 4 4 30 ex_red.
Proof.
  eapply reachable_add; [|exact ex_red_add].
  eapply reachable_add; [|exact ex_idle_add]. constructor.
Qed.

Lemma ex_red_region :
  regions ex_red !! (0, 0)
  = Some {[ (B, 1%Z) := [(1, 0)%Q]; (C, 0%Z) := [(1, 0)%Q];
            (D, 0%Z) := [(1, 0)%Q] ]}.
Proof. vm_compute. reflexivity. Qed.

Lemma uniform_frame_covers (u v r : Q) : frame_covers 4 (uniform_frame u v r).
Proof.
  intros i j Hi Hj.
  do 4 (destruct i as [|i]; [do 4 (destruct j as [|j]; [vm_compute; eauto|]); lia|]).
  lia.
Qed.

Lemma state_machine_order_irrelevant_witness :
  let states : state_set := {[ (A, 0%Z) := [(0, 0)%Q]; (B, 1%Z) := [(1, 0)%Q] ]} in
  reverse (map_to_list states) ≡ₚ map_to_list states
  ∧ add_start_state (0, 0)%Q 0 2
      (foldl (propagate (0, 0)%Q 0) ∅ (reverse (map_to_list states)))
    = state_machine 2 states (0, 0)%Q 0.
Proof.
  intros states.
  assert (Hperm : reverse (map_to_list states) ≡ₚ map_to_list states)
    by apply reverse_Permutation.
  split; [exact Hperm|].
  exact (state_machine_order_irrelevant 2 states (0, 0)%Q 0 _ Hperm).
Defined.

Lemma reachable_region_states_witness :
  let ss : state_set := {[ (B, 1%Z) := [(1, 0)%Q]; (C, 0%Z) := [(1, 0)%Q];
                           (D, 0%Z) := [(1, 0)%Q] ]} in
  reachable 4 4 30 ex_red ∧ (0, 0) ∈ grid (n ex_red)
  ∧ regions ex_red !! (0, 0) = Some ss
  ∧ (∀ nm k, is_Some (ss !! (nm, k)) → k = (buf_idx ex_red - age nm)%Z)
  ∧ stdpp.base.size ss ≤ 4.
Proof.
  intros ss.
  assert (Hgrid : (0, 0) ∈ grid (n ex_red)) by (apply elem_of_grid; vm_compute; lia).
  split; [exact ex_red_reachable|]. split; [exact Hgrid|].
  split; [exact ex_red_region|].
  exact (reachable_region_states 4 4 30 ex_red (0, 0) ss ex_red_reachable Hgrid
           ex_red_region).
Defined.

Lemma add_frame_checkers_witness :
  let ss : state_set := {[ (B, 1%Z) := [(1, 0)%Q]; (C, 0%Z) := [(1, 0)%Q];
                           (D, 0%Z) := [(1, 0)%Q] ]} in
  add_frame ex_idle (uniform_frame 1 0 1) = Ok ex_red
  ∧ 0 < n ex_idle
  ∧ index2 (uniform_frame 1 0 1) 0 0 = Ok (1, 0, 1)%Q
  ∧ regions ex_red !! (0, 0) = Some ss
  ∧ ss !! (C, 0%Z) = Some [(1, 0)%Q]
  ∧ ∃ m, [(1, 0)%Q] = replicate (S m) (1, 0)%Q.
Proof.
  intros ss.
  assert (Hn : 0 < n ex_idle) by (vm_compute; lia).
  assert (Hsmp : index2 (uniform_frame 1 0 1) 0 0 = Ok (1, 0, 1)%Q) by reflexivity.
  assert (Hck : ss !! (C, 0%Z) = Some [(1, 0)%Q]) by (vm_compute; reflexivity).
  split; [exact ex_red_add|]. split; [exact Hn|]. split; [exact Hsmp|].
  split; [exact ex_red_region|]. split; [exact Hck|].
  exact (add_frame_checkers ex_idle (uniform_frame 1 0 1) ex_red 0 0 1 0 1 ss
           (C, 0%Z) [(1, 0)%Q] ex_red_add Hn Hn Hsmp ex_red_region Hck).
Defined.

Lemma reachable_window_witness :
  let ss : state_set := {[ (B, 1%Z) := [(1, 0)%Q]; (C, 0%Z) := [(1, 0)%Q];
                           (D, 0%Z) := [(1, 0)%Q] ]} in
  reachable 4 4 30 ex_red ∧ (1 ≤ 4)%Z ∧ (0, 0) ∈ grid (n ex_red)
  ∧ regions ex_red !! (0, 0) = Some ss ∧ is_Some (ss !! (C, 0%Z))
  ∧ (0 ≤ 0 ∧ buf_idx ex_red - 4 < 0 < buf_idx ex_red)%Z.
Proof.
  intros ss.
  assert (Hnf : (1 ≤ 4)%Z) by lia.
  assert (Hgrid : (0, 0) ∈ grid (n ex_red)) by (apply elem_of_grid; vm_compute; lia).
  assert (Hk : is_Some (ss !! (C, 0%Z))) by (vm_compute; eauto).
  split; [exact ex_red_reachable|]. split; [exact Hnf|]. split; [exact Hgrid|].
  split; [exact ex_red_region|]. split; [exact Hk|].
  exact (reachable_window 4 4 30 ex_red (0, 0) ss C 0 ex_red_reachable Hnf Hgrid
           ex_red_region Hk).
Defined.

Lemma reachable_flash_idx_witness :
  let ss : state_set := {[ (A, 2%Z) := [(0, 0)%Q]; (C, 1%Z) := [(0, 0)%Q];
                           (E, 0%Z) := [(0, 0)%Q] ]} in
  reachable 4 4 30 ex_red ∧ (0, 0) ∈ grid (n ex_red)
  ∧ stepped ex_red (uniform_frame 0 0 0) (0, 0) = Some ss
  ∧ (flash_idx ss = (-1)%Z ∨ flash_idx ss = (buf_idx ex_red - 2)%Z).
Proof.
  intros ss.
  assert (Hgrid : (0, 0) ∈ grid (n ex_red)) by (apply elem_of_grid; vm_compute; lia).
  assert (Hstep : stepped ex_red (uniform_frame 0 0 0) (0, 0) = Some ss)
    by (vm_compute; reflexivity).
  split; [exact ex_red_reachable|]. split; [exact Hgrid|]. split; [exact Hstep|].
  exact (reachable_flash_idx 4 4 30 ex_red (uniform_frame 0 0 0) (0, 0) ss
           ex_red_reachable Hgrid Hstep).
Defined.


Lemma add_frame_short_frame_witness :
  frame_rate (Buffer_init 4 4 30) ≠ 0%Z
  ∧ ¬ frame_covers (n (Buffer_init 4 4 30)) (replicate 3 (replicate 4 (0, 0, 0)%Q))
  ∧ add_frame (Buffer_init 4 4 30) (replicate 3 (replicate 4 (0, 0, 0)%Q))
    = Err IndexError.
Proof.
  assert (Hfr : frame_rate (Buffer_init 4 4 30) ≠ 0%Z) by (vm_compute; discriminate).
  assert (Hshort : ¬ frame_covers (n (Buffer_init 4 4 30))
                     (replicate 3 (replicate 4 (0, 0, 0)%Q))).
  { intros Hcov. destruct (Hcov 3 0) as [smp Hsmp]; [vm_compute; lia..|].
    vm_compute in Hsmp. discriminate. }
  split; [exact Hfr|]. split; [exact Hshort|].
  exact (add_frame_short_frame (Buffer_init 4 4 30) _ Hfr Hshort).
Defined.

Lemma add_frame_bookkeeping_witness :
  add_frame ex_idle (uniform_frame 1 0 1) = Ok ex_red
  ∧ buf_idx ex_red = (buf_idx ex_idle + 1)%Z
  ∧ num_frames ex_red = num_frames ex_idle ∧ n ex_red = n ex_idle
  ∧ frame_rate ex_red = frame_rate ex_idle
  ∧ ∃ new, red_flash_timestamps ex_red = red_flash_timestamps ex_idle ++ new
           ∧ length new ≤ n ex_idle * n ex_idle.
Proof.
  split; [exact ex_red_add|].
  exact (add_frame_bookkeeping ex_idle (uniform_frame 1 0 1) ex_red ex_red_add).
Defined.

Lemma remove_frame_exact_witness :
  let b' := get_buffer (remove_frame ex_red 0) in
  remove_frame ex_red 0 = Ok b'
  ∧ (∀ p, p ∈ grid (n ex_red) →
       ∃ ss ss', regions ex_red !! p = Some ss ∧ regions b' !! p = Some ss'
                 ∧ ∀ (nm : state_name) (k : Z),
                     ss' !! (nm, k) = if decide (k = 0%Z) then None else ss !! (nm, k))
  ∧ remove_frame b' 0 = Ok b'.
Proof.
  intros b'.
  assert (Hrem : remove_frame ex_red 0 = Ok b') by (vm_compute; reflexivity).
  split; [exact Hrem|].
  exact (remove_frame_exact ex_red 0 b' Hrem).
Defined.


End FSMExtra_facts.

(** * Further properties of the luminance analyzer and the viewport *)

Section DangerExtra_facts.
Import Danger DangerSpec DangerExtra.

(** ** The counters *)

Lemma foldr_max_ge (x : Z) (l : list Z) : x ∈ l → (x ≤ foldr Z.max 0 l)%Z.
Proof.
  induction 1 as [x l|x y l _ IH]; simpl; lia.
Qed.

Lemma foldr_max_mono (l l' : list Z) :
  Forall2 Z.le l l' → (foldr Z.max 0 l ≤ foldr Z.max 0 l')%Z.
Proof. induction 1; simpl; lia. Qed.

Lemma np_max_lookup (m : list (list Z)) (r c : nat) (line : list Z) (x : Z) :
  m !! r = Some line → line !! c = Some x → (x ≤ np_max m)%Z.
Proof.
  intros Hr Hc. apply foldr_max_ge, list_elem_of_In, in_concat.
  exists line. split; apply list_elem_of_In; by eapply list_elem_of_lookup_2.
Qed.

Lemma np_max_mono (m m' : list (list Z)) :
  Forall2 (Forall2 Z.le) m m' → (np_max m ≤ np_max m')%Z.
Proof.
  intros H. apply foldr_max_mono. induction H; simpl; [constructor|].
  by apply Forall2_app.
Qed.

Lemma increment_le (m : list (list Z)) (r c : nat) :
  Forall2 (Forall2 Z.le) m (increment m r c).
Proof.
  assert (Hrefl : ∀ l : list Z, Forall2 Z.le l l).
  { intros l. induction l; constructor; [lia|done]. }
  assert (Hrefl2 : ∀ m : list (list Z), Forall2 (Forall2 Z.le) m m).
  { intros m0. induction m0; constructor; [apply Hrefl|done]. }
  unfold increment. destruct (m !! r) as [line|] eqn:Hr; [|apply Hrefl2].
  destruct (line !! c) as [k|] eqn:Hc; [|apply Hrefl2].
  rewrite <- (list_insert_id m r line Hr) at 1.
  apply Forall2_insert; [apply Hrefl2|].
  rewrite <- (list_insert_id line c k Hc) at 1.
  apply Forall2_insert; [apply Hrefl|lia].
Qed.

Lemma np_max_increment (m : list (list Z)) (r c : nat) :
  (np_max m ≤ np_max (increment m r c))%Z.
Proof. apply np_max_mono, increment_le. Qed.

Lemma np_max_increment_zeros (sections r c : nat) :
  r < sections → c < sections →
  (1 ≤ np_max (increment (replicate sections (replicate sections 0%Z)) r c))%Z.
Proof.
  intros Hr Hc. unfold increment.
  rewrite (lookup_replicate_2 sections _ r Hr), (lookup_replicate_2 sections _ c Hc).
  apply (np_max_lookup _ r c (<[c := (0 + 1)%Z]> (replicate sections 0%Z))).
  - apply list_lookup_insert_eq. by rewrite length_replicate.
  - apply list_lookup_insert_eq. by rewrite length_replicate.
Qed.

(** ** The loops *)

(** Once a flash is counted, a loop ends with a flash counted. *)
Lemma for_return_counted {X : Type} (xs : list X) (body : X → scan → Z + scan)
    (s : scan) :
  (∀ x s, counted (inr s) → counted (body x s)) →
  counted (inr s) → counted (for_return xs body s).
Proof.
  intros Hbody. revert s. induction xs as [|x xs IH]; intros s Hs; [done|].
  cbn [for_return]. specialize (Hbody x s Hs).
  destruct (body x s) as [v|s']; [done|]. by apply IH.
Qed.

(** A loop over [xs] from a state without a flash: either no element of
    [xs] shows a flash and the state is kept, or one does and a flash is
    counted. *)
Lemma for_return_scan {X : Type} (Keep : scan → Prop) (Calm : X → Prop)
    (xs : list X) (body : X → scan → Z + scan) (s : scan) :
  (∀ x s, counted (inr s) → counted (body x s)) →
  (∀ x s, x ∈ xs → Keep s →
     (Calm x ∧ ∃ s', body x s = inr s' ∧ Keep s')
     ∨ (¬ Calm x ∧ counted (body x s))) →
  Keep s →
  (Forall Calm xs ∧ ∃ s', for_return xs body s = inr s' ∧ Keep s')
  ∨ (¬ Forall Calm xs ∧ counted (for_return xs body s)).
Proof.
  intros Habs. revert s. induction xs as [|x xs IH]; intros s Hbody Hs.
  - left. split; [constructor|]. by exists s.
  - cbn [for_return].
    destruct (Hbody x s) as [(Hx & s' & Hs' & HZ)|[Hx Hc]]; [left|done| |].
    + rewrite Hs'. destruct (IH s') as [(Hxs & Hres)|[Hxs Hc]];
        [intros; apply Hbody; [by right|done]|done| |].
      * left. split; [by constructor|done].
      * right. split; [|done]. by intros [_ ?]%Forall_cons.
    + right. split; [by intros [? _]%Forall_cons|].
      destruct (body x s) as [v|s']; [done|]. by apply for_return_counted.
Qed.

Lemma check_tile_counted (luminances : list (list (list (option Q))))
    (num_frames c : nat) (s : scan) :
  counted (inr s) → counted (check_tile luminances num_frames c s).
Proof.
  unfold check_tile, counted. cbn [frame_idx future_frame row col num_flashes].
  intros Hs. destruct (opposing _ _); [|done].
  pose proof (np_max_increment (num_flashes s) (row s) c).
  destruct (_ <? _)%Z; cbn [num_flashes]; lia.
Qed.

Lemma scan_cols (luminances : list (list (list (option Q))))
    (num_frames sections i j r : nat) (s : scan) :
  r < sections →
  num_flashes s = replicate sections (replicate sections 0%Z) →
  frame_idx s = i → future_frame s = j → row s = r →
  let calm := λ c, opposing (lum_at luminances i r c) (lum_at luminances j r c)
                   = false in
  (Forall calm (range sections)
   ∧ ∃ s', for_return (range sections) (check_tile luminances num_frames) s = inr s'
           ∧ num_flashes s' = replicate sections (replicate sections 0%Z)
           ∧ frame_idx s' = i ∧ future_frame s' = j ∧ row s' = r)
  ∨ (¬ Forall calm (range sections)
     ∧ counted (for_return (range sections) (check_tile luminances num_frames) s)).
Proof.
  intros Hr Hz Hi Hj Hrow calm.
  apply (for_return_scan
           (λ s, num_flashes s = replicate sections (replicate sections 0%Z)
                 ∧ frame_idx s = i ∧ future_frame s = j ∧ row s = r) calm);
    [intros; by apply check_tile_counted| |done].
  clear s Hz Hi Hj Hrow. intros c s Hc (Hz & <- & <- & <-).
  apply elem_of_seq in Hc as [_ Hc]. simpl in Hc.
  unfold check_tile, calm. cbn [frame_idx future_frame row col num_flashes].
  destruct (opposing _ _).
  - right. split; [done|]. rewrite Hz.
    pose proof (np_max_increment_zeros sections (row s) c Hr Hc).
    by destruct (_ <? _)%Z.
  - left. split; [done|]. eexists. split; [done|]. by cbn.
Qed.

Lemma scan_rows (luminances : list (list (list (option Q))))
    (num_frames sections i j : nat) (s : scan) :
  num_flashes s = replicate sections (replicate sections 0%Z) →
  frame_idx s = i → future_frame s = j →
  let body := λ r s,
    for_return (range sections) (check_tile luminances num_frames)
      (mkScan (frame_idx s) (future_frame s) r (col s) (num_flashes s)) in
  let calm := λ r, Forall (λ c, opposing (lum_at luminances i r c)
                                         (lum_at luminances j r c) = false)
                          (range sections) in
  (Forall calm (range sections)
   ∧ ∃ s', for_return (range sections) body s = inr s'
           ∧ num_flashes s' = replicate sections (replicate sections 0%Z)
           ∧ frame_idx s' = i ∧ future_frame s' = j)
  ∨ (¬ Forall calm (range sections)
     ∧ counted (for_return (range sections) body s)).
Proof.
  intros Hz Hi Hj body calm.
  apply (for_return_scan
           (λ s, num_flashes s = replicate sections (replicate sections 0%Z)
                 ∧ frame_idx s = i ∧ future_frame s = j) calm); [| |done].
  { intros r s0 Hs0. apply for_return_counted; [|done].
    intros; by apply check_tile_counted. }
  clear s Hz Hi Hj. intros r s Hr (Hz & Hi & Hj).
  apply elem_of_seq in Hr as [_ Hr]. simpl in Hr.
  destruct (scan_cols luminances num_frames sections i j r
              (mkScan (frame_idx s) (future_frame s) r (col s) (num_flashes s)))
    as [(Hcalm & s' & Hs' & Hz' & Hi' & Hj' & _)|[Hcalm Hc]]; try done.
  - left. split; [done|]. exists s'. by split.
  - by right.
Qed.

Lemma scan_futures (luminances : list (list (list (option Q))))
    (num_frames sections i : nat) (js : list nat) (s : scan) :
  num_flashes s = replicate sections (replicate sections 0%Z) →
  frame_idx s = i →
  let body := λ j s,
    for_return (range sections) (λ r s,
      for_return (range sections) (check_tile luminances num_frames)
        (mkScan (frame_idx s) (future_frame s) r (col s) (num_flashes s)))
      (mkScan (frame_idx s) j (row s) (col s) (num_flashes s)) in
  let calm := λ j, Forall (λ r, Forall (λ c,
                 opposing (lum_at luminances i r c) (lum_at luminances j r c)
                 = false) (range sections)) (range sections) in
  (Forall calm js
   ∧ ∃ s', for_return js body s = inr s'
           ∧ num_flashes s' = replicate sections (replicate sections 0%Z)
           ∧ frame_idx s' = i)
  ∨ (¬ Forall calm js ∧ counted (for_return js body s)).
Proof.
  intros Hz Hi body calm.
  apply (for_return_scan
           (λ s, num_flashes s = replicate sections (replicate sections 0%Z)
                 ∧ frame_idx s = i) calm); [| |done].
  { intros j s0 Hs0. apply for_return_counted; [|done].
    intros r s1 Hs1. apply for_return_counted; [|done].
    intros; by apply check_tile_counted. }
  clear s Hz Hi. intros j s _ (Hz & Hi).
  destruct (scan_rows luminances num_frames sections i j
              (mkScan (frame_idx s) j (row s) (col s) (num_flashes s)))
    as [(Hcalm & s' & Hs' & Hz' & Hi' & _)|[Hcalm Hc]]; try done.
  - left. split; [done|]. exists s'. by split.
  - by right.
Qed.

(** The outcome of pass 2: either the window is quiet and nothing is
    counted, or it is not and a flash is counted. *)
Lemma detect_changes_cases (luminances : list (list (list (option Q))))
    (num_frames sections : nat) :
  (quiet luminances num_frames sections
   ∧ detect_changes luminances num_frames sections = 0%Z)
  ∨ (¬ quiet luminances num_frames sections
     ∧ (1 ≤ detect_changes luminances num_frames sections)%Z).
Proof.
  set (calm := λ i, Forall (λ j, Forall (λ r, Forall (λ c,
         opposing (lum_at luminances i r c) (lum_at luminances j r c) = false)
         (range sections)) (range sections))
       (seq (i + 1) (num_frames - (i + 1)))).
  assert (Hquiet : Forall calm (range num_frames)
                   ↔ quiet luminances num_frames sections).
  { unfold calm, quiet, range. split.
    - intros H i j r c Hij Hj Hr Hc.
      pose proof (proj1 (Forall_forall _ _) H i) as H1.
      pose proof (proj1 (Forall_forall _ _) (H1 ltac:(apply elem_of_seq; lia)) j) as H2.
      pose proof (proj1 (Forall_forall _ _) (H2 ltac:(apply elem_of_seq; lia)) r) as H3.
      apply (proj1 (Forall_forall _ _) (H3 ltac:(apply elem_of_seq; lia)) c).
      apply elem_of_seq. lia.
    - intros H. apply Forall_forall. intros i Hi. apply Forall_forall. intros j Hj.
      apply Forall_forall. intros r Hr. apply Forall_forall. intros c Hc.
      apply elem_of_seq in Hi, Hj, Hr, Hc. apply H; lia. }
  unfold detect_changes.
  match goal with
  | |- context [for_return (range num_frames) ?body ?start] =>
      destruct (for_return_scan
                  (λ s, num_flashes s = replicate sections (replicate sections 0%Z))
                  calm (range num_frames) body start)
        as [(Hcalm & s' & -> & Hz)|[Hcalm Hc]]
  end.
  - intros i s0 Hs0. apply for_return_counted; [|done].
    intros j s1 Hs1. apply for_return_counted; [|done].
    intros r s2 Hs2. apply for_return_counted; [|done].
    intros; by apply check_tile_counted.
  - intros i s _ Hz. cbn [frame_idx].
    destruct (scan_futures luminances num_frames sections i
                (seq (i + 1) (num_frames - (i + 1)))
                (mkScan i (future_frame s) (row s) (col s) (num_flashes s)))
      as [(Hcalm & s' & Hs' & Hz' & _)|[Hcalm Hc]]; try done.
    + left. split; [done|]. by exists s'.
    + by right.
  - done.
  - left. split; [by apply Hquiet|]. rewrite Hz. apply np_max_zeros.
  - right. split; [by rewrite <- Hquiet|].
    by destruct (for_return _ _ _).
Qed.

(** Property X12. Pass 2 of process_dangerous (the loops under Detect
    luminance changes) returns 0 exactly when no tile (row, col) of the
    sections x sections grid has two frames i < j < num_frames whose tile
    luminances pass the test (absolute difference above 127.5, and one of
    the two below 204). *)
Theorem detect_changes_zero_iff (luminances : list (list (list (option Q))))
    (num_frames sections : nat) :
  detect_changes luminances num_frames sections = 0%Z
  ↔ quiet luminances num_frames sections.
Proof.
  destruct (detect_changes_cases luminances num_frames sections)
    as [[Hq Hz]|[Hq Hz]].
  - by rewrite Hz.
  - split; [lia|done].
Qed.

(** ** The tile luminances *)

Lemma lookup_List_map {X Y : Type} (f : X → Y) (l : list X) (i : nat) :
  map f l !! i = f <$> l !! i.
Proof. revert i. induction l as [|x l IH]; intros [|i]; simpl; auto. Qed.

Lemma zsum_band (lo hi : Z) (l : list Z) :
  Forall (λ x, (lo ≤ x ≤ hi)%Z) l →
  (lo * Z.of_nat (length l) ≤ zsum l ≤ hi * Z.of_nat (length l))%Z.
Proof.
  induction 1 as [|x l Hx _ IH]; [simpl; lia|].
  cbn [zsum foldr length]. fold (zsum l). lia.
Qed.

(** The mean of lightness values between [lo] and [hi] lies between
    them. *)
Lemma average_band (lo hi : Z) (segment : list (list pixel)) (q : Q) :
  Forall (Forall (λ p : pixel, (lo ≤ p.1.2 ≤ hi)%Z)) segment →
  calculate_average_luminance segment = Some q →
  (inject_Z lo <= q <= inject_Z hi)%Q.
Proof.
  intros Hseg. unfold calculate_average_luminance.
  set (l := concat (map (map (λ p : pixel, p.1.2)) segment)).
  assert (Hl : Forall (λ x, (lo ≤ x ≤ hi)%Z) l).
  { unfold l. clear l. induction Hseg as [|line segment Hline _ IH]; [constructor|].
    simpl. apply Forall_app. split; [|done]. by apply List.Forall_map. }
  pose proof (zsum_band lo hi l Hl) as [Hlo Hhi].
  destruct l as [|x l'] eqn:El; [done|]. rewrite <- El in *. intros [= <-].
  assert (Hlen : (0 < Z.of_nat (length l))%Z) by (rewrite El; simpl; lia).
  assert (HlenQ : (0 < inject_Z (Z.of_nat (length l)))%Q).
  { change 0%Q with (inject_Z 0). by rewrite <- Zlt_Qlt. }
  split.
  - apply Qle_shift_div_l; [done|]. rewrite <- inject_Z_mult, <- Zle_Qle. lia.
  - apply Qle_shift_div_r; [done|]. rewrite <- inject_Z_mult, <- Zle_Qle. lia.
Qed.

Lemma slice_Forall {X : Type} (P : X → Prop) (l : list X) (lo hi : Z) :
  Forall P l → Forall P (slice l lo hi).
Proof. intros H. unfold slice. by apply Forall_take, Forall_drop. Qed.

(** Every tile luminance of pass 1 lies in the band of the pixels. *)
Lemma lum_at_band (lo hi : Z) (dangerous : Array) (sections sh sw : Z)
    (f r c : nat) (q : Q) :
  Forall (lightness_in lo hi) (frames dangerous) →
  lum_at (precalculate dangerous sections sh sw) f r c = Some q →
  (inject_Z lo <= q <= inject_Z hi)%Q.
Proof.
  intros Hall. unfold lum_at, precalculate. rewrite lookup_List_map.
  destruct (frames dangerous !! f) as [frame|] eqn:Hf; [|done]. cbn [fmap option_fmap option_map].
  assert (Hframe : lightness_in lo hi frame).
  { apply (proj1 (Forall_lookup _ _) Hall f frame Hf). }
  rewrite lookup_List_map. destruct (range _ !! r) as [r'|]; [|done].
  cbn [fmap option_fmap option_map]. rewrite lookup_List_map.
  destruct (range _ !! c) as [c'|]; [|done]. cbn [fmap option_fmap option_map default].
  apply average_band. apply List.Forall_map. apply slice_Forall.
  eapply Forall_impl; [exact Hframe|]. intros line Hline. by apply slice_Forall.
Qed.

Lemma opposing_close (x y : Q) :
  (Qabs' (x - y) <= 127)%Q → opposing (Some x) (Some y) = false.
Proof.
  intros Hd. unfold opposing.
  assert (Qltb luminance_threshold (Qabs' (x - y)) = false) as ->; [|done].
  apply Qltb_ge. eapply Qle_trans; [exact Hd|]. by vm_compute.
Qed.

Lemma opposing_bright (x y : Q) :
  (204 <= x)%Q → (204 <= y)%Q → opposing (Some x) (Some y) = false.
Proof.
  intros Hx Hy. unfold opposing.
  assert (Qltb x dark_threshold = false) as ->.
  { apply Qltb_ge. eapply Qle_trans; [|exact Hx]. by vm_compute. }
  assert (Qltb y dark_threshold = false) as ->.
  { apply Qltb_ge. eapply Qle_trans; [|exact Hy]. by vm_compute. }
  apply andb_false_r.
Qed.

Lemma opposing_None_l (b : option Q) : opposing None b = false.
Proof. done. Qed.

(** ** [process_dangerous] on positive dimensions *)

Lemma default_side_third (H W : Z) :
  (0 < H)%Z → (0 < W)%Z → (Z.max H W < 3 * default_side H W)%Z.
Proof.
  intros HH HW. unfold default_side.
  rewrite square_side_diagonal by (unfold screen_size; lra || done).
  unfold screen_size, view_distance, viewport_angle.
  replace (10 * PI / 180)%R with (PI / 18)%R by lra.
  pose proof tan_PI18_bounds as [Ht1 Ht2].
  pose proof sqrt2_sqr as Hs2. pose proof sqrt2_pos as Hs2pos.
  set (t := tan (PI / 18)) in *.
  set (d := sqrt (IZR (H ^ 2 + W ^ 2))).
  assert (Hm : (0 < IZR (Z.max H W))%R) by (apply IZR_lt; lia).
  assert (Hd : (IZR (Z.max H W) <= d)%R).
  { rewrite <- (sqrt_square (IZR (Z.max H W))) by lra.
    apply sqrt_le_1_alt. rewrite <- mult_IZR. apply IZR_le.
    destruct (Z.max_spec H W) as [[? ->]|[? ->]]; nia. }
  set (x := (sqrt 2 * (26 * 2.54 * t) * (d / (15 * 2.54)))%R).
  assert (Hx : (x = 26 / 15 * t * (sqrt 2 * d))%R).
  { unfold x. field. lra. }
  assert (Hs14 : (14 / 10 < sqrt 2)%R) by nra.
  assert (Hy : (14 / 10 * IZR (Z.max H W) <= sqrt 2 * d)%R) by nra.
  assert (Hx1 : (IZR (Z.max H W) < 3 * x)%R).
  { rewrite Hx. set (y := (sqrt 2 * d)%R) in *. nra. }
  pose proof (Zceil_bound x) as [_ Hc].
  apply lt_IZR. rewrite mult_IZR. lra.
Qed.

Lemma sections_bounds (h w : Z) :
  (0 < h)%Z → (0 < w)%Z →
  (1 ≤ Z.max (h / default_side h w) (w / default_side h w) ≤ 2)%Z.
Proof.
  intros Hh Hw. pose proof (sections_positive h w Hh Hw).
  pose proof (default_side_bounds h w Hh Hw) as [Hs _].
  pose proof (default_side_third h w Hh Hw) as Hthird.
  assert (h / default_side h w < 3)%Z by (apply Z.div_lt_upper_bound; lia).
  assert (w / default_side h w < 3)%Z by (apply Z.div_lt_upper_bound; lia).
  lia.
Qed.

(** The value of [process_dangerous] on positive dimensions: pass 2 on
    the luminances of pass 1. *)
Lemma process_dangerous_Ok (h w fr : Z) (fs : list hls_frame) :
  (0 < h)%Z → (0 < w)%Z →
  let sections := Z.max (h / default_side h w) (w / default_side h w) in
  process_dangerous (mkArray h w fs) fr
  = Ok (detect_changes
          (precalculate (mkArray h w fs) sections (h / sections) (w / sections))
          (length fs) (Z.to_nat sections)).
Proof.
  intros Hh Hw sections. pose proof (sections_bounds h w Hh Hw) as Hsec.
  fold sections in Hsec.
  pose proof (default_side_bounds h w Hh Hw) as [Hs _].
  unfold process_dangerous. cbn [height width].
  change (RegionShape.calc_viewport (h, w) screen_size view_distance
            viewport_angle).2 with (default_side h w).
  unfold process_dangerous_from, py_floordiv. cbn [height width frames].
  destruct (Z.eqb_spec (default_side h w) 0); [lia|]. cbn [bind].
  fold sections.
  destruct (Z.eqb_spec sections 0); [lia|]. cbn [bind].
  destruct (Z.ltb_spec sections 0); [lia|done].
Qed.

(** Property X13. For every window of positive height and width,
    process_dangerous raises no exception; the number of sections a side,
    max(height // square_length, width // square_length), is 1 or 2; and the
    value returned is that of pass 2 on the tile luminances pass 1 computes
    for this grid. *)
Theorem process_dangerous_sections (h w fr : Z) (fs : list hls_frame) :
  (0 < h)%Z → (0 < w)%Z →
  ∃ sections : Z,
    sections = Z.max (h / default_side h w) (w / default_side h w)
    ∧ (sections = 1 ∨ sections = 2)%Z
    ∧ process_dangerous (mkArray h w fs) fr
      = Ok (detect_changes
              (precalculate (mkArray h w fs) sections (h / sections) (w / sections))
              (length fs) (Z.to_nat sections)).
Proof.
  intros Hh Hw. eexists. split; [done|].
  split; [pose proof (sections_bounds h w Hh Hw); lia|].
  by apply process_dangerous_Ok.
Qed.

Lemma process_dangerous_quiet (h w fr : Z) (fs : list hls_frame) :
  (0 < h)%Z → (0 < w)%Z →
  (∀ sections sh sw,
     quiet (precalculate (mkArray h w fs) sections sh sw) (length fs)
           (Z.to_nat sections)) →
  process_dangerous (mkArray h w fs) fr = Ok 0%Z.
Proof.
  intros Hh Hw Hq. rewrite process_dangerous_Ok by done. f_equal.
  destruct (detect_changes_cases
              (precalculate (mkArray h w fs)
                 (Z.max (h / default_side h w) (w / default_side h w))
                 (h / Z.max (h / default_side h w) (w / default_side h w))
                 (w / Z.max (h / default_side h w) (w / default_side h w)))
              (length fs)
              (Z.to_nat (Z.max (h / default_side h w) (w / default_side h w))))
    as [[_ ?]|[Hn _]]; [done|]. destruct Hn. apply Hq.
Qed.

(** Tiles whose pixels span at most 127 levels of lightness are never
    opposing. *)
Lemma band_quiet (lo hi : Z) (dangerous : Array) (sections sh sw : Z)
    (num_frames : nat) :
  (hi - lo ≤ 127)%Z → Forall (lightness_in lo hi) (frames dangerous) →
  quiet (precalculate dangerous sections sh sw) num_frames (Z.to_nat sections).
Proof.
  intros Hband Hall i j r c _ _ _ _.
  destruct (lum_at _ i r c) as [x|] eqn:Hx; [|done].
  destruct (lum_at _ j r c) as [y|] eqn:Hy; [|apply opposing_None_r].
  apply lum_at_band with (lo := lo) (hi := hi) in Hx as [Hx1 Hx2]; [|done].
  apply lum_at_band with (lo := lo) (hi := hi) in Hy as [Hy1 Hy2]; [|done].
  apply opposing_close.
  assert (Hd : (inject_Z hi - inject_Z lo <= 127)%Q).
  { unfold Qminus. rewrite <- inject_Z_opp, <- inject_Z_plus.
    change 127%Q with (inject_Z 127). rewrite <- Zle_Qle. lia. }
  unfold Qabs'. destruct (Qle_bool 0 (x - y)); Lqa.lra.
Qed.

(** Property X14. For a window of positive height and width whose pixels all
    have a lightness between lo and hi with hi - lo <= 127,
    process_dangerous returns 0. *)
Theorem process_dangerous_low_contrast (lo hi h w fr : Z) (fs : list hls_frame) :
  (0 < h)%Z → (0 < w)%Z → (hi - lo ≤ 127)%Z →
  Forall (lightness_in lo hi) fs →
  process_dangerous (mkArray h w fs) fr = Ok 0%Z.
Proof.
  intros Hh Hw Hband Hall. apply process_dangerous_quiet; [done..|].
  intros sections sh sw. by apply (band_quiet lo hi).
Qed.

(** Property X15. For a window of positive height and width whose pixels all
    have a lightness of at least 204 (= 0.8 * 255), process_dangerous
    returns 0, however large the changes of lightness are. *)
Theorem process_dangerous_bright (hi h w fr : Z) (fs : list hls_frame) :
  (0 < h)%Z → (0 < w)%Z →
  Forall (lightness_in 204 hi) fs →
  process_dangerous (mkArray h w fs) fr = Ok 0%Z.
Proof.
  intros Hh Hw Hall. apply process_dangerous_quiet; [done..|].
  intros sections sh sw i j r c _ _ _ _.
  destruct (lum_at _ i r c) as [x|] eqn:Hx; [|done].
  destruct (lum_at _ j r c) as [y|] eqn:Hy; [|apply opposing_None_r].
  apply lum_at_band with (lo := 204%Z) (hi := hi) in Hx as [Hx1 _]; [|done].
  apply lum_at_band with (lo := 204%Z) (hi := hi) in Hy as [Hy1 _]; [|done].
  by apply opposing_bright.
Qed.

(** Property X16. For a window of positive height and width with fewer than
    two frames, process_dangerous returns 0. *)
Theorem process_dangerous_short (h w fr : Z) (fs : list hls_frame) :
  (0 < h)%Z → (0 < w)%Z → length fs ≤ 1 →
  process_dangerous (mkArray h w fs) fr = Ok 0%Z.
Proof.
  intros Hh Hw Hlen. apply process_dangerous_quiet; [done..|].
  intros sections sh sw i j r c Hij Hj. lia.
Qed.

(** ** The properties on sample windows *)

Lemma process_dangerous_sections_witness :
  (0 < 4)%Z
  ∧ ∃ sections : Z,
      sections = Z.max (4 / default_side 4 4) (4 / default_side 4 4)
      ∧ (sections = 1 ∨ sections = 2)%Z
      ∧ process_dangerous (mkArray 4 4 (frames ex_window)) 30
        = Ok (detect_changes
                (precalculate (mkArray 4 4 (frames ex_window)) sections
                   (4 / sections) (4 / sections))
                (length (frames ex_window)) (Z.to_nat sections)).
Proof.
  assert (H4 : (0 < 4)%Z) by lia.
  split; [exact H4|].
  exact (process_dangerous_sections 4 4 30 (frames ex_window) H4 H4).
Defined.

Lemma process_dangerous_low_contrast_witness :
  (0 < 4)%Z ∧ (200 - 100 ≤ 127)%Z
  ∧ Forall (lightness_in 100 200) (map gray_frame [100; 200; 100]%Z)
  ∧ process_dangerous (mkArray 4 4 (map gray_frame [100; 200; 100]%Z)) 30 = Ok 0%Z.
Proof.
  assert (H4 : (0 < 4)%Z) by lia.
  assert (Hband : (200 - 100 ≤ 127)%Z) by lia.
  assert (Hall : Forall (lightness_in 100 200) (map gray_frame [100; 200; 100]%Z))
    by (repeat constructor; simpl; lia).
  split; [exact H4|]. split; [exact Hband|]. split; [exact Hall|].
  exact (process_dangerous_low_contrast 100 200 4 4 30 _ H4 H4 Hband Hall).
Defined.

Lemma process_dangerous_bright_witness :
  (0 < 4)%Z
  ∧ Forall (lightness_in 204 255) (map gray_frame [204; 255; 204]%Z)
  ∧ process_dangerous (mkArray 4 4 (map gray_frame [204; 255; 204]%Z)) 30 = Ok 0%Z.
Proof.
  assert (H4 : (0 < 4)%Z) by lia.
  assert (Hall : Forall (lightness_in 204 255) (map gray_frame [204; 255; 204]%Z))
    by (repeat constructor; simpl; lia).
  split; [exact H4|]. split; [exact Hall|].
  exact (process_dangerous_bright 255 4 4 30 _ H4 H4 Hall).
Defined.

Lemma process_dangerous_short_witness :
  (0 < 4)%Z ∧ length [gray_frame 255] ≤ 1
  ∧ process_dangerous (mkArray 4 4 [gray_frame 255]) 30 = Ok 0%Z.
Proof.
  assert (H4 : (0 < 4)%Z) by lia.
  assert (Hlen : length [gray_frame 255] ≤ 1) by (simpl; lia).
  split; [exact H4|]. split; [exact Hlen|].
  exact (process_dangerous_short 4 4 30 [gray_frame 255] H4 H4 Hlen).
Defined.

End DangerExtra_facts.

Section ViewportExtra_facts.
Import RegionShape.



(** Property X18. For positive integers k, H, W, the two area fractions that
    calc_viewport returns for the resolution (k*H, k*W) are those it returns
    for (H, W) at the same screen size, view distance and angle: they depend
    on the aspect ratio only. *)
Theorem calc_viewport_aspect (k H W : Z) (D V theta : R) :
  (0 < k)%Z → (0 < H)%Z → (0 < W)%Z →
  (calc_viewport (k * H, k * W)%Z D V theta).1 = (calc_viewport (H, W) D V theta).1.
Proof.
  intros Hk HH HW. unfold calc_viewport. cbn [fst snd].
  assert (Hg : Z.gcd H W ≠ 0%Z) by (intros Hg0; apply Z.gcd_eq_0 in Hg0; lia).
  rewrite Z.gcd_mul_mono_l_nonneg by lia.
  by rewrite !Z.div_mul_cancel_l by lia.
Qed.

Lemma calc_viewport_aspect_witness :
  (0 < 120)%Z ∧ (0 < 9)%Z ∧ (0 < 16)%Z
  ∧ (calc_viewport (120 * 9, 120 * 16)%Z 40 60 10).1
    = (calc_viewport (9, 16)%Z 40 60 10).1.
Proof.
  assert (Hk : (0 < 120)%Z) by lia.
  assert (HH : (0 < 9)%Z) by lia.
  assert (HW : (0 < 16)%Z) by lia.
  split; [exact Hk|]. split; [exact HH|]. split; [exact HW|].
  exact (calc_viewport_aspect 120 9 16 40 60 10 Hk HH HW).
Defined.



End ViewportExtra_facts.

(** * Further properties of the orchestrator *)

Section DetectorExtra_facts.
Import Detector DetectorSpec DangerSpec DetectorExtra DangerExtra FSMExtra.

(** ** The shape of a run *)

Lemma detect_flashes_with_Ok (an : Danger.Array → Z → Result Z)
    (cap : VideoCapture) (speed : Q) (ts : list (Q * Q)) :
  result (detect_flashes_with an cap speed) = Ok ts →
  let W := window_size (CAP_PROP_FPS cap) speed in
  (2 # 10 <= speed)%Q ∧ (0 ≤ W)%Z
  ∧ if is_opened cap
    then ∃ st, result (run an cap W (video cap) (start_state cap) 0) = Ok st
               ∧ ts = merge (timestamps st)
               ∧ reads (detect_flashes_with an cap speed)
                 = reads (run an cap W (video cap) (start_state cap) 0)
    else ts = [] ∧ reads (detect_flashes_with an cap speed) = 0.
Proof.
  unfold detect_flashes_with, start_state.
  destruct (Qltb 5 speed || Qltb speed (2 # 10)) eqn:Hspeed; [done|].
  apply orb_false_iff in Hspeed as [_ Hlo%Qltb_ge].
  destruct (_ || _) eqn:Hdims; [done|].
  apply orb_false_iff in Hdims as [[HW%Z.ltb_ge _]%orb_false_iff _].
  cbn [result reads]. intros Hres. split; [done|]. split; [done|].
  destruct (is_opened cap).
  - apply bind_Ok in Hres as (st & Hrun & [= <-]). by exists st.
  - cbn in Hres. by injection Hres as <-.
Qed.

Lemma run_reads (an : Danger.Array → Z → Result Z) (cap : VideoCapture) (W : Z)
    (stream : list Frame) (st : loop_state) (k : nat) :
  reads (run an cap W stream st k) ≤ k + S (length stream)
  ∧ ∀ st', result (run an cap W stream st k) = Ok st' →
           reads (run an cap W stream st k) = k + S (length stream).
Proof.
  revert st k. induction stream as [|f stream IH]; intros st k; cbn [run length].
  - cbn [reads]. split; [lia|]. intros; lia.
  - destruct (bind (progress cap st) _) as [st1|e].
    + destruct (IH st1 (S k)) as [Hle Heq]. split; [lia|].
      intros st' Hst'. rewrite (Heq st' Hst'). lia.
    + cbn [reads result]. split; [lia|done].
Qed.

(** Property X20. Whenever detect_flashes returns a list: if the capture is
    opened, cap.read() has been called exactly len(video) + 1 times, once
    for every frame and once for the read that fails; if it is not opened,
    cap.read() has not been called. *)
Theorem detect_flashes_reads (cap : VideoCapture) (speed : Q)
    (ts : list (Q * Q)) :
  result (detect_flashes cap speed) = Ok ts →
  reads (detect_flashes cap speed)
  = if is_opened cap then S (length (video cap)) else 0.
Proof.
  intros Hres. apply detect_flashes_with_Ok in Hres as (_ & _ & Hres).
  unfold detect_flashes. destruct (is_opened cap).
  - destruct Hres as (st & Hrun & _ & ->).
    by apply (proj2 (run_reads _ _ _ _ _ _)) in Hrun.
  - by destruct Hres.
Qed.

Lemma detect_flashes_reads_witness :
  result (detect_flashes ex_cap 1) = Ok [(11 # 4, 5 # 4)%Q]
  ∧ reads (detect_flashes ex_cap 1)
    = if is_opened ex_cap then S (length (video ex_cap)) else 0.
Proof.
  assert (Hrun : result (detect_flashes ex_cap 1) = Ok [(11 # 4, 5 # 4)%Q])
    by (by rewrite ex_cap_run).
  split; [exact Hrun|].
  exact (detect_flashes_reads ex_cap 1 _ Hrun).
Defined.

(** ** Captures without frames to analyze *)

Lemma speed_valid (speed : Q) :
  (2 # 10 <= speed)%Q → (speed <= 5)%Q →
  Qltb 5 speed || Qltb speed (2 # 10) = false.
Proof. intros. apply orb_false_iff. by rewrite !Qltb_ge. Qed.

Lemma dims_valid (cap : VideoCapture) (speed : Q) :
  (0 ≤ window_size (CAP_PROP_FPS cap) speed)%Z →
  (0 ≤ CAP_PROP_FRAME_HEIGHT cap)%Z → (0 ≤ CAP_PROP_FRAME_WIDTH cap)%Z →
  (window_size (CAP_PROP_FPS cap) speed <? 0)%Z
  || (CAP_PROP_FRAME_HEIGHT cap <? 0)%Z || (CAP_PROP_FRAME_WIDTH cap <? 0)%Z
  = false.
Proof. intros. rewrite !orb_false_iff, !Z.ltb_ge. done. Qed.

Lemma window_size_nonneg (fps : Z) (speed : Q) :
  (0 ≤ fps)%Z → (0 <= speed)%Q → (0 ≤ window_size fps speed)%Z.
Proof.
  intros Hfps Hspeed. unfold window_size.
  assert (0 <= inject_Z fps * speed)%Q.
  { apply Qmult_le_0_compat; [|done].
    change 0%Q with (inject_Z 0). by rewrite <- Zle_Qle. }
  rewrite py_int_floor by done. change 0%Z with (Qfloor 0).
  by apply Qfloor_resp_le.
Qed.

(** Property X21. For a speed in [0.2, 5] and a non-negative frame rate,
    height and width, a capture whose isOpened() is false gives the empty
    list without a call of cap.read() and without an exception. *)
Theorem detect_flashes_not_opened (cap : VideoCapture) (speed : Q) :
  (2 # 10 <= speed)%Q → (speed <= 5)%Q →
  (0 ≤ CAP_PROP_FPS cap)%Z →
  (0 ≤ CAP_PROP_FRAME_HEIGHT cap)%Z → (0 ≤ CAP_PROP_FRAME_WIDTH cap)%Z →
  is_opened cap = false →
  detect_flashes cap speed = mkOutcome 0 (Ok []).
Proof.
  intros Hlo Hhi Hfps Hh Hw Hop. unfold detect_flashes, detect_flashes_with.
  rewrite speed_valid by done.
  rewrite dims_valid, Hop; [done| |done..].
  apply window_size_nonneg; [done|Lqa.lra].
Qed.

Lemma detect_flashes_not_opened_witness :
  (2 # 10 <= 1)%Q ∧ (1 <= 5)%Q ∧ (0 ≤ 0)%Z
  ∧ is_opened (mkCapture false 0 0 0 0 []) = false
  ∧ detect_flashes (mkCapture false 0 0 0 0 []) 1 = mkOutcome 0 (Ok []).
Proof.
  assert (Hlo : (2 # 10 <= 1)%Q) by (vm_compute; discriminate).
  assert (Hhi : (1 <= 5)%Q) by (vm_compute; discriminate).
  assert (H0 : (0 ≤ 0)%Z) by lia.
  assert (Hop : is_opened (mkCapture false 0 0 0 0 []) = false) by reflexivity.
  split; [exact Hlo|]. split; [exact Hhi|]. split; [exact H0|]. split; [exact Hop|].
  exact (detect_flashes_not_opened (mkCapture false 0 0 0 0 []) 1 Hlo Hhi H0 H0 H0 Hop).
Defined.

(** Property X22. For a speed in [0.2, 5] and a non-negative frame rate,
    height and width, an opened capture whose CAP_PROP_FRAME_COUNT is 0
    makes detect_flashes raise ZeroDivisionError right after the first
    cap.read(), in the progress report 100 * frame_counter / frame_count,
    whether the video has frames or not. *)
Theorem detect_flashes_no_frame_count (cap : VideoCapture) (speed : Q) :
  (2 # 10 <= speed)%Q → (speed <= 5)%Q →
  (0 ≤ CAP_PROP_FPS cap)%Z →
  (0 ≤ CAP_PROP_FRAME_HEIGHT cap)%Z → (0 ≤ CAP_PROP_FRAME_WIDTH cap)%Z →
  is_opened cap = true → CAP_PROP_FRAME_COUNT cap = 0%Z →
  detect_flashes cap speed = mkOutcome 1 (Err ZeroDivisionError).
Proof.
  intros Hlo Hhi Hfps Hh Hw Hop Hcount. unfold detect_flashes, detect_flashes_with.
  rewrite speed_valid by done.
  rewrite dims_valid, Hop; [|apply window_size_nonneg; [done|Lqa.lra]|done..].
  destruct (video cap) as [|f stream]; cbn [run]; unfold progress;
    cbn [frame_counter]; rewrite Hcount; reflexivity.
Qed.

Lemma detect_flashes_no_frame_count_witness :
  (2 # 10 <= 1)%Q ∧ (1 <= 5)%Q ∧ (0 ≤ 4)%Z
  ∧ is_opened (mkCapture true 4 4 0 4 [white; black]) = true
  ∧ CAP_PROP_FRAME_COUNT (mkCapture true 4 4 0 4 [white; black]) = 0%Z
  ∧ detect_flashes (mkCapture true 4 4 0 4 [white; black]) 1
    = mkOutcome 1 (Err ZeroDivisionError).
Proof.
  assert (Hlo : (2 # 10 <= 1)%Q) by (vm_compute; discriminate).
  assert (Hhi : (1 <= 5)%Q) by (vm_compute; discriminate).
  assert (H4 : (0 ≤ 4)%Z) by lia.
  assert (Hop : is_opened (mkCapture true 4 4 0 4 [white; black]) = true)
    by reflexivity.
  assert (Hcount : CAP_PROP_FRAME_COUNT (mkCapture true 4 4 0 4 [white; black]) = 0%Z)
    by reflexivity.
  split; [exact Hlo|]. split; [exact Hhi|]. split; [exact H4|].
  split; [exact Hop|]. split; [exact Hcount|].
  exact (detect_flashes_no_frame_count (mkCapture true 4 4 0 4 [white; black]) 1
           Hlo Hhi H4 H4 H4 Hop Hcount).
Defined.

(** Property X23. When frames_per_second = int(frame_rate * speed) is 0 and
    the capture is opened, detect_flashes never returns a list: every run
    ends in an exception. *)
Theorem detect_flashes_empty_window (cap : VideoCapture) (speed : Q) :
  window_size (CAP_PROP_FPS cap) speed = 0%Z → is_opened cap = true →
  ∃ e, result (detect_flashes cap speed) = Err e.
Proof.
  intros HW Hop. destruct (result (detect_flashes cap speed)) as [ts|e] eqn:Hres;
    [|by exists e].
  apply detect_flashes_with_Ok in Hres as (_ & _ & Hres). rewrite Hop, HW in Hres.
  destruct Hres as (st & Hrun & _). by apply run_no_window in Hrun.
Qed.

Lemma detect_flashes_empty_window_witness :
  window_size (CAP_PROP_FPS ex_cap) (2 # 10) = 0%Z ∧ is_opened ex_cap = true
  ∧ ∃ e, result (detect_flashes ex_cap (2 # 10)) = Err e.
Proof.
  assert (HW : window_size (CAP_PROP_FPS ex_cap) (2 # 10) = 0%Z) by reflexivity.
  assert (Hop : is_opened ex_cap = true) by reflexivity.
  split; [exact HW|]. split; [exact Hop|].
  exact (detect_flashes_empty_window ex_cap (2 # 10) HW Hop).
Defined.

(** ** What the loop appends *)

Lemma run_invariant (an : Danger.Array → Z → Result Z) (cap : VideoCapture)
    (W : Z) (Inv : loop_state → Prop) (stream : list Frame) (st st' : loop_state)
    (k : nat) :
  (∀ f st st', f ∈ stream → Inv st →
     process_frame an cap W f st = Ok st' → Inv st') →
  Inv st → result (run an cap W stream st k) = Ok st' → Inv st'.
Proof.
  revert st k. induction stream as [|f stream IH]; intros st k Hstep Hst; cbn [run].
  - cbn [result]. intros (_ & _ & (_ & _ & [= <-])%bind_Ok)%bind_Ok. done.
  - destruct (bind (progress cap st) _) as [st1|e] eqn:Hf; [|done].
    apply bind_Ok in Hf as (_ & _ & Hf). apply IH.
    + intros f' s s' Hin. apply Hstep. by right.
    + apply (Hstep f st st1); [left|done..].
Qed.

Lemma deque_append_Forall {X : Type} (P : X → Prop) (m : Z) (d : list X) (x : X) :
  Forall P d → P x → Forall P (deque_append m d x).
Proof.
  intros Hd Hx. unfold deque_append. destruct (m =? 0)%Z; [done|].
  destruct (_ =? m)%Z; apply Forall_app; split; try done;
    [by apply Forall_drop|by constructor|by constructor].
Qed.

(** One frame of the loop, when no exception is raised. *)
Lemma process_frame_Ok (an : Danger.Array → Z → Result Z) (cap : VideoCapture)
    (W : Z) (f : Frame) (st st' : loop_state) :
  process_frame an cap W f st = Ok st' →
  let fb := deque_append W (frame_buffer st) (hls f) in
  frame_counter st' = (frame_counter st + 1)%Z
  ∧ (frame_buffer st' = fb ∨ frame_buffer st' = [] ∨ frame_buffer st' = drop 1 fb)
  ∧ ((timestamps st' = timestamps st ∧ start_danger st' = start_danger st)
     ∨ ∃ flashes,
         an (Danger.mkArray (CAP_PROP_FRAME_HEIGHT cap) (CAP_PROP_FRAME_WIDTH cap) fb)
            (CAP_PROP_FPS cap) = Ok flashes
         ∧ if (flashes <? hertz)%Z
           then (0 ≤ start_danger st)%Z ∧ start_danger st' = (-1)%Z
                ∧ CAP_PROP_FPS cap ≠ 0%Z
                ∧ timestamps st' =
                    timestamps st
                    ++ [(inject_Z (skip_enabled * 2)
                         + inject_Z (start_danger st) / inject_Z (CAP_PROP_FPS cap),
                         inject_Z (frame_counter st) / inject_Z (CAP_PROP_FPS cap))%Q]
           else timestamps st' = timestamps st).
Proof.
  intros Hpf fb. unfold process_frame in Hpf.
  apply bind_Ok in Hpf as (red & _ & Hrest). fold fb in Hrest.
  destruct (_ =? W)%Z.
  2:{ injection Hrest as <-. cbn. split; [done|]. split; [by left|by left]. }
  apply bind_Ok in Hrest as (flashes & Han & Hrest).
  apply bind_Ok in Hrest as ([stamps start2] & Hst & Hrest).
  apply bind_Ok in Hrest as (fb' & Hfb & [= <-]). cbn.
  split; [done|]. split.
  { destruct (negb (skip_enabled =? 0)%Z && (flashes =? 0)%Z);
      [injection Hfb as <-; by right; left|].
    destruct fb as [|x fb0]; [done|]. injection Hfb as <-. by right; right. }
  destruct (Z.ltb_spec flashes hertz) as [Hlt|Hge].
  - assert ((hertz <=? flashes)%Z = false) as Hle by (apply Z.leb_gt; lia).
    rewrite Hle in Hst. cbn [andb] in Hst.
    destruct (Z.leb_spec 0 (start_danger st)) as [Hs|Hs].
    + apply bind_Ok in Hst as (a & [Hfps ->]%py_truediv_Ok & Hst).
      apply bind_Ok in Hst as (b & [_ ->]%py_truediv_Ok & Hst).
      injection Hst as <- <-. right. exists flashes. split; [done|].
      assert ((flashes <? hertz)%Z = true) as -> by (apply Z.ltb_lt; lia).
      done.
    + injection Hst as <- <-. by left.
  - injection Hst as <- <-. right. exists flashes. split; [done|].
    assert ((flashes <? hertz)%Z = false) as -> by (apply Z.ltb_ge; lia). done.
Qed.

(** Property X24. In detect_flashes with any luminance analyzer in the place
    of process_dangerous: if every call of the analyzer that returns gives
    at least hertz = 3 flashes, the list returned (when one is returned) is
    empty. An interval is appended only by a window that falls below the
    threshold, so a danger that lasts to the end of the video is not
    reported. *)
Theorem detect_flashes_never_closed (an : Danger.Array → Z → Result Z)
    (cap : VideoCapture) (speed : Q) (ts : list (Q * Q)) :
  (∀ a fr v, an a fr = Ok v → (hertz ≤ v)%Z) →
  result (detect_flashes_with an cap speed) = Ok ts → ts = [].
Proof.
  intros Han Hres. apply detect_flashes_with_Ok in Hres as (_ & _ & Hres).
  destruct (is_opened cap); [|by destruct Hres].
  destruct Hres as (st & Hrun & -> & _).
  assert (timestamps st = []) as ->; [|done].
  revert Hrun. apply (run_invariant _ _ _ (λ st, timestamps st = [])); [|done].
  intros f s s' _ Hs Hf.
  apply process_frame_Ok in Hf as (_ & _ & [[-> _]|(v & Hv & Hf)]); [done|].
  apply Han in Hv.
  assert ((v <? hertz)%Z = false) as Hge by (apply Z.ltb_ge; lia).
  rewrite Hge in Hf. by rewrite Hf.
Qed.

Lemma detect_flashes_never_closed_witness :
  (∀ (a : Danger.Array) (fr v : Z), Ok 3%Z = Ok v → (hertz ≤ v)%Z)
  ∧ result (detect_flashes_with (λ _ _, Ok 3%Z) ex_cap 1) = Ok []
  ∧ ([] : list (Q * Q)) = [].
Proof.
  assert (Han : ∀ (a : Danger.Array) (fr v : Z), Ok 3%Z = Ok v → (hertz ≤ v)%Z).
  { intros a fr v [= <-]. vm_compute. discriminate. }
  assert (Hres : result (detect_flashes_with (λ _ _, Ok 3%Z) ex_cap 1) = Ok [])
    by (vm_compute; reflexivity).
  split; [exact Han|]. split; [exact Hres|].
  exact (detect_flashes_never_closed (λ _ _, Ok 3%Z) ex_cap 1 [] Han Hres).
Defined.

(** Property X25. For a capture of positive height and width whose frames
    have, in all their pixels, a lightness between lo and hi with hi - lo <=
    127, the list detect_flashes returns (when it returns one) is empty. *)
Theorem detect_flashes_low_contrast (cap : VideoCapture) (speed : Q)
    (lo hi : Z) (ts : list (Q * Q)) :
  (0 < CAP_PROP_FRAME_HEIGHT cap)%Z → (0 < CAP_PROP_FRAME_WIDTH cap)%Z →
  (hi - lo ≤ 127)%Z →
  Forall (λ f, lightness_in lo hi (hls f)) (video cap) →
  result (detect_flashes cap speed) = Ok ts → ts = [].
Proof.
  intros Hh Hw Hband Hall Hres.
  apply detect_flashes_with_Ok in Hres as (_ & _ & Hres).
  destruct (is_opened cap); [|by destruct Hres].
  destruct Hres as (st & Hrun & -> & _).
  assert (Forall (lightness_in lo hi) (frame_buffer st)
          ∧ start_danger st = (-1)%Z ∧ timestamps st = []) as (_ & _ & ->); [|done].
  revert Hrun. apply (run_invariant _ _ _
    (λ st, Forall (lightness_in lo hi) (frame_buffer st)
           ∧ start_danger st = (-1)%Z ∧ timestamps st = [])); [|done].
  intros f s s' Hf (Hfb & Hstart & Hts) Hstep.
  assert (Hfb' : Forall (lightness_in lo hi)
                   (deque_append (window_size (CAP_PROP_FPS cap) speed)
                      (frame_buffer s) (hls f))).
  { apply deque_append_Forall; [done|].
    by apply (proj1 (Forall_forall _ _) Hall f). }
  apply process_frame_Ok in Hstep as (_ & Hbuf & Hstamps). split.
  - destruct Hbuf as [-> | [-> | ->]]; [done|constructor|by apply Forall_drop].
  - destruct Hstamps as [[-> ->]|(v & Hv & Hcase)]; [done|].
    rewrite process_dangerous_quiet in Hv; [|done..|].
    + injection Hv as <-. cbn in Hcase. lia.
    + intros sections sh sw. by apply (band_quiet lo hi).
Qed.

Lemma ex_dim_run : detect_flashes ex_dim 1 = mkOutcome 6 (Ok []).
Proof.
  unfold detect_flashes.
  rewrite (detect_flashes_with_ext _ (λ a _, Danger.process_dangerous_from 4 a)).
  - vm_compute. reflexivity.
  - intros fs fr _. by apply process_dangerous_square.
Qed.

Lemma detect_flashes_low_contrast_witness :
  (0 < CAP_PROP_FRAME_HEIGHT ex_dim)%Z ∧ (0 < CAP_PROP_FRAME_WIDTH ex_dim)%Z
  ∧ (200 - 100 ≤ 127)%Z
  ∧ Forall (λ f, lightness_in 100 200 (hls f)) (video ex_dim)
  ∧ result (detect_flashes ex_dim 1) = Ok []
  ∧ ([] : list (Q * Q)) = [].
Proof.
  assert (H4 : (0 < CAP_PROP_FRAME_HEIGHT ex_dim)%Z) by (vm_compute; reflexivity).
  assert (H4' : (0 < CAP_PROP_FRAME_WIDTH ex_dim)%Z) by (vm_compute; reflexivity).
  assert (Hband : (200 - 100 ≤ 127)%Z) by lia.
  assert (Hall : Forall (λ f, lightness_in 100 200 (hls f)) (video ex_dim))
    by (repeat constructor; simpl; lia).
  assert (Hres : result (detect_flashes ex_dim 1) = Ok []) by (by rewrite ex_dim_run).
  split; [exact H4|]. split; [exact H4'|]. split; [exact Hband|].
  split; [exact Hall|]. split; [exact Hres|].
  exact (detect_flashes_low_contrast ex_dim 1 100 200 [] H4 H4' Hband Hall Hres).
Defined.

(** ** The lightness channel *)

Lemma slice_map {X Y : Type} (g : X → Y) (l : list X) (lo hi : Z) :
  map g (Danger.slice l lo hi) = Danger.slice (map g l) lo hi.
Proof. unfold Danger.slice. by rewrite skipn_map, firstn_map. Qed.

Lemma tile_lightness (frame : Danger.hls_frame) (x1 x2 y1 y2 : Z) :
  lightness (map (λ line, Danger.slice line x1 x2) (Danger.slice frame y1 y2))
  = map (λ line, Danger.slice line x1 x2) (Danger.slice (lightness frame) y1 y2).
Proof.
  unfold lightness. rewrite <- slice_map, !map_map.
  apply map_ext. intros line. apply slice_map.
Qed.

Lemma calculate_average_luminance_lightness (segment segment' : list (list Danger.pixel)) :
  lightness segment = lightness segment' →
  Danger.calculate_average_luminance segment
  = Danger.calculate_average_luminance segment'.
Proof.
  unfold lightness, Danger.calculate_average_luminance. by intros ->.
Qed.

Lemma precalculate_lightness (h w sections sh sw : Z) (fs fs' : list Danger.hls_frame) :
  map lightness fs = map lightness fs' →
  Danger.precalculate (Danger.mkArray h w fs) sections sh sw
  = Danger.precalculate (Danger.mkArray h w fs') sections sh sw.
Proof.
  unfold Danger.precalculate. cbn [Danger.frames]. revert fs'.
  induction fs as [|frame fs IH]; intros [|frame' fs']; try done.
  cbn [map]. intros [= Hframe Hrest]. f_equal; [|by apply IH].
  apply map_ext. intros row. apply map_ext. intros col.
  apply calculate_average_luminance_lightness. by rewrite !tile_lightness, Hframe.
Qed.

(** [process_dangerous] reads the lightness channel only. *)
Lemma process_dangerous_lightness (h w fr : Z) (fs fs' : list Danger.hls_frame) :
  map lightness fs = map lightness fs' →
  Danger.process_dangerous (Danger.mkArray h w fs) fr
  = Danger.process_dangerous (Danger.mkArray h w fs') fr.
Proof.
  intros Hfs. unfold Danger.process_dangerous, Danger.process_dangerous_from.
  cbn [Danger.height Danger.width Danger.frames].
  destruct (py_floordiv h _) as [a|]; [|done]. cbn [bind].
  destruct (py_floordiv w _) as [b|]; [|done]. cbn [bind].
  destruct (py_floordiv h _) as [sh|]; [|done]. cbn [bind].
  destruct (py_floordiv w _) as [sw|]; [|done]. cbn [bind].
  destruct (_ <? 0)%Z; [done|].
  rewrite (precalculate_lightness h w _ sh sw fs fs' Hfs).
  assert (length fs = length fs') as ->; [|done].
  by rewrite <- (length_map lightness fs), Hfs, length_map.
Qed.

(** The variables of the loop but the red-flash buffer, up to hue and
    saturation. *)
Lemma deque_append_lightness (m : Z) (d d' : list Danger.hls_frame)
    (x x' : Danger.hls_frame) :
  map lightness d = map lightness d' → lightness x = lightness x' →
  map lightness (deque_append m d x) = map lightness (deque_append m d' x')
  ∧ length (deque_append m d x) = length (deque_append m d' x').
Proof.
  intros Hd Hx.
  assert (Hlen : length d = length d')
    by (by rewrite <- (length_map lightness d), Hd, length_map).
  unfold deque_append. rewrite <- Hlen. destruct (m =? 0)%Z; [done|].
  destruct (_ =? m)%Z.
  - rewrite !map_app, <- !skipn_map, Hd. cbn [map]. rewrite Hx. split; [done|].
    by rewrite !length_app, !length_drop, Hlen.
  - rewrite !map_app, Hd. cbn [map]. rewrite Hx. split; [done|].
    by rewrite !length_app, Hlen.
Qed.

Lemma process_frame_lightness (cap cap' : VideoCapture) (W : Z) (f f' : Frame)
    (st st' s1 s1' : loop_state) :
  CAP_PROP_FRAME_HEIGHT cap = CAP_PROP_FRAME_HEIGHT cap' →
  CAP_PROP_FRAME_WIDTH cap = CAP_PROP_FRAME_WIDTH cap' →
  CAP_PROP_FPS cap = CAP_PROP_FPS cap' →
  lightness (hls f) = lightness (hls f') →
  map lightness (frame_buffer st) = map lightness (frame_buffer st') →
  frame_counter st = frame_counter st' → start_danger st = start_danger st' →
  timestamps st = timestamps st' →
  process_frame Danger.process_dangerous cap W f st = Ok s1 →
  process_frame Danger.process_dangerous cap' W f' st' = Ok s1' →
  map lightness (frame_buffer s1) = map lightness (frame_buffer s1')
  ∧ frame_counter s1 = frame_counter s1' ∧ start_danger s1 = start_danger s1'
  ∧ timestamps s1 = timestamps s1'.
Proof.
  intros Hh Hw Hfps Hf Hfb Hcount Hstart Hts H1 H2.
  unfold process_frame in H1, H2.
  apply bind_Ok in H1 as (red1 & _ & H1). apply bind_Ok in H2 as (red2 & _ & H2).
  destruct (deque_append_lightness W (frame_buffer st) (frame_buffer st')
              (hls f) (hls f') Hfb Hf) as [Hmap Hlen].
  set (fb := deque_append W (frame_buffer st) (hls f)) in *.
  set (fb' := deque_append W (frame_buffer st') (hls f')) in *.
  rewrite <- Hlen, <- Hh, <- Hw, <- Hfps, <- Hcount, <- Hstart, <- Hts in H2.
  rewrite <- (process_dangerous_lightness _ _ _ fb fb' Hmap) in H2.
  destruct (_ =? W)%Z.
  2:{ injection H1 as <-. injection H2 as <-. by cbn. }
  destruct (Danger.process_dangerous _ _) as [flashes|]; [|done]. cbn [bind] in H1, H2.
  match type of H1 with
  | bind ?X _ = _ => destruct X as [[stamps start2]|]; [|done]
  end.
  cbn [bind] in H1, H2.
  destruct (negb (skip_enabled =? 0)%Z && (flashes =? 0)%Z).
  - injection H1 as <-. injection H2 as <-. by cbn.
  - destruct fb as [|x fb0], fb' as [|x' fb0']; try done.
    injection H1 as <-. injection H2 as <-. cbn. by injection Hmap as _ ->.
Qed.

Lemma run_lightness (cap cap' : VideoCapture) (W : Z) (stream stream' : list Frame)
    (st st' s1 s1' : loop_state) (k k' : nat) :
  CAP_PROP_FRAME_HEIGHT cap = CAP_PROP_FRAME_HEIGHT cap' →
  CAP_PROP_FRAME_WIDTH cap = CAP_PROP_FRAME_WIDTH cap' →
  CAP_PROP_FRAME_COUNT cap = CAP_PROP_FRAME_COUNT cap' →
  CAP_PROP_FPS cap = CAP_PROP_FPS cap' →
  map (λ f, lightness (hls f)) stream = map (λ f, lightness (hls f)) stream' →
  map lightness (frame_buffer st) = map lightness (frame_buffer st') →
  frame_counter st = frame_counter st' → start_danger st = start_danger st' →
  timestamps st = timestamps st' →
  result (run Danger.process_dangerous cap W stream st k) = Ok s1 →
  result (run Danger.process_dangerous cap' W stream' st' k') = Ok s1' →
  timestamps s1 = timestamps s1'.
Proof.
  intros Hh Hw Hc Hfps. revert stream' st st' k k'.
  induction stream as [|f stream IH]; intros [|f' stream'] st st' k k' Hs;
    try done; intros Hfb Hcount Hstart Hts; cbn [run].
  - cbn [result]. intros (_ & _ & (_ & _ & [= <-])%bind_Ok)%bind_Ok.
    by intros (_ & _ & (_ & _ & [= <-])%bind_Ok)%bind_Ok.
  - injection Hs as Hf Hs.
    destruct (bind (progress cap st) _) as [st1|] eqn:H1; [|done].
    destruct (bind (progress cap' st') _) as [st1'|] eqn:H2; [|done].
    apply bind_Ok in H1 as (_ & _ & H1). apply bind_Ok in H2 as (_ & _ & H2).
    destruct (process_frame_lightness cap cap' W f f' st st' st1 st1')
      as (? & ? & ? & ?); try done.
    by apply IH.
Qed.

(** Property X26. Two captures with the same isOpened(), height, width,
    frame count and frame rate whose frames agree on the lightness channel
    of their HLS data (hue, saturation and the BGR data may differ) give the
    same list of intervals whenever detect_flashes returns for both: what
    frame_buffer_red.add_frame computes never reaches the result. *)
Theorem detect_flashes_lightness_only (cap cap' : VideoCapture) (speed : Q)
    (ts ts' : list (Q * Q)) :
  same_lightness cap cap' →
  result (detect_flashes cap speed) = Ok ts →
  result (detect_flashes cap' speed) = Ok ts' →
  ts = ts'.
Proof.
  intros (Hop & Hh & Hw & Hc & Hfps & Hv) H1 H2.
  apply detect_flashes_with_Ok in H1 as (_ & _ & H1), H2 as (_ & _ & H2).
  rewrite <- Hop, <- Hfps in H2. destruct (is_opened cap).
  - destruct H1 as (st & Hrun & -> & _), H2 as (st' & Hrun' & -> & _). f_equal.
    by apply (run_lightness cap cap' (window_size (CAP_PROP_FPS cap) speed)
                (video cap) (video cap') (start_state cap) (start_state cap')
                st st' 0 0).
  - destruct H1 as [-> _], H2 as [-> _]. done.
Qed.

Lemma ex_gray_flash_run :
  detect_flashes ex_gray_flash 1 = mkOutcome 7 (Ok [(11 # 4, 5 # 4)%Q]).
Proof.
  unfold detect_flashes.
  rewrite (detect_flashes_with_ext _ (λ a _, Danger.process_dangerous_from 4 a)).
  - vm_compute. reflexivity.
  - intros fs fr _. by apply process_dangerous_square.
Qed.

Lemma ex_red_flash_run :
  detect_flashes ex_red_flash 1 = mkOutcome 7 (Ok [(11 # 4, 5 # 4)%Q]).
Proof.
  unfold detect_flashes.
  rewrite (detect_flashes_with_ext _ (λ a _, Danger.process_dangerous_from 4 a)).
  - vm_compute. reflexivity.
  - intros fs fr _. by apply process_dangerous_square.
Qed.

Lemma detect_flashes_lightness_only_witness :
  same_lightness ex_gray_flash ex_red_flash
  ∧ result (detect_flashes ex_gray_flash 1) = Ok [(11 # 4, 5 # 4)%Q]
  ∧ result (detect_flashes ex_red_flash 1) = Ok [(11 # 4, 5 # 4)%Q]
  ∧ [(11 # 4, 5 # 4)%Q] = [(11 # 4, 5 # 4)%Q].
Proof.
  assert (Hsame : same_lightness ex_gray_flash ex_red_flash)
    by (repeat split; reflexivity).
  assert (H1 : result (detect_flashes ex_gray_flash 1) = Ok [(11 # 4, 5 # 4)%Q])
    by (by rewrite ex_gray_flash_run).
  assert (H2 : result (detect_flashes ex_red_flash 1) = Ok [(11 # 4, 5 # 4)%Q])
    by (by rewrite ex_red_flash_run).
  split; [exact Hsame|]. split; [exact H1|]. split; [exact H2|].
  exact (detect_flashes_lightness_only ex_gray_flash ex_red_flash 1 _ _ Hsame H1 H2).
Defined.

(** ** The bounds of the intervals *)

Lemma run_counter (an : Danger.Array → Z → Result Z) (cap : VideoCapture) (W : Z)
    (stream : list Frame) (st st' : loop_state) (k : nat) :
  result (run an cap W stream st k) = Ok st' →
  frame_counter st' = (frame_counter st + Z.of_nat (length stream))%Z.
Proof.
  revert st k. induction stream as [|f stream IH]; intros st k; cbn [run].
  - cbn [result]. intros (_ & _ & (_ & _ & [= <-])%bind_Ok)%bind_Ok. simpl. lia.
  - destruct (bind (progress cap st) _) as [st1|e] eqn:Hf; [|done].
    apply bind_Ok in Hf as (_ & _ & Hf). apply process_frame_Ok in Hf as [Hc _].
    intros Hrun. rewrite (IH _ _ Hrun), Hc. cbn [length]. lia.
Qed.

Lemma fuse_Forall (S E : Q → Prop) (stamp : Q * Q) (rest : list (Q * Q)) :
  Forall (λ a, S a.1 ∧ E a.2) (stamp :: rest) →
  Forall (λ a, S a.1 ∧ E a.2) (fuse stamp rest).
Proof.
  revert stamp. induction rest as [|next rest IH]; intros stamp Hall; [done|].
  cbn [fuse]. apply Forall_cons in Hall as [[Hs He] Hrest].
  pose proof Hrest as [[Hns Hne] Hrest']%Forall_cons.
  destruct (Qltb _ 3).
  - apply IH. constructor; [done|done].
  - constructor; [done|]. by apply IH.
Qed.

(** Property X27. Every interval [start, end] of the list returned by
    detect_flashes has start >= 2 (the offset skip_enabled * 2) and end <
    len(video) / frame_rate. *)
Theorem detect_flashes_bounds (cap : VideoCapture) (speed : Q)
    (ts : list (Q * Q)) :
  result (detect_flashes cap speed) = Ok ts →
  Forall (λ a, (2 <= a.1)%Q
               ∧ (a.2 < inject_Z (Z.of_nat (length (video cap)))
                        / inject_Z (CAP_PROP_FPS cap))%Q) ts.
Proof.
  intros Hres. apply detect_flashes_with_Ok in Hres as (Hlo & HW & Hres).
  destruct (is_opened cap); [|destruct Hres as [-> _]; constructor].
  destruct Hres as (st & Hrun & -> & _).
  destruct (Z.lt_ge_cases 0 (CAP_PROP_FPS cap)) as [Hfps|Hfps].
  2:{ assert (window_size (CAP_PROP_FPS cap) speed = 0%Z) as HW0.
      { pose proof (window_nonpos (CAP_PROP_FPS cap) speed Hfps ltac:(Lqa.lra)). lia. }
      rewrite HW0 in Hrun. by apply run_no_window in Hrun. }
  pose proof (run_counter _ _ _ _ _ _ _ Hrun) as Hcount. cbn in Hcount.
  pose proof (run_inv _ _ _ _ _ _ _ Hfps (loop_inv_start _ _) Hrun)
    as (_ & _ & Hsp & _).
  assert (Hall : Forall (λ a, (2 <= a.1)%Q
                    ∧ (a.2 < inject_Z (frame_counter st)
                             / inject_Z (CAP_PROP_FPS cap))%Q) (timestamps st)
                 ∧ (0 ≤ frame_counter st)%Z).
  { revert Hrun. apply (run_invariant _ _ _
      (λ st, Forall (λ a, (2 <= a.1)%Q
                 ∧ (a.2 < inject_Z (frame_counter st)
                          / inject_Z (CAP_PROP_FPS cap))%Q) (timestamps st)
             ∧ (0 ≤ frame_counter st)%Z)); [|by split; [constructor|]].
    intros f s s' _ [Hs Hc] Hf.
    apply process_frame_Ok in Hf as (Hc' & _ & Hstamps).
    assert (Hnext : (inject_Z (frame_counter s) / inject_Z (CAP_PROP_FPS cap)
                     < inject_Z (frame_counter s') / inject_Z (CAP_PROP_FPS cap))%Q)
      by (apply Qdiv_lt_mono; lia).
    assert (Hold : Forall (λ a, (2 <= a.1)%Q
                     ∧ (a.2 < inject_Z (frame_counter s')
                              / inject_Z (CAP_PROP_FPS cap))%Q) (timestamps s)).
    { eapply Forall_impl; [exact Hs|]. intros a [? ?]. split; [done|].
      by eapply Qlt_trans. }
    split; [|lia].
    destruct Hstamps as [[-> _]|(v & _ & Hcase)]; [done|].
    destruct (v <? hertz)%Z; [|by rewrite Hcase].
    destruct Hcase as (Hstart & _ & _ & ->). apply Forall_app. split; [done|].
    constructor; [|constructor]. cbn [fst snd]. split; [|done].
    assert (0 <= inject_Z (start_danger s) / inject_Z (CAP_PROP_FPS cap))%Q.
    { apply Qle_shift_div_l.
      - change 0%Q with (inject_Z 0). by rewrite <- Zlt_Qlt.
      - rewrite Qmult_0_l. change 0%Q with (inject_Z 0). by rewrite <- Zle_Qle. }
    change (inject_Z (skip_enabled * 2)) with 2%Q. Lqa.lra. }
  destruct Hall as [Hall _]. rewrite Hcount, Z.add_0_l in Hall.
  destruct (timestamps st) as [|stamp rest]; [constructor|].
  rewrite merge_fuse by done.
  by apply (fuse_Forall (λ x, (2 <= x)%Q)
              (λ y, (y < inject_Z (Z.of_nat (length (video cap)))
                         / inject_Z (CAP_PROP_FPS cap))%Q)).
Qed.

Lemma detect_flashes_bounds_witness :
  result (detect_flashes ex_cap 1) = Ok [(11 # 4, 5 # 4)%Q]
  ∧ Forall (λ a, (2 <= a.1)%Q
                 ∧ (a.2 < inject_Z (Z.of_nat (length (video ex_cap)))
                          / inject_Z (CAP_PROP_FPS ex_cap))%Q)
           [(11 # 4, 5 # 4)%Q].
Proof.
  assert (Hrun : result (detect_flashes ex_cap 1) = Ok [(11 # 4, 5 # 4)%Q])
    by (by rewrite ex_cap_run).
  split; [exact Hrun|].
  exact (detect_flashes_bounds ex_cap 1 _ Hrun).
Defined.

(** ** The merging loop on lists that need no merging *)

Lemma merge_loop_separated (fuel i : nat) (l : list (Q * Q)) :
  separated 3 l → merge_loop fuel i l = l.
Proof.
  intros Hsep. revert i. induction fuel as [|fuel IH]; intros i; [done|].
  cbn [merge_loop].
  destruct (l !! i) as [stamp|] eqn:Hi; [|done].
  destruct (l !! (i + 1)) as [next|] eqn:Hi1; [|done].
  pose proof (Hsep i stamp next Hi Hi1) as Hgap.
  assert (Qltb (Qabs' (stamp.2 - next.1)) 3 = false) as ->; [|apply IH].
  apply Qltb_ge. unfold Qabs'.
  destruct (Qle_bool 0 (stamp.2 - next.1)) eqn:Hle; [|Lqa.lra].
  apply Qle_bool_iff in Hle. Lqa.lra.
Qed.

(** Property X28. The merging loop at the end of detect_flashes leaves a
    list unchanged whose consecutive intervals are at least 3 seconds apart
    (intervals[k].end + 3 <= intervals[k+1].start for all k). *)
Theorem merge_separated (l : list (Q * Q)) : separated 3 l → merge l = l.
Proof. intros Hsep. unfold merge. by apply merge_loop_separated. Qed.

Lemma merge_separated_witness :
  separated 3 [(2, 3)%Q; (6, 7)%Q; (11, 10)%Q]
  ∧ merge [(2, 3)%Q; (6, 7)%Q; (11, 10)%Q] = [(2, 3)%Q; (6, 7)%Q; (11, 10)%Q].
Proof.
  assert (Hsep : separated 3 [(2, 3)%Q; (6, 7)%Q; (11, 10)%Q]).
  { intros [|[|[|k]]] a b; cbn; intros [= <-] [= <-]; vm_compute; discriminate. }
  split; [exact Hsep|].
  exact (merge_separated _ Hsep).
Defined.

(** ** The chromaticity of a pixel *)

(** Property X29. For a pixel with non-negative channels, the red percentage
    rperc computed in the loop is >= 0.8 (a saturated red for the state
    machine) exactly when R > 0 and R >= 4 * (G + B); the black pixel, whose
    channel sum is replaced by 134217728, is not saturated. *)
Theorem chromaticity_of_saturated (blue green red : Z) :
  (0 ≤ blue)%Z → (0 ≤ green)%Z → (0 ≤ red)%Z →
  saturated (chromaticity_of (blue, green, red)).2 = true
  ↔ (0 < red)%Z ∧ (4 * (green + blue) ≤ red)%Z.
Proof.
  intros Hb Hg Hr. unfold chromaticity_of, saturated. cbn [snd].
  unfold RedFSM.MAX_RED_PERCENTAGE. rewrite Qle_bool_iff.
  destruct (Z.eqb_spec (red + green + blue) 0) as [Hz|Hz].
  - assert (red = 0%Z) as -> by lia. split; [|lia].
    intros Hle. by vm_compute in Hle.
  - destruct (red + green + blue)%Z as [|total|total] eqn:Htotal; [done| |lia].
    unfold Qle, Qdiv, Qmult, Qinv, inject_Z. cbn. lia.
Qed.

Lemma chromaticity_of_saturated_witness :
  (0 ≤ 10)%Z ∧ (0 ≤ 40)%Z ∧ (0 ≤ 200)%Z
  ∧ (saturated (chromaticity_of (10, 40, 200)%Z).2 = true
     ↔ (0 < 200)%Z ∧ (4 * (40 + 10) ≤ 200)%Z).
Proof.
  assert (Hb : (0 ≤ 10)%Z) by lia.
  assert (Hg : (0 ≤ 40)%Z) by lia.
  assert (Hr : (0 ≤ 200)%Z) by lia.
  split; [exact Hb|]. split; [exact Hg|]. split; [exact Hr|].
  exact (chromaticity_of_saturated 10 40 200 Hb Hg Hr).
Defined.



End DetectorExtra_facts.
